(** * PHP Refactor Tools: a shallow embedding of the symbol index, the
      namespace resolver and the edit planner, with the properties of the
      specification stated over it.

    The TypeScript sources are embedded function by function.  Values that
    come from the PHP parser are untyped JavaScript objects in the sources,
    so they are embedded as a small JSON-like datatype [js]; every property
    read, truthiness test and [typeof] test of the sources is spelled out
    on that datatype.  Exceptions are a result type; mutable maps of the
    indexer are finite maps. *)

From Stdlib Require Import String Ascii List ZArith Bool Lia.
From stdpp Require Import gmap strings pretty.
Import ListNotations.

Local Open Scope string_scope.
Local Open Scope Z_scope.

(** ** Results of fallible code *)

Inductive res (A : Type) : Type :=
| Ok (a : A)
| Throw.
Arguments Ok {A} a.
Arguments Throw {A}.

Definition rbind {A B} (m : res A) (k : A -> res B) : res B :=
  match m with Ok a => k a | Throw => Throw end.

#[global] Instance res_ret : MRet res := fun A a => Ok a.
#[global] Instance res_bind : MBind res := fun A B k m => rbind m k.
#[global] Instance res_fmap : FMap res := fun A B f m => rbind m (fun a => Ok (f a)).

(** ** JavaScript strings *)

Module Str.

Definition len (s : string) : Z := Z.of_nat (String.length s).

(** [s.startsWith(p)] *)
Definition startsWith (p s : string) : bool := String.prefix p s.

(** [s.substring(n)] for [0 <= n] *)
Fixpoint drop (n : nat) (s : string) : string :=
  match n, s with
  | O, _ => s
  | S n', String _ r => drop n' r
  | S _, EmptyString => EmptyString
  end.

(** [s.substring(0, n)] *)
Fixpoint take (n : nat) (s : string) : string :=
  match n, s with
  | S n', String c r => String c (take n' r)
  | _, _ => EmptyString
  end.

(** [s.endsWith(suf)] *)
Definition endsWith (suf s : string) : bool :=
  (String.length suf <=? String.length s)%nat
  && String.eqb (drop (String.length s - String.length suf) s) suf.

(** [s.includes(sub)] *)
Fixpoint includes (sub s : string) : bool :=
  String.prefix sub s
  || match s with
     | EmptyString => false
     | String _ r => includes sub r
     end.

(** [s.split(c)] for a one-character separator: never the empty list. *)
Fixpoint split (c : ascii) (s : string) : list string :=
  match s with
  | EmptyString => [EmptyString]
  | String a r =>
      if Ascii.eqb a c then EmptyString :: split c r
      else match split c r with
           | x :: xs => String a x :: xs
           | [] => [String a EmptyString]
           end
  end.

(** [parts.join(sep)] *)
Fixpoint join (sep : string) (l : list string) : string :=
  match l with
  | [] => EmptyString
  | [x] => x
  | x :: r => x ++ sep ++ join sep r
  end.

(** [s.split(c).pop()]: the last segment; it always exists. *)
Definition lastSegment (c : ascii) (s : string) : string :=
  List.last (split c s) EmptyString.

(** [s.replace(/c$/, '')]: one trailing [c] is removed. *)
Fixpoint stripTrailing (c : ascii) (s : string) : string :=
  match s with
  | EmptyString => EmptyString
  | String a EmptyString => if Ascii.eqb a c then EmptyString else s
  | String a r => String a (stripTrailing c r)
  end.

(** [s.replace(/^c/, '')]: one leading [c] is removed. *)
Definition stripLeading (c : ascii) (s : string) : string :=
  match s with
  | String a r => if Ascii.eqb a c then r else s
  | EmptyString => EmptyString
  end.

(** [s.lastIndexOf(c)], [-1] when absent. *)
Fixpoint lastIndexOf_from (c : ascii) (s : string) (i : Z) (found : Z) : Z :=
  match s with
  | EmptyString => found
  | String a r => lastIndexOf_from c r (i + 1) (if Ascii.eqb a c then i else found)
  end.
Definition lastIndexOf (c : ascii) (s : string) : Z := lastIndexOf_from c s 0 (-1).

(** [s.indexOf(c, from)], [-1] when absent. *)
Fixpoint indexOf_from (c : ascii) (s : string) (i from : Z) : Z :=
  match s with
  | EmptyString => -1
  | String a r =>
      if (from <=? i) && Ascii.eqb a c then i else indexOf_from c r (i + 1) from
  end.
Definition indexOf (c : ascii) (s : string) (from : Z) : Z := indexOf_from c s 0 from.

(** [s.substring(a, b)] with JavaScript's clamping and swapping. *)
Definition substring (a b : Z) (s : string) : string :=
  let n := len s in
  let a' := Z.min (Z.max a 0) n in
  let b' := Z.min (Z.max b 0) n in
  let lo := Z.min a' b' in
  let hi := Z.max a' b' in
  take (Z.to_nat (hi - lo)) (drop (Z.to_nat lo) s).

Definition backslash : ascii := "\"%char.
Definition slash : ascii := "/"%char.

End Str.

(** ** Untyped values of the sources *)

#[local] Set Warnings "-register-all".

Inductive js : Type :=
| JUndef
| JNull
| JBool (b : bool)
| JNum (z : Z)
| JStr (s : string)
| JArr (l : list js)
| JObj (fields : list (string * js)).

Module Js.

Fixpoint field (k : string) (fs : list (string * js)) : js :=
  match fs with
  | [] => JUndef
  | (k', v) :: r => if String.eqb k k' then v else field k r
  end.

(** A property read [v.k].  Reading a property of [undefined] or [null]
    is a TypeError; primitives and arrays have none of the properties the
    sources read this way. *)
Definition prop (k : string) (v : js) : res js :=
  match v with
  | JUndef | JNull => Throw
  | JObj fs => Ok (field k fs)
  | _ => Ok JUndef
  end.

(** The same read on a value the source has already dereferenced. *)
Definition get (k : string) (v : js) : js :=
  match v with
  | JObj fs => field k fs
  | _ => JUndef
  end.

Definition truthy (v : js) : bool :=
  match v with
  | JUndef | JNull => false
  | JBool b => b
  | JNum z => negb (z =? 0)
  | JStr s => negb (String.eqb s EmptyString)
  | JArr _ | JObj _ => true
  end.

(** [typeof v === 'string'] *)
Definition isString (v : js) : bool :=
  match v with JStr _ => true | _ => false end.

(** [typeof v === 'object'] (this holds of [null] too) *)
Definition isObject (v : js) : bool :=
  match v with JNull | JArr _ | JObj _ => true | _ => false end.

Definition isArray (v : js) : bool :=
  match v with JArr _ => true | _ => false end.

(** [v === s] for a string [s] *)
Definition eqStr (v : js) (s : string) : bool :=
  match v with JStr s' => String.eqb s' s | _ => false end.

(** [a === b] where [b] is a string or [null] *)
Definition eqOpt (v : js) (o : option string) : bool :=
  match v, o with
  | JStr s, Some s' => String.eqb s s'
  | JNull, None => true
  | _, _ => false
  end.

(** ['k' in v] for an object [v]; a TypeError on a primitive. *)
Fixpoint hasField (k : string) (fs : list (string * js)) : bool :=
  match fs with
  | [] => false
  | (k', _) :: r => String.eqb k k' || hasField k r
  end.

(** A number read, as in [loc.start.line - 1]. *)
Definition num (v : js) : res Z :=
  match v with JNum z => Ok z | _ => Throw end.

(** A string on which a string method is called: calling [split],
    [endsWith] and the like on anything else is a TypeError. *)
Definition str (v : js) : res string :=
  match v with JStr s => Ok s | _ => Throw end.

(** The size of a value, for inductions on trees. *)
Fixpoint size (v : js) : nat :=
  match v with
  | JArr l =>
      S ((fix sizes (l : list js) : nat :=
            match l with
            | [] => O
            | x :: r => (size x + sizes r)%nat
            end) l)
  | JObj fs =>
      S ((fix sizes (fs : list (string * js)) : nat :=
            match fs with
            | [] => O
            | (_, x) :: r => (size x + sizes r)%nat
            end) fs)
  | _ => 1%nat
  end.

End Js.


(** ** Code that mutates state and may throw

    [SM S A] runs on a state [S]; the state reached when an exception is
    thrown is kept, as JavaScript does not undo the mutations made before a
    throw. *)

Definition SM (S A : Type) : Type := S -> res A * S.

#[global] Instance SM_ret {S} : MRet (SM S) := fun A a s => (Ok a, s).
#[global] Instance SM_bind {S} : MBind (SM S) := fun A B k m s =>
  match m s with
  | (Ok a, s') => k a s'
  | (Throw, s') => (Throw, s')
  end.

Module St.
Definition get {S} : SM S S := fun s => (Ok s, s).
Definition put {S} (s : S) : SM S unit := fun _ => (Ok tt, s).
Definition modify {S} (f : S -> S) : SM S unit := fun s => (Ok tt, f s).
Definition lift {S A} (r : res A) : SM S A := fun s => (r, s).
Definition when {S} (b : bool) (m : SM S unit) : SM S unit :=
  if b then m else mret tt.
End St.

(** Loops of the sources over parser values.  The function iterated is a
    parameter of the definition and not of its [fix], so that a traversal
    which calls itself through these loops is structurally recursive. *)

Module Loop.

(** The body run on the value of field [k], [d] when the object has no
    such field. *)
Definition onField {A} (k : string) (f : js -> A) (d : A)
  : list (string * js) -> A :=
  fix go fs :=
    match fs with
    | [] => d
    | (k', v) :: r => if String.eqb k k' then f v else go r
    end.

Definition forEach {S} (f : js -> SM S unit) : list js -> SM S unit :=
  fix go l :=
    match l with
    | [] => mret tt
    | x :: r => _ ← f x; go r
    end.

Definition chars (s : string) : list js :=
  map (fun c => JStr (String c EmptyString)) (list_ascii_of_string s).

(** [for (const x of v)]: an array yields its elements, a string its
    characters, any other value is not iterable. *)
Definition forOf {S} (f : js -> SM S unit) (v : js) : SM S unit :=
  match v with
  | JArr l => forEach f l
  | JStr s => forEach f (chars s)
  | _ => St.lift Throw
  end.

(** The same loop where the body is a traversal calling itself.  On a
    one-character string every traversal of the sources does nothing:
    it has no [kind] and no field to descend into. *)
Definition forNodes {S} (f : js -> SM S unit) (v : js) : SM S unit :=
  match v with
  | JArr l => forEach f l
  | JStr _ => mret tt
  | _ => St.lift Throw
  end.

(** [if (!nodes) return; for (const node of nodes) ...] *)
Definition nodes {S} (f : js -> SM S unit) (v : js) : SM S unit :=
  if Js.truthy v then forNodes f v else mret tt.

(** A loop whose body may [return] from the enclosing function: the
    body answers [true] to stop. *)
Definition forEachUntil {S} (f : js -> SM S bool) : list js -> SM S unit :=
  fix go l :=
    match l with
    | [] => mret tt
    | x :: r => stop ← f x; if (stop : bool) then mret tt else go r
    end.

Definition forNodesUntil {S} (f : js -> SM S bool) (v : js) : SM S unit :=
  match v with
  | JArr l => forEachUntil f l
  | JStr _ => mret tt
  | _ => St.lift Throw
  end.

(** The first answer of [f] over the elements of [v], for loops that
    [return] a value. *)
Definition firstOf {A} (f : js -> res (option A)) : list js -> res (option A) :=
  fix go l :=
    match l with
    | [] => Ok None
    | x :: r =>
        match f x with
        | Ok None => go r
        | other => other
        end
    end.

Definition elements (v : js) : res (list js) :=
  match v with
  | JArr l => Ok l
  | JStr s => Ok (chars s)
  | _ => Throw
  end.

(** [for (const key in node)] over the fields of an object, in order. *)
Definition forIn {S} (f : string -> js -> SM S unit)
  : list (string * js) -> SM S unit :=
  fix go fs :=
    match fs with
    | [] => mret tt
    | (k, v) :: r => _ ← f k v; go r
    end.

End Loop.

(** ** psr4.ts: the namespace of a file from composer.json *)

Module Psr4.

(** A value of a ["psr-4"] table: one directory or several. *)
Inductive Paths : Type :=
| OnePath (p : string)
| ManyPaths (ps : list string).

(** A ["psr-4"] table, as a JSON object: its properties in the order in
    which they were created, which for a parsed file is the order of the
    text.  [entries] below is the order in which [Object.entries] yields
    them. *)
Definition Psr4Table : Type := list (string * Paths).

(** [composer.autoload?.['psr-4']] and
    [composer['autoload-dev']?.['psr-4']], [None] when absent. *)
Record ComposerJson : Type := {
  autoload_psr4 : option Psr4Table;
  autoload_dev_psr4 : option Psr4Table
}.

(** What the function asks of Node and of the editor. *)
Record Host : Type := {
  getWorkspaceFolder : string -> option string;
  path_sep : ascii;
  path_join : string -> string -> string;
  path_relative : string -> string -> string;
  path_dirname : string -> string;
  pathExists : string -> bool;
  readJson : string -> res ComposerJson
}.

(** Assignment to a key of an object: in place when the key exists, at
    the end otherwise. *)
Fixpoint objSet (k : string) (v : Paths) (o : Psr4Table) : Psr4Table :=
  match o with
  | [] => [(k, v)]
  | (k', v') :: r =>
      if String.eqb k k' then (k', v) :: r else (k', v') :: objSet k v r
  end.

(** [{ ...a, ...b }]: the properties of [a] and then those of [b] are
    assigned to a new object. *)
Definition spread (a b : Psr4Table) : Psr4Table :=
  fold_left (fun o kv => objSet (fst kv) (snd kv) o) (a ++ b) [].

(** The keys that JavaScript lists first: an array index is the decimal
    numeral, without a leading zero, of an integer below [2^32 - 1]. *)
Definition digit (c : ascii) : option N :=
  let n := N_of_ascii c in
  if (48 <=? n)%N && (n <=? 57)%N then Some (n - 48)%N else None.

Fixpoint numeral (acc : N) (s : string) : option N :=
  match s with
  | EmptyString => Some acc
  | String c r =>
      match digit c with
      | Some d => numeral (acc * 10 + d)%N r
      | None => None
      end
  end.

Definition arrayIndex (k : string) : option N :=
  match k with
  | EmptyString => None
  | String c r =>
      if Ascii.eqb c "0" && negb (String.eqb r EmptyString) then None
      else match numeral 0 k with
           | Some n => if (n <? 4294967295)%N then Some n else None
           | None => None
           end
  end.

(** A property put in its place among those sorted by array index. *)
Fixpoint insertIndexed (n : N) (kv : string * Paths)
    (l : list (N * (string * Paths))) : list (N * (string * Paths)) :=
  match l with
  | [] => [(n, kv)]
  | (m, kv') :: r =>
      if (n <? m)%N then (n, kv) :: l else (m, kv') :: insertIndexed n kv r
  end.

Definition indexedEntries (o : Psr4Table) : list (N * (string * Paths)) :=
  fold_left (fun acc kv =>
               match arrayIndex (fst kv) with
               | Some n => insertIndexed n kv acc
               | None => acc
               end) o [].

Definition namedEntries (o : Psr4Table) : Psr4Table :=
  List.filter (fun kv => match arrayIndex (fst kv) with
                         | Some _ => false
                         | None => true
                         end) o.

(** [Object.entries(o)]: the properties whose key is an array index, by
    index, and then the others in the order of their creation. *)
Definition entries (o : Psr4Table) : Psr4Table :=
  (map snd (indexedEntries o) ++ namedEntries o)%list.

Definition toUnix (sep : ascii) (p : string) : string :=
  Str.join "/" (Str.split sep p).

(** [Array.isArray(paths) ? paths : [paths]] *)
Definition pathArray (paths : Paths) : list string :=
  match paths with
  | OnePath p => [p]
  | ManyPaths ps => ps
  end.

(** [toUnix(p).replace(/\/$/, '')] *)
Definition normalizePrefix (sep : ascii) (p : string) : string :=
  Str.stripTrailing Str.slash (toUnix sep p).

(** The test of line 60. *)
Definition dirMatches (relativeDir normalizedPrefix : string) : bool :=
  String.eqb relativeDir normalizedPrefix
  || Str.startsWith (normalizedPrefix ++ "/") relativeDir.

(** Lines 73 to 80: the namespace a matching entry gives. *)
Definition namespaceOf (relativeDir namespace normalizedPrefix : string) : string :=
  let subPath := Str.drop (String.length normalizedPrefix) relativeDir in
  let subPath := Str.stripLeading Str.slash subPath in
  let subNamespace := Str.join "\" (Str.split Str.slash subPath) in
  namespace ++ subNamespace.

(** The two mutable variables of the search. *)
Record Best : Type := {
  bestMatchNamespace : string;
  bestMatchLength : nat
}.

(** The body of the inner loop, lines 53 to 82. *)
Definition visitPath (sep : ascii) (relativeDir namespace : string)
    (best : Best) (p : string) : Best :=
  let normalizedPrefix := normalizePrefix sep p in
  if dirMatches relativeDir normalizedPrefix then
    if (bestMatchLength best <=? String.length normalizedPrefix)%nat then
      {| bestMatchNamespace := namespaceOf relativeDir namespace normalizedPrefix;
         bestMatchLength := String.length normalizedPrefix |}
    else best
  else best.

(** The body of the outer loop, lines 47 to 84. *)
Definition visitEntry (sep : ascii) (relativeDir : string)
    (best : Best) (entry : string * Paths) : Best :=
  fold_left (visitPath sep relativeDir (fst entry)) (pathArray (snd entry)) best.

Definition findBestMatch (sep : ascii) (relativeDir : string)
    (autoloads : Psr4Table) : Best :=
  fold_left (visitEntry sep relativeDir) autoloads
    {| bestMatchNamespace := EmptyString; bestMatchLength := 0 |}.

(** Lines 26 to 87, run on the parsed composer.json. *)
Definition resolveIn (h : Host) (root filePath : string) (composer : ComposerJson)
  : string :=
  let autoloads :=
    spread (default [] (autoload_psr4 composer))
           (default [] (autoload_dev_psr4 composer)) in
  let relPath := toUnix (path_sep h) (path_relative h root filePath) in
  let relativeDir := toUnix (path_sep h) (path_dirname h relPath) in
  let best := findBestMatch (path_sep h) relativeDir (entries autoloads) in
  Str.stripTrailing Str.backslash (bestMatchNamespace best).

(** [getNamespaceFromPath]; [None] is JavaScript's [null]. *)
Definition getNamespaceFromPath (h : Host) (filePath : string) : option string :=
  match getWorkspaceFolder h filePath with
  | None => None
  | Some root =>
      let composerPath := path_join h root "composer.json" in
      if negb (pathExists h composerPath) then None
      else match readJson h composerPath with
           | Ok composer => Some (resolveIn h root filePath composer)
           | Throw => None
           end
  end.

(** The directory of a file relative to the workspace root, as line 41
    computes it. *)
Definition relativeDirOf (h : Host) (root filePath : string) : string :=
  toUnix (path_sep h)
    (path_dirname h (toUnix (path_sep h) (path_relative h root filePath))).

(** The entries of the merged table of line 28, as the loop of line 47
    goes through them. *)
Definition autoloadsOf (composer : ComposerJson) : Psr4Table :=
  entries (spread (default [] (autoload_psr4 composer))
                  (default [] (autoload_dev_psr4 composer))).

(** The (namespace, normalized directory) pairs in the order the two
    loops visit them. *)
Definition candidates (sep : ascii) (autoloads : Psr4Table)
  : list (string * string) :=
  flat_map (fun entry =>
              map (fun p => (fst entry, normalizePrefix sep p))
                  (pathArray (snd entry)))
           autoloads.

(** A POSIX host with one workspace folder and one composer.json, for
    concrete runs.  [path_relative] and [path_dirname] follow Node on
    the paths used here: files below the root, no [.] or [..] segment. *)
Definition posix_dirname (p : string) : string :=
  match Str.split Str.slash p with
  | [] | [_] => "."
  | segs => Str.join "/" (removelast segs)
  end.

Definition posix_relative (root filePath : string) : string :=
  if Str.startsWith (root ++ "/") filePath
  then Str.drop (S (String.length root)) filePath
  else filePath.

Definition posixHost (root : string) (composer : option (res ComposerJson)) : Host :=
  {| getWorkspaceFolder := fun f =>
       if Str.startsWith (root ++ "/") f then Some root else None;
     path_sep := Str.slash;
     path_join := fun a b => a ++ "/" ++ b;
     path_relative := posix_relative;
     path_dirname := posix_dirname;
     pathExists := fun p =>
       match composer with
       | Some _ => String.eqb p (root ++ "/composer.json")
       | None => false
       end;
     readJson := fun _ => match composer with Some r => r | None => Throw end |}.

(** composer.json of the repository's own test: [{"App\\": "src/"}]. *)
Definition composerApp : ComposerJson :=
  {| autoload_psr4 := Some [("App\", OnePath "src/")];
     autoload_dev_psr4 := None |}.

(** One round of the two loops, on a (namespace, directory) pair. *)
Definition visitCandidate (relativeDir : string) (best : Best)
    (c : string * string) : Best :=
  if dirMatches relativeDir c.2 then
    if (bestMatchLength best <=? String.length c.2)%nat then
      {| bestMatchNamespace := namespaceOf relativeDir c.1 c.2;
         bestMatchLength := String.length c.2 |}
    else best
  else best.

Definition noMatch : Best :=
  {| bestMatchNamespace := EmptyString; bestMatchLength := 0 |}.

(** What the search holds after a list of candidates: nothing when none
    matched; otherwise the last of the longest matching ones. *)
Definition chosen (relativeDir : string) (cs : list (string * string))
    (best : Best) : Prop :=
  (Forall (fun c => dirMatches relativeDir c.2 = false) cs /\ best = noMatch)
  \/ exists before c after,
       cs = (before ++ c :: after)%list
       /\ dirMatches relativeDir c.2 = true
       /\ best = {| bestMatchNamespace := namespaceOf relativeDir c.1 c.2;
                    bestMatchLength := String.length c.2 |}
       /\ Forall (fun c' => dirMatches relativeDir c'.2 = true ->
                            (String.length c'.2 <= String.length c.2)%nat) before
       /\ Forall (fun c' => dirMatches relativeDir c'.2 = true ->
                            (String.length c'.2 < String.length c.2)%nat) after.

(** A composer.json with a nested prefix in [autoload-dev]. *)
Definition composerNested : ComposerJson :=
  {| autoload_psr4 := Some [("App\", OnePath "src/")];
     autoload_dev_psr4 :=
       Some [("App\Domain\", ManyPaths ["src/Domain"; "lib/Domain/"])] |}.

(** A composer.json in which the longer namespace prefix has the
    shorter directory. *)
Definition composerTests : ComposerJson :=
  {| autoload_psr4 := Some [("Vendor\Package\", OnePath "src")];
     autoload_dev_psr4 := Some [("T\", OnePath "src/tests")] |}.

(** A composer.json with a namespace prefix that is an array index: the
    text has it last, the loop meets it first. *)
Definition composerNumbered : ComposerJson :=
  {| autoload_psr4 := Some [("B", OnePath "src"); ("1", OnePath "src")];
     autoload_dev_psr4 := None |}.

Definition nestedHost : Host := posixHost "/ws" (Some (Ok composerNested)).
Definition testsHost : Host := posixHost "/ws" (Some (Ok composerTests)).
Definition numberedHost : Host := posixHost "/ws" (Some (Ok composerNumbered)).
Definition appHost : Host := posixHost "/ws" (Some (Ok composerApp)).
Definition bareHost : Host := posixHost "/ws" None.

End Psr4.

(** ** The editor's value types *)

Module Vscode.

Record Position : Type := { line : Z; character : Z }.

(** [new vscode.Position(l, c)] rejects a negative argument. *)
Definition newPosition (l c : Z) : res Position :=
  if (l <? 0) || (c <? 0) then Throw
  else Ok {| line := l; character := c |}.

Definition isBefore (p q : Position) : bool :=
  (line p <? line q) || ((line p =? line q) && (character p <? character q)).

Record Range : Type := { start : Position; stop : Position }.

(** [new vscode.Range(a, b)] orders its two ends. *)
Definition newRange (a b : Position) : Range :=
  if isBefore a b then {| start := a; stop := b |}
  else {| start := b; stop := a |}.

Record TextEdit : Type := { range : Range; newText : string }.

Definition replace (r : Range) (t : string) : TextEdit :=
  {| range := r; newText := t |}.
Definition insert (p : Position) (t : string) : TextEdit :=
  {| range := newRange p p; newText := t |}.
Definition delete (r : Range) : TextEdit :=
  {| range := r; newText := EmptyString |}.

(** Two ranges overlap when they share more than an end point. *)
Definition overlap (a b : Range) : bool :=
  isBefore (start a) (stop b) && isBefore (start b) (stop a).

(** The calls made on a [WorkspaceEdit], in order. *)
Inductive EditCall : Type :=
| CallReplace (uri : string) (r : Range) (t : string)
| CallSet (uri : string) (edits : list TextEdit).

Definition WorkspaceEdit : Type := list EditCall.

(** The text edits a call hands to the editor for [uri]. *)
Definition editsOfCall (uri : string) (c : EditCall) : list TextEdit :=
  match c with
  | CallReplace u r t => if String.eqb u uri then [replace r t] else []
  | CallSet u es => if String.eqb u uri then es else []
  end.

(** A file of the workspace: the text the editor or the disk gives for
    it and what the parser returns on that text; either may throw. *)
Record SourceFile : Type := {
  fsPath : string;
  content : res string;
  parsed : res js
}.

(** [document.offsetAt(position)] on the text of a document. *)
Fixpoint offsetOfLine (lines : list string) (l : nat) (character : Z) : Z :=
  match lines, l with
  | [], _ => 0
  | first :: _, O => Z.min character (Str.len first)
  | first :: rest, S l' => Str.len first + 1 + offsetOfLine rest l' character
  end.

Definition offsetAt (text : string) (p : Position) : Z :=
  offsetOfLine (Str.split "010"%char text) (Z.to_nat (line p)) (character p).

End Vscode.

(** ** Reads of parser nodes shared by the sources *)

Module Node.
Import Js.

(** [String(v)], as template literals and [join] apply it. *)
Fixpoint toStr (v : js) : string :=
  match v with
  | JUndef => "undefined"
  | JNull => "null"
  | JBool true => "true"
  | JBool false => "false"
  | JNum z => pretty z
  | JStr s => s
  | JArr l =>
      (fix go (l : list js) : string :=
         match l with
         | [] => EmptyString
         | x :: r =>
             match x with JUndef | JNull => EmptyString | _ => toStr x end
             ++ match r with [] => EmptyString | _ => "," ++ go r end
         end) l
  | JObj _ => "[object Object]"
  end.

(** An element of an array under [join]. *)
Definition elt (v : js) : string :=
  match v with
  | JUndef | JNull => EmptyString
  | _ => toStr v
  end.

(** [parts.join(sep)] on an array of values. *)
Definition joinArr (sep : string) (l : list js) : string :=
  Str.join sep (map elt l).

(** [node.kind === k]; a TypeError when [node] is [null] or [undefined]. *)
Definition kindIs (node : js) (k : string) : res bool :=
  v ← prop "kind" node; mret (eqStr v k).

(** The range of a [loc]:
    [new Range(new Position(loc.start.line - 1, loc.start.column),
               new Position(loc.end.line - 1, loc.end.column))]. *)
Definition rangeOfLoc (loc : js) : res Vscode.Range :=
  s ← prop "start" loc;
  sl ← prop "line" s ≫= num;
  sc ← prop "column" s ≫= num;
  a ← Vscode.newPosition (sl - 1) sc;
  e ← prop "end" loc;
  el ← prop "line" e ≫= num;
  ec ← prop "column" e ≫= num;
  b ← Vscode.newPosition (el - 1) ec;
  mret (Vscode.newRange a b).

(** [o || d] on strings read from a map. *)
Definition orElse (o : option string) (d : string) : string :=
  match o with
  | Some s => if String.eqb s EmptyString then d else s
  | None => d
  end.

(** [typeof node.name === 'string' ? node.name : node.name.name] *)
Definition nameOf (node : js) : res js :=
  n ← prop "name" node;
  if isString n then mret n else prop "name" n.

End Node.

(** ** refactorPreview.ts *)

Module RefactorPreview.
Import Js Node Vscode.

(** *** findMethodUsages *)

(** The helper [getName]; [None] is [null]. *)
Definition getName (n : js) : option string :=
  if negb (truthy n) then None
  else match n with
       | JStr s => Some s
       | _ =>
           match get "name" n with
           | JStr s => Some s
           | _ =>
               match get "parts" n with
               | JArr l => Some (joinArr "\" l)
               | _ => None
               end
           end
       end.

(** A string result used as a condition: [''] and [null] are falsy. *)
Definition nonEmpty (o : option string) : option string :=
  match o with
  | Some s => if String.eqb s EmptyString then None else Some s
  | None => None
  end.

(** The helper [resolveType]. *)
Definition resolveType (node : js) : option string :=
  if negb (truthy node) then None
  else if eqStr (get "kind" node) "new" && truthy (get "what" node)
       then getName (get "what" node)
       else None.

(** The test of lines 764, 789, 812, 861 and 873. *)
Definition matchesTarget (targetClassFqn resolvedType : string) : bool :=
  Str.endsWith resolvedType targetClassFqn
  || String.eqb resolvedType targetClassFqn
  || Str.endsWith ("\" ++ resolvedType) targetClassFqn.

(** Phase 1: the imports of the file, short name to imported name. *)
Definition collectItem (item : js) : SM (gmap string string) unit :=
  nm ← St.lift (prop "name" item);
  match nonEmpty (getName nm) with
  | Some fqn =>
      let shortName := Str.lastSegment Str.backslash fqn in
      St.when (negb (String.eqb shortName EmptyString))
              (St.modify (fun imports : gmap string string => <[shortName := fqn]> imports))
  | None => mret tt
  end.

Fixpoint collectImportsNode (node : js) {struct node} : SM (gmap string string) unit :=
  match node with
  | JUndef | JNull => St.lift Throw
  | JObj fs =>
      _ ← St.when (eqStr (field "kind" fs) "usegroup" && truthy (field "items" fs))
            (Loop.forOf collectItem (field "items" fs));
      Loop.onField "children" (Loop.nodes collectImportsNode) (mret tt) fs
  | _ => mret tt
  end.

Definition collectImports (nodes : js) : SM (gmap string string) unit :=
  Loop.nodes collectImportsNode nodes.

(** Phase 2: the declared types of the properties of the classes. *)
Definition collectProperty (imports : gmap string string) (member prop : js)
  : SM (gmap string string) unit :=
  match nonEmpty (getName prop) with
  | Some propName =>
      if truthy (get "type" member) then
        match nonEmpty (getName (get "type" member)) with
        | Some typeName =>
            St.modify (fun cp : gmap string string =>
                         <[propName := orElse (imports !! typeName) typeName]> cp)
        | None => mret tt
        end
      else mret tt
  | None => mret tt
  end.

Definition collectMember (imports : gmap string string) (member : js)
  : SM (gmap string string) unit :=
  isProp ← St.lift (kindIs member "propertystatement");
  St.when isProp
    (let props := get "properties" member in
     Loop.forOf (collectProperty imports member)
                (if truthy props then props else JArr [])).

Fixpoint collectClassPropertiesNode (imports : gmap string string) (node : js)
    {struct node} : SM (gmap string string) unit :=
  match node with
  | JUndef | JNull => St.lift Throw
  | JObj fs =>
      _ ← St.when (eqStr (field "kind" fs) "class" && truthy (field "body" fs))
            (Loop.forOf (collectMember imports) (field "body" fs));
      Loop.onField "children" (Loop.nodes (collectClassPropertiesNode imports))
                   (mret tt) fs
  | _ => mret tt
  end.

Definition collectClassProperties (imports : gmap string string) (nodes : js)
  : SM (gmap string string) unit :=
  Loop.nodes (collectClassPropertiesNode imports) nodes.

(** Phase 3.  What the traversal reads, and what it mutates: the scope
    map it was handed and the array of edits. *)
Record Target : Type := {
  imports : gmap string string;
  classProperties : gmap string string;
  targetClassFqn : string;
  oldMethod : string;
  newMethod : string
}.

Record Usages : Type := {
  scope : gmap string string;
  edits : list TextEdit
}.

Definition setVar (x ty : string) : SM Usages unit :=
  St.modify (fun u => {| scope := <[x := ty]> (scope u); edits := edits u |}).

Definition pushEdit (e : TextEdit) : SM Usages unit :=
  St.modify (fun u => {| scope := scope u; edits := (edits u ++ [e])%list |}).

(** Lines 753 to 770: the typed parameters of a function. *)
Definition bindArgument (t : Target) (arg : js) : SM Usages unit :=
  ty ← St.lift (prop "type" arg);
  if truthy ty then
    match nonEmpty (getName ty), nonEmpty (getName (get "name" arg)) with
    | Some typeName, Some varName =>
        let resolvedType := orElse (imports t !! typeName) typeName in
        St.when (matchesTarget (targetClassFqn t) resolvedType)
                (setVar varName (targetClassFqn t))
    | _, _ => mret tt
    end
  else mret tt.

(** Lines 781 to 819: the assignments that give a variable a type. *)
Definition trackAssign (t : Target) (node : js) : SM Usages unit :=
  let left := get "left" node in
  let right := get "right" node in
  if eqStr (get "kind" node) "assign" && truthy left && truthy right
     && eqStr (get "kind" left) "variable" then
    match nonEmpty (getName left) with
    | None => mret tt
    | Some varName =>
        match nonEmpty (resolveType right) with
        | Some type =>
            let resolvedType := orElse (imports t !! type) type in
            St.when (matchesTarget (targetClassFqn t) resolvedType)
                    (setVar varName (targetClassFqn t))
        | None =>
            if eqStr (get "kind" right) "variable" then
              match nonEmpty (getName right) with
              | Some sourceVar =>
                  u ← St.get;
                  match nonEmpty (scope u !! sourceVar) with
                  | Some sourceType => setVar varName sourceType
                  | None => mret tt
                  end
              | None => mret tt
              end
            else if eqStr (get "kind" right) "propertylookup" then
              let what := get "what" right in
              if truthy what && eqStr (get "kind" what) "variable" then
                match getName what, nonEmpty (getName (get "offset" right)) with
                | Some "this", Some propName =>
                    match nonEmpty (classProperties t !! propName) with
                    | Some propType =>
                        St.when (matchesTarget (targetClassFqn t) propType)
                                (setVar varName (targetClassFqn t))
                    | None => mret tt
                    end
                | _, _ => mret tt
                end
              else mret tt
            else mret tt
        end
    end
  else mret tt.

(** Lines 837 to 885: is the receiver of the call the target class? *)
Definition receiverValid (t : Target) (sc : gmap string string) (what : js) : bool :=
  if eqStr (get "kind" what) "variable" then
    match getName what with
    | Some "this" => true
    | Some varName =>
        if String.eqb varName EmptyString then false
        else match sc !! varName with
             | Some type => String.eqb type (targetClassFqn t)
             | None => false
             end
    | None => false
    end
  else if eqStr (get "kind" what) "propertylookup" then
    let inner := get "what" what in
    if truthy inner && eqStr (get "kind" inner) "variable" then
      match getName inner, nonEmpty (getName (get "offset" what)) with
      | Some "this", Some propName =>
          match nonEmpty (classProperties t !! propName) with
          | Some propType => matchesTarget (targetClassFqn t) propType
          | None => false
          end
      | _, _ => false
      end
    else false
  else if eqStr (get "kind" what) "new" then
    match nonEmpty (resolveType what) with
    | Some type =>
        matchesTarget (targetClassFqn t) (orElse (imports t !! type) type)
    | None => false
    end
  else false.

(** Lines 823 to 900: a method call of the old name. *)
Definition checkCall (t : Target) (node : js) : SM Usages unit :=
  let propLookup := get "what" node in
  if eqStr (get "kind" node) "call" && truthy propLookup
     && eqStr (get "kind" propLookup) "propertylookup" then
    match getName (get "offset" propLookup) with
    | Some methodName =>
        if String.eqb methodName (oldMethod t) then
          what ← St.lift (prop "what" propLookup);
          _ ← St.lift (prop "kind" what);
          u ← St.get;
          loc ← St.lift (prop "loc" (get "offset" propLookup));
          if truthy loc then
            if receiverValid t (scope u) what then
              r ← St.lift (rangeOfLoc loc);
              pushEdit (replace r (newMethod t))
            else
              s ← St.lift (prop "start" loc);
              _ ← St.lift (prop "line" s);
              mret tt
          else mret tt
        else mret tt
    | None => mret tt
    end
  else mret tt.

(** The keys that the generic descent of lines 913 to 921 skips. *)
Definition skippedKey (key : string) : bool :=
  String.eqb key "loc" || String.eqb key "kind" || String.eqb key "name"
  || String.eqb key "what" || String.eqb key "type" || String.eqb key "body"
  || String.eqb key "children".

(** Lines 915 to 920, on the value of one key. *)
Definition descend {S} (visit : js -> SM S unit) (val : js) : SM S unit :=
  match val with
  | JArr [] => mret tt
  | JArr (first :: _) =>
      if isObject first then
        k ← St.lift (prop "kind" first);
        if truthy k then Loop.nodes visit val else mret tt
      else mret tt
  | _ =>
      if truthy val && isObject val && truthy (get "kind" val)
      then visit val else mret tt
  end.

Fixpoint traverseNode (t : Target) (node : js) {struct node} : SM Usages unit :=
  match node with
  | JUndef | JNull => St.lift Throw
  | JObj fs =>
      let kind := field "kind" fs in
      if eqStr kind "function" || eqStr kind "method" || eqStr kind "closure" then
        outer ← St.get;
        _ ← St.when (truthy (field "arguments" fs))
              (Loop.forOf (bindArgument t) (field "arguments" fs));
        _ ← Loop.onField "body"
              (fun body =>
                 if isArray body then Loop.nodes (traverseNode t) body
                 else match body with
                      | JObj bfs =>
                          Loop.onField "children" (Loop.nodes (traverseNode t))
                                       (mret tt) bfs
                      | _ => mret tt
                      end)
              (mret tt) fs;
        St.modify (fun u => {| scope := scope outer; edits := edits u |})
      else
        _ ← trackAssign t node;
        _ ← checkCall t node;
        _ ← St.when (eqStr kind "class")
              (Loop.onField "body" (Loop.nodes (traverseNode t)) (mret tt) fs);
        _ ← St.when (eqStr kind "namespace")
              (Loop.onField "children" (Loop.nodes (traverseNode t)) (mret tt) fs);
        Loop.forIn (fun key val =>
                      if skippedKey key then mret tt
                      else descend (traverseNode t) val) fs
  | JArr l => Loop.forEach (descend (traverseNode t)) l
  | _ => mret tt
  end.

Definition traverse (t : Target) (nodes : js) : SM Usages unit :=
  Loop.nodes (traverseNode t) nodes.

(** [findMethodUsages]: the edits, or the exception it ends with. *)
Definition findMethodUsages (ast : js) (targetClassFqn oldMethod newMethod : string)
  : res (list TextEdit) :=
  if negb (truthy ast) || negb (truthy (get "children" ast)) then Ok []
  else
    let children := get "children" ast in
    match collectImports children ∅ with
    | (Throw, _) => Throw
    | (Ok _, imports) =>
        match collectClassProperties imports children ∅ with
        | (Throw, _) => Throw
        | (Ok _, classProperties) =>
            let t := {| imports := imports; classProperties := classProperties;
                        targetClassFqn := targetClassFqn;
                        oldMethod := oldMethod; newMethod := newMethod |} in
            match traverse t children {| scope := ∅; edits := [] |} with
            | (Throw, _) => Throw
            | (Ok _, u) => Ok (edits u)
            end
        end
    end.

(** *** createMethodRenameEdit *)

Definition isTypeKind (kind : js) : bool :=
  eqStr kind "class" || eqStr kind "interface" || eqStr kind "trait".

(** [getClassNameFromFile]; [JNull] is [null]. *)
Definition getClassNameFromFile (ast : js) : res js :=
  if negb (truthy ast) || negb (truthy (get "children" ast)) then Ok JNull
  else
    nodes ← Loop.elements (get "children" ast);
    found ← Loop.firstOf (fun node =>
               kind ← prop "kind" node;
               if eqStr kind "namespace" && truthy (get "children" node) then
                 children ← Loop.elements (get "children" node);
                 Loop.firstOf (fun child =>
                     k ← prop "kind" child;
                     if isTypeKind k then Some <$> nameOf child else Ok None)
                   children
               else if isTypeKind kind then Some <$> nameOf node
               else Ok None) nodes;
    mret (default JNull found).

(** [getNamespaceFromAst] *)
Definition getNamespaceFromAst (ast : js) : res js :=
  if negb (truthy ast) || negb (truthy (get "children" ast)) then Ok JNull
  else
    nodes ← Loop.elements (get "children" ast);
    found ← Loop.firstOf (fun node =>
               kind ← prop "kind" node;
               if eqStr kind "namespace" then
                 n ← prop "name" node;
                 if isString n then Ok (Some n)
                 else inner ← prop "name" n;
                      Ok (Some (if truthy inner then inner else n))
               else Ok None) nodes;
    mret (default JNull found).

(** Lines 604 to 619: every method definition of the old name in the
    file of the cursor is renamed. *)
Fixpoint updateDefNode (uri oldName newName : string) (node : js) {struct node}
  : SM WorkspaceEdit unit :=
  match node with
  | JUndef | JNull => St.lift Throw
  | JObj fs =>
      _ ← (if eqStr (field "kind" fs) "method" then
             nameName ← St.lift (prop "name" (field "name" fs));
             if eqStr nameName oldName then
               let loc := get "loc" (field "name" fs) in
               if truthy loc then
                 r ← St.lift (rangeOfLoc loc);
                 St.modify (fun e : WorkspaceEdit => (e ++ [CallReplace uri r newName])%list)
               else mret tt
             else mret tt
           else mret tt);
      _ ← Loop.onField "children"
            (fun v => if truthy v
                      then Loop.forNodes (updateDefNode uri oldName newName) v
                      else mret tt)
            (mret tt) fs;
      Loop.onField "body"
        (fun v => if isArray v
                  then Loop.forNodes (updateDefNode uri oldName newName) v
                  else mret tt)
        (mret tt) fs
  | _ => mret tt
  end.

Definition updateDefTraverse (uri oldName newName : string) (nodes : js)
  : SM WorkspaceEdit unit :=
  Loop.forNodes (updateDefNode uri oldName newName) nodes.

(** Lines 626 to 635: the files whose text holds [->oldName] or
    [::oldName]. *)
Definition mentions (oldName : string) (file : SourceFile) : bool :=
  match content file with
  | Ok txt => Str.includes ("->" ++ oldName) txt || Str.includes ("::" ++ oldName) txt
  | Throw => false
  end.

Definition filesToScan (oldName : string) (phpFiles : list SourceFile)
  : list SourceFile :=
  List.filter (fun f => mentions oldName f) phpFiles.

(** Lines 638 to 653: the type-aware analysis of each file to scan. *)
Definition scanFile (fullClassName oldName newName : string)
    (edit : WorkspaceEdit) (file : SourceFile) : WorkspaceEdit :=
  match (_ ← content file;
         fileAst ← parsed file;
         findMethodUsages fileAst fullClassName oldName newName) with
  | Ok (e :: es) => (edit ++ [CallSet (fsPath file) (e :: es)])%list
  | Ok [] => edit
  | Throw => edit
  end.

Definition scanFiles (fullClassName oldName newName : string)
    (edit : WorkspaceEdit) (files : list SourceFile) : WorkspaceEdit :=
  fold_left (scanFile fullClassName oldName newName) files edit.

(** Lines 583 to 620: the target class and the edits of the definition.
    The class name that the sources type as a string is one here: a
    parser name of another type is answered by an exception. *)
Definition renameTarget (file : SourceFile) (oldName newName : string)
  : res (option (string * WorkspaceEdit)) :=
  _ ← content file;
  ast ← parsed file;
  className ← getClassNameFromFile ast;
  namespace ← getNamespaceFromAst ast;
  if negb (truthy className) then Ok None
  else
    cls ← str className;
    let fullClassName :=
      if truthy namespace then toStr namespace ++ "\" ++ cls else cls in
    children ← prop "children" ast;
    match (if truthy children
           then updateDefTraverse (fsPath file) oldName newName children []
           else (Ok tt, [])) with
    | (Ok _, edit) => Ok (Some (fullClassName, edit))
    | (Throw, _) => Throw
    end.

(** [createMethodRenameEdit]; [Ok None] is the [null] it returns when
    the file has no class. *)
Definition createMethodRenameEdit (file : SourceFile) (oldName newName : string)
    (phpFiles : list SourceFile) : res (option WorkspaceEdit) :=
  target ← renameTarget file oldName newName;
  match target with
  | None => Ok None
  | Some (fullClassName, edit) =>
      Ok (Some (scanFiles fullClassName oldName newName edit
                          (filesToScan oldName phpFiles)))
  end.

(** *** findAndUpdateImports *)

(** The locals of the function. *)
Record Imports : Type := {
  importEdits : list TextEdit;
  currentFileNamespace : js;
  hasExistingImport : bool;
  lastUseStatementEnd : option Position;
  namespaceEnd : option Position;
  shouldRenameUsages : bool;
  usageFound : bool
}.

Definition noImports : Imports :=
  {| importEdits := []; currentFileNamespace := JNull; hasExistingImport := false;
     lastUseStatementEnd := None; namespaceEnd := None;
     shouldRenameUsages := false; usageFound := false |}.

Definition pushImportEdit (e : TextEdit) : SM Imports unit :=
  St.modify (fun s =>
    {| importEdits := (importEdits s ++ [e])%list;
       currentFileNamespace := currentFileNamespace s;
       hasExistingImport := hasExistingImport s;
       lastUseStatementEnd := lastUseStatementEnd s;
       namespaceEnd := namespaceEnd s;
       shouldRenameUsages := shouldRenameUsages s;
       usageFound := usageFound s |}).

Definition setFileNamespace (n : js) : SM Imports unit :=
  St.modify (fun s =>
    {| importEdits := importEdits s; currentFileNamespace := n;
       hasExistingImport := hasExistingImport s;
       lastUseStatementEnd := lastUseStatementEnd s;
       namespaceEnd := namespaceEnd s;
       shouldRenameUsages := shouldRenameUsages s;
       usageFound := usageFound s |}).

Definition setHasExistingImport : SM Imports unit :=
  St.modify (fun s =>
    {| importEdits := importEdits s;
       currentFileNamespace := currentFileNamespace s;
       hasExistingImport := true;
       lastUseStatementEnd := lastUseStatementEnd s;
       namespaceEnd := namespaceEnd s;
       shouldRenameUsages := shouldRenameUsages s;
       usageFound := usageFound s |}).

Definition setLastUseStatementEnd (p : Position) : SM Imports unit :=
  St.modify (fun s =>
    {| importEdits := importEdits s;
       currentFileNamespace := currentFileNamespace s;
       hasExistingImport := hasExistingImport s;
       lastUseStatementEnd := Some p;
       namespaceEnd := namespaceEnd s;
       shouldRenameUsages := shouldRenameUsages s;
       usageFound := usageFound s |}).

Definition setNamespaceEnd (p : Position) : SM Imports unit :=
  St.modify (fun s =>
    {| importEdits := importEdits s;
       currentFileNamespace := currentFileNamespace s;
       hasExistingImport := hasExistingImport s;
       lastUseStatementEnd := lastUseStatementEnd s;
       namespaceEnd := Some p;
       shouldRenameUsages := shouldRenameUsages s;
       usageFound := usageFound s |}).

Definition setShouldRenameUsages : SM Imports unit :=
  St.modify (fun s =>
    {| importEdits := importEdits s;
       currentFileNamespace := currentFileNamespace s;
       hasExistingImport := hasExistingImport s;
       lastUseStatementEnd := lastUseStatementEnd s;
       namespaceEnd := namespaceEnd s;
       shouldRenameUsages := true;
       usageFound := usageFound s |}).

Definition setUsageFound : SM Imports unit :=
  St.modify (fun s =>
    {| importEdits := importEdits s;
       currentFileNamespace := currentFileNamespace s;
       hasExistingImport := hasExistingImport s;
       lastUseStatementEnd := lastUseStatementEnd s;
       namespaceEnd := namespaceEnd s;
       shouldRenameUsages := shouldRenameUsages s;
       usageFound := true |}).

(** What the function is called with. *)
Record Move : Type := {
  oldFqn : string;
  newFqn : string;
  oldNs : option string;
  newNs : option string
}.

(** [oldFqn.split('\\').pop()] *)
Definition simpleName (fqn : string) : string :=
  Str.lastSegment Str.backslash fqn.

(** Lines 317 to 322: the line after the first line, from [startLine]
    on, that holds a semicolon.  [lines[i]] is [undefined] for a
    negative [i]. *)
Fixpoint semicolonLine (lines : list string) (i : Z) : option Z :=
  match lines with
  | [] => None
  | l :: rest =>
      if Str.includes ";" l then Some (i + 1) else semicolonLine rest (i + 1)
  end.

Definition findNamespaceEnd (content : string) (startLine : Z) : res (option Z) :=
  let lines := Str.split "010"%char content in
  if startLine <? 0 then
    (if 0 <? Z.of_nat (length lines) then Throw else Ok None)
  else Ok (semicolonLine (skipn (Z.to_nat startLine) lines) startLine).

(** Does a use item name the class that moves?  Lines 332 and 433. *)
Definition namesMovedClass (mv : Move) (useName : js) : res bool :=
  if eqStr useName (oldFqn mv) then Ok true
  else
    s ← str useName;
    Ok (Str.endsWith ("\" ++ simpleName (oldFqn mv)) s).

(** [loc.p.line] for [p] one of [start] and [end]. *)
Definition lineOf (p : string) (loc : js) : res Z :=
  q ← prop p loc;
  l ← prop "line" q;
  num l.

Definition analyzeNamespace (content : string) (node : js) : SM Imports unit :=
  _ ← setFileNamespace (get "name" node);
  let loc := get "loc" node in
  if truthy loc then
    line ← St.lift (lineOf "start" loc);
    p ← St.lift (newPosition line 0);
    _ ← setNamespaceEnd p;
    found ← St.lift (findNamespaceEnd content (line - 1));
    match found with
    | Some l => q ← St.lift (newPosition l 0); setNamespaceEnd q
    | None => mret tt
    end
  else mret tt.

Definition analyzeUseItem (mv : Move) (item : js) : SM Imports unit :=
  useName ← St.lift (nameOf item);
  hit ← St.lift (if String.eqb (oldFqn mv) EmptyString
                 then Ok (eqStr useName (oldFqn mv))
                 else namesMovedClass mv useName);
  St.when hit setHasExistingImport.

Definition analyzeUseGroup (mv : Move) (node : js) : SM Imports unit :=
  let loc := get "loc" node in
  _ ← (if truthy loc then
         line ← St.lift (lineOf "end" loc);
         p ← St.lift (newPosition line 0);
         setLastUseStatementEnd p
       else mret tt);
  Loop.forOf (analyzeUseItem mv) (get "items" node).

(** Lines 309 to 337: the first pass, over the top-level nodes only. *)
Definition analyzeNode (content : string) (mv : Move) (node : js) : SM Imports unit :=
  kind ← St.lift (prop "kind" node);
  _ ← St.when (eqStr kind "namespace") (analyzeNamespace content node);
  St.when (eqStr kind "usegroup" && truthy (get "items" node))
          (analyzeUseGroup mv node).

Definition isFunctionKind (kind : js) : bool :=
  eqStr kind "method" || eqStr kind "function".

(** Lines 353 to 379: does this node use the short name of the class? *)
Definition usesName (simpleClassName : string) (node : js) : SM Imports unit :=
  kind ← St.lift (prop "kind" node);
  _ ← St.when (eqStr kind "new" && truthy (get "what" node)
               && eqStr (get "name" (get "what" node)) simpleClassName)
        setUsageFound;
  _ ← St.when (isFunctionKind kind && truthy (get "arguments" node))
        (Loop.forOf (fun arg =>
             ty ← St.lift (prop "type" arg);
             St.when (truthy ty && eqStr (get "name" ty) simpleClassName)
                     setUsageFound)
           (get "arguments" node));
  _ ← St.when (isFunctionKind kind && truthy (get "type" node)
               && eqStr (get "name" (get "type" node)) simpleClassName)
        setUsageFound;
  _ ← St.when (eqStr kind "class")
        (_ ← St.when (truthy (get "extends" node)
                      && eqStr (get "name" (get "extends" node)) simpleClassName)
               setUsageFound;
         St.when (truthy (get "implements" node))
           (Loop.forOf (fun imp =>
                n ← St.lift (prop "name" imp);
                St.when (eqStr n simpleClassName) setUsageFound)
              (get "implements" node)));
  St.when (eqStr kind "staticlookup" && truthy (get "what" node)
           && eqStr (get "name" (get "what" node)) simpleClassName)
    setUsageFound.

(** [if (!nodes || usageFound) return; for (const node of nodes) ...] *)
Definition checkNodes (visit : js -> SM Imports bool) (nodes : js) : SM Imports unit :=
  s ← St.get;
  if negb (truthy nodes) || usageFound s then mret tt
  else Loop.forNodesUntil visit nodes.

(** Lines 348 to 391.  The answer is [true] when the loop of the caller
    has to stop: a usage was found. *)
Fixpoint checkUsageNode (simpleClassName : string) (node : js) {struct node}
  : SM Imports bool :=
  match node with
  | JUndef | JNull => St.lift Throw
  | JObj fs =>
      _ ← usesName simpleClassName node;
      s ← St.get;
      if usageFound s then mret true
      else
        _ ← Loop.onField "children"
              (fun v => if truthy v
                        then checkNodes (checkUsageNode simpleClassName) v
                        else mret tt)
              (mret tt) fs;
        _ ← Loop.onField "body"
              (fun body =>
                 if isArray body
                 then checkNodes (checkUsageNode simpleClassName) body
                 else match body with
                      | JObj bfs =>
                          Loop.onField "children"
                            (checkNodes (checkUsageNode simpleClassName))
                            (mret tt) bfs
                      | _ => mret tt
                      end)
              (mret tt) fs;
        _ ← Loop.onField "arguments"
              (fun v => if truthy v
                        then checkNodes (checkUsageNode simpleClassName) v
                        else mret tt)
              (mret tt) fs;
        mret false
  | _ => mret false
  end.

Definition checkUsage (simpleClassName : string) (nodes : js) : SM Imports unit :=
  checkNodes (checkUsageNode simpleClassName) nodes.

(** Lines 397 to 419: the import of the new name is inserted. *)
Definition insertImport (mv : Move) : SM Imports unit :=
  _ ← setShouldRenameUsages;
  s ← St.get;
  let importStr := "use " ++ newFqn mv ++ ";" ++ String "010"%char EmptyString in
  p ← match lastUseStatementEnd s, namespaceEnd s with
      | Some p, _ => mret p
      | None, Some p => mret p
      | None, None => St.lift (newPosition 1 0)
      end;
  pushImportEdit (insert p importStr).

(** [newFqn.substring(0, newFqn.lastIndexOf('\\'))] *)
Definition namespaceOfFqn (fqn : string) : string :=
  Str.substring 0 (Str.lastIndexOf Str.backslash fqn) fqn.

(** [node.items.length === 1] *)
Definition hasOneItem (items : js) : bool :=
  match items with
  | JArr [_] => true
  | JStr (String _ EmptyString) => true
  | _ => false
  end.

(** Lines 429 to 459: an import of the class is rewritten, or removed
    with its line when the class moves into the namespace of the file. *)
Definition updateUseItem (mv : Move) (node item : js) : SM Imports unit :=
  useName ← St.lift (prop "name" item);
  useNameStr ← St.lift (if isString useName then Ok useName else prop "name" useName);
  hit ← St.lift (namesMovedClass mv useNameStr);
  if (hit : bool) then
    _ ← setShouldRenameUsages;
    if truthy (get "loc" item) then
      s ← St.get;
      if eqStr (currentFileNamespace s) (namespaceOfFqn (newFqn mv))
         && hasOneItem (get "items" node) then
        sl ← St.lift (lineOf "start" (get "loc" node));
        a ← St.lift (newPosition (sl - 1) 0);
        el ← St.lift (lineOf "end" (get "loc" node));
        b ← St.lift (newPosition el 0);
        pushImportEdit (delete (newRange a b))
      else
        r ← St.lift (rangeOfLoc (get "loc" item));
        pushImportEdit (replace r (newFqn mv))
    else mret tt
  else mret tt.

(** Lines 423 to 468. *)
Fixpoint updateUsesNode (mv : Move) (node : js) {struct node} : SM Imports unit :=
  match node with
  | JUndef | JNull => St.lift Throw
  | JObj fs =>
      _ ← St.when (eqStr (field "kind" fs) "usegroup" && truthy (field "items" fs))
            (Loop.forOf (updateUseItem mv node) (field "items" fs));
      _ ← Loop.onField "children" (Loop.nodes (updateUsesNode mv)) (mret tt) fs;
      Loop.onField "body"
        (fun body =>
           if isArray body then Loop.nodes (updateUsesNode mv) body
           else match body with
                | JObj bfs =>
                    Loop.onField "children" (Loop.nodes (updateUsesNode mv))
                                 (mret tt) bfs
                | _ => mret tt
                end)
        (mret tt) fs
  | _ => mret tt
  end.

(** A replacement of the node [n] by [text] when the node has a
    location. *)
Definition replaceNode (n : js) (text : string) : SM Imports unit :=
  if truthy (get "loc" n) then
    r ← St.lift (rangeOfLoc (get "loc" n));
    pushImportEdit (replace r text)
  else mret tt.

(** Lines 484 to 530: the usages of the old short name at this node. *)
Definition renameHere (simpleOldName simpleNewName : string) (node : js)
  : SM Imports unit :=
  kind ← St.lift (prop "kind" node);
  let what := get "what" node in
  _ ← St.when (eqStr kind "new" && truthy what
               && eqStr (get "name" what) simpleOldName)
        (replaceNode what simpleNewName);
  _ ← St.when (isFunctionKind kind && truthy (get "arguments" node))
        (Loop.forOf (fun arg =>
             ty ← St.lift (prop "type" arg);
             St.when (truthy ty && eqStr (get "name" ty) simpleOldName)
                     (replaceNode ty simpleNewName))
           (get "arguments" node));
  _ ← St.when (isFunctionKind kind && truthy (get "type" node)
               && eqStr (get "name" (get "type" node)) simpleOldName)
        (replaceNode (get "type" node) simpleNewName);
  St.when (eqStr kind "staticlookup" && truthy what
           && eqStr (get "name" what) simpleOldName)
    (replaceNode what simpleNewName).

(** The keys that the descent of lines 534 to 550 skips. *)
Definition skippedInRename (key : string) : bool :=
  String.eqb key "loc" || String.eqb key "kind" || String.eqb key "name"
  || String.eqb key "what" || String.eqb key "type".

(** Lines 541 to 549, on the value of one key. *)
Definition descendInto {S} (visit : js -> SM S unit) (val : js) : SM S unit :=
  match val with
  | JArr (JObj first :: _) =>
      if hasField "kind" first then Loop.nodes visit val else mret tt
  | JObj fs => if hasField "kind" fs then visit val else mret tt
  | _ => mret tt
  end.

(** Lines 481 to 552. *)
Fixpoint renameUsagesNode (simpleOldName simpleNewName : string) (node : js)
    {struct node} : SM Imports unit :=
  match node with
  | JUndef | JNull => St.lift Throw
  | JObj fs =>
      _ ← renameHere simpleOldName simpleNewName node;
      Loop.forIn (fun key val =>
                    if skippedInRename key then mret tt
                    else descendInto (renameUsagesNode simpleOldName simpleNewName) val)
                 fs
  | JArr l =>
      Loop.forEach (descendInto (renameUsagesNode simpleOldName simpleNewName)) l
  | _ => mret tt
  end.

Definition renameUsagesTraverse (simpleOldName simpleNewName : string) (nodes : js)
  : SM Imports unit :=
  Loop.nodes (renameUsagesNode simpleOldName simpleNewName) nodes.

(** The three passes of [findAndUpdateImports]. *)
Definition updateImports (ast : js) (content : string) (mv : Move) : SM Imports unit :=
  let children := get "children" ast in
  let hasChildren := truthy ast && truthy children in
  _ ← St.when hasChildren (Loop.forOf (analyzeNode content mv) children);
  let simpleClassName := simpleName (oldFqn mv) in
  s ← St.get;
  _ ← St.when (eqOpt (currentFileNamespace s) (oldNs mv)
               && negb (hasExistingImport s)
               && negb (String.eqb simpleClassName EmptyString))
        (_ ← St.when hasChildren (checkUsage simpleClassName children);
         s' ← St.get;
         St.when (usageFound s') (insertImport mv));
  _ ← St.when hasChildren (Loop.nodes (updateUsesNode mv) children);
  let simpleOldName := simpleName (oldFqn mv) in
  let simpleNewName := simpleName (newFqn mv) in
  s ← St.get;
  St.when (shouldRenameUsages s
           && negb (String.eqb simpleOldName EmptyString)
           && negb (String.eqb simpleNewName EmptyString)
           && negb (String.eqb simpleOldName simpleNewName))
    (St.when hasChildren (renameUsagesTraverse simpleOldName simpleNewName children)).

(** [findAndUpdateImports]; [Ok None] is the [null] of a file with no
    edit. *)
Definition findAndUpdateImports (ast : js) (content : string) (mv : Move)
  : res (option (list TextEdit)) :=
  match updateImports ast content mv noImports with
  | (Throw, _) => Throw
  | (Ok _, s) =>
      match importEdits s with
      | [] => Ok None
      | edits => Ok (Some edits)
      end
  end.

(** [updateImportsInOtherFiles], lines 271 to 287: the other files of
    the workspace, each behind its own [try]. *)
Definition updateImportsInFile (mv : Move) (movedFile : string)
    (edit : WorkspaceEdit) (file : SourceFile) : WorkspaceEdit :=
  if String.eqb (fsPath file) movedFile then edit
  else match (text ← content file;
              ast ← parsed file;
              findAndUpdateImports ast text mv) with
       | Ok (Some (e :: es)) => (edit ++ [CallSet (fsPath file) (e :: es)])%list
       | _ => edit
       end.

Definition updateImportsInOtherFiles (mv : Move) (movedFile : string)
    (edit : WorkspaceEdit) (phpFiles : list SourceFile) : WorkspaceEdit :=
  fold_left (updateImportsInFile mv movedFile) phpFiles edit.

(** The reference of the specification for the pre-filter: the same
    rename with the type-aware analysis run on every source file. *)
Definition renameOnEveryFile (file : SourceFile) (oldName newName : string)
    (phpFiles : list SourceFile) : res (option WorkspaceEdit) :=
  target ← renameTarget file oldName newName;
  match target with
  | None => Ok None
  | Some (fullClassName, edit) =>
      Ok (Some (scanFiles fullClassName oldName newName edit phpFiles))
  end.

(** The calls that the analysis of one file adds to the workspace edit. *)
Definition callsOf (fullClassName oldName newName : string) (file : SourceFile)
  : list EditCall :=
  scanFile fullClassName oldName newName [] file.

(** Does the analysis accept a call site of the file, for the target that
    the file of the cursor gives? *)
Definition acceptsCall (cursorFile : SourceFile) (oldName newName : string)
    (file : SourceFile) : bool :=
  match renameTarget cursorFile oldName newName with
  | Ok (Some (fullClassName, _)) =>
      match callsOf fullClassName oldName newName file with
      | [] => false
      | _ => true
      end
  | _ => false
  end.

End RefactorPreview.



(** ** indexer.ts: the symbol index

    The four maps of the class are finite maps: what the sources read of
    them, by key or by looking at every entry, does not depend on the
    order of insertion except for the order of the answers of
    [getImplementations].  A tree name that the sources use as a map key
    or as part of a qualified name has to be a string: anything else is
    answered by an exception. *)

Module Indexer.
Import Js Node.

Record Uri : Type := { toString : string; fsPath : string }.

Record SymbolDef : Type := {
  name : string;
  path : string;
  kind : string;
  range : option Vscode.Range;
  parent : option string;
  fqn : option string
}.

(** [extends] and [implements] hold what the tree holds: the sources
    store these names without looking at their type. *)
Record InheritanceInfo : Type := {
  className : string;
  extends : js;
  implements : list js
}.

Record Index : Type := {
  index : gmap string (gset string);
  definitions : gmap string (list SymbolDef);
  methods : gmap string (list SymbolDef);
  inheritance : gmap string InheritanceInfo;
  files : gset string;
  isIndexing : bool
}.

Definition empty : Index :=
  {| index := ∅; definitions := ∅; methods := ∅; inheritance := ∅;
     files := ∅; isIndexing := false |}.

Definition getCandidates (ix : Index) (symbol : string) : list string :=
  match index ix !! symbol with
  | Some files => elements files
  | None => []
  end.

Definition getDefinitions (ix : Index) (n : string) : list SymbolDef :=
  default [] (definitions ix !! n).

Definition getMethodDefinitions (ix : Index) (qualifiedName : string)
  : list SymbolDef :=
  default [] (methods ix !! qualifiedName).

(** [info.implements.includes(interfaceName)] *)
Definition includes (l : list js) (s : string) : bool :=
  existsb (fun v => eqStr v s) l.

Definition getImplementations (ix : Index) (interfaceName : string) : list string :=
  map fst (List.filter (fun kv => includes (implements (snd kv)) interfaceName)
                       (map_to_list (inheritance ix))).

(** [defs.filter(d => d.path !== uri.fsPath)], stored only when an entry
    went away. *)
Definition dropPath (fsPath : string) (defs : list SymbolDef) : list SymbolDef :=
  let filtered := List.filter (fun d => negb (String.eqb (path d) fsPath)) defs in
  if (length filtered <? length defs)%nat then filtered else defs.

(** The test of lines 240 and 241 on one class of the inheritance map. *)
Definition definedOnlyIn (defs : gmap string (list SymbolDef)) (fsPath : string)
    (className : string) : bool :=
  match defs !! className with
  | Some classDefs => forallb (fun d => String.eqb (path d) fsPath) classDefs
  | None => false
  end.

Definition removeFile (uri : Uri) (ix : Index) : Index :=
  let definitions' := dropPath (fsPath uri) <$> definitions ix in
  {| files := files ix ∖ {[toString uri]};
     index := (fun files : gset string => files ∖ {[toString uri]}) <$> index ix;
     definitions := definitions';
     methods := dropPath (fsPath uri) <$> methods ix;
     inheritance :=
       filter (fun kv => definedOnlyIn definitions' (fsPath uri) kv.1 = false)
              (inheritance ix);
     isIndexing := isIndexing ix |}.

(** The locals of [updateIndexForFile] next to the index itself. *)
Record Scan : Type := {
  ix : Index;
  currentNamespace : js;
  symbolsFound : gset string
}.

Definition onIndex (f : Index -> Index) : SM Scan unit :=
  St.modify (fun s => {| ix := f (ix s); currentNamespace := currentNamespace s;
                         symbolsFound := symbolsFound s |}).

Definition addSymbol (sym : string) : SM Scan unit :=
  St.modify (fun s => {| ix := ix s; currentNamespace := currentNamespace s;
                         symbolsFound := {[sym]} ∪ symbolsFound s |}).

Definition setNamespace (n : js) : SM Scan unit :=
  St.modify (fun s => {| ix := ix s; currentNamespace := n;
                         symbolsFound := symbolsFound s |}).

Definition getNamespace : SM Scan js :=
  fun s => (Ok (currentNamespace s), s).

(** [defs = map.get(key) || []; defs.push(def); map.set(key, defs)] *)
Definition pushDef (key : string) (def : SymbolDef)
    (m : gmap string (list SymbolDef)) : gmap string (list SymbolDef) :=
  <[key := (default [] (m !! key) ++ [def])%list]> m.

Definition addDefinition (key : string) (def : SymbolDef) (i : Index) : Index :=
  {| index := index i; definitions := pushDef key def (definitions i);
     methods := methods i; inheritance := inheritance i; files := files i;
     isIndexing := isIndexing i |}.

Definition addMethod (key : string) (def : SymbolDef) (i : Index) : Index :=
  {| index := index i; definitions := definitions i;
     methods := pushDef key def (methods i); inheritance := inheritance i;
     files := files i; isIndexing := isIndexing i |}.

Definition setInheritance (key : string) (info : InheritanceInfo) (i : Index) : Index :=
  {| index := index i; definitions := definitions i; methods := methods i;
     inheritance := <[key := info]> (inheritance i); files := files i;
     isIndexing := isIndexing i |}.

(** The optional range of a node that has a [loc]. *)
Definition rangeOf (node : js) : res (option Vscode.Range) :=
  let loc := get "loc" node in
  if truthy loc then Some <$> rangeOfLoc loc else Ok None.

(** Lines 309 to 314; [JUndef] when the class extends nothing. *)
Definition extendsOf (node : js) : res js :=
  let ext := get "extends" node in
  if truthy ext then
    if isString ext then Ok ext
    else
      let n := get "name" ext in
      if truthy n then Ok n
      else if isString n then Ok n
      else prop "name" n
  else Ok JUndef.

(** Lines 316 to 323. *)
Definition implementsOf (node : js) : res (list js) :=
  match get "implements" node with
  | JArr impls =>
      (fix go (l : list js) : res (list js) :=
         match l with
         | [] => Ok []
         | impl :: r =>
             implName ← (if isString impl then Ok impl else prop "name" impl);
             more ← go r;
             Ok (if truthy implName then implName :: more else more)
         end) impls
  | _ => Ok []
  end.

Definition isTypeKind (kind : js) : bool :=
  eqStr kind "class" || eqStr kind "interface" || eqStr kind "trait".

(** Lines 328 to 354: the methods of a class body. *)
Definition indexMethod (fsPath className : string) (bodyNode : js) : SM Scan unit :=
  isMethod ← St.lift (kindIs bodyNode "method");
  St.when isMethod
    (methodName ← St.lift (nameOf bodyNode ≫= str);
     let qualifiedName := className ++ "::" ++ methodName in
     methodRange ← St.lift (rangeOf bodyNode);
     onIndex (addMethod qualifiedName
                {| name := methodName; path := fsPath; kind := "method";
                   range := methodRange; parent := Some className; fqn := None |})).

Definition traverseBody (fsPath className : string) (bodyNodes : js) : SM Scan unit :=
  if truthy bodyNodes then Loop.forOf (indexMethod fsPath className) bodyNodes
  else mret tt.

(** Lines 274 to 362: a class, an interface or a trait. *)
Definition indexType (fsPath : string) (node : js) : SM Scan unit :=
  className ← St.lift (nameOf node ≫= str);
  _ ← addSymbol className;
  range ← St.lift (rangeOf node);
  namespace ← getNamespace;
  let fqn := if truthy namespace
             then toStr namespace ++ "\" ++ className
             else className in
  _ ← onIndex (addDefinition className
                 {| name := className; path := fsPath;
                    kind := toStr (get "kind" node); range := range;
                    parent := None; fqn := Some fqn |});
  ext ← St.lift (extendsOf node);
  impls ← St.lift (implementsOf node);
  _ ← onIndex (setInheritance className
                 {| className := className; extends := ext; implements := impls |});
  let body := get "body" node in
  if truthy body then
    if isArray body then traverseBody fsPath className body
    else if truthy (get "children" body)
         then traverseBody fsPath className (get "children" body)
         else mret tt
  else mret tt.

(** Lines 366 to 375: the names a file uses. *)
Definition indexUse (item : js) : SM Scan unit :=
  n ← St.lift (prop "name" item ≫= str);
  addSymbol (Str.lastSegment Str.backslash n).

(** Lines 264 to 383. *)
Fixpoint traverseNode (fsPath : string) (node : js) {struct node} : SM Scan unit :=
  match node with
  | JUndef | JNull => St.lift Throw
  | JObj fs =>
      let kind := field "kind" fs in
      _ ← St.when (eqStr kind "namespace") (setNamespace (field "name" fs));
      _ ← (if isTypeKind kind then indexType fsPath node
           else if eqStr kind "usegroup" then Loop.forOf indexUse (field "items" fs)
           else if eqStr kind "name" then
             n ← St.lift (str (field "name" fs));
             addSymbol (Str.lastSegment Str.backslash n)
           else mret tt);
      _ ← Loop.onField "children" (Loop.nodes (traverseNode fsPath)) (mret tt) fs;
      Loop.onField "body"
        (fun body =>
           if isArray body then Loop.nodes (traverseNode fsPath) body
           else match body with
                | JObj bfs =>
                    Loop.onField "children" (Loop.nodes (traverseNode fsPath))
                                 (mret tt) bfs
                | _ => mret tt
                end)
        (mret tt) fs
  | _ => mret tt
  end.

Definition traverse (fsPath : string) (nodes : js) : SM Scan unit :=
  Loop.nodes (traverseNode fsPath) nodes.

(** Lines 388 to 391: the usage index learns the symbols of the file. *)
Definition addUsage (uriStr : string) (symbol : string)
    (m : gmap string (gset string)) : gmap string (gset string) :=
  <[symbol := default ∅ (m !! symbol) ∪ {[uriStr]}]> m.

Definition commitUsages (uriStr : string) (symbols : gset string) (i : Index) : Index :=
  {| index := set_fold (addUsage uriStr) (index i) symbols;
     definitions := definitions i; methods := methods i;
     inheritance := inheritance i; files := files i;
     isIndexing := isIndexing i |}.

(** [updateIndexForFile]; [parse] is [vscode.Uri.parse].  The index is
    returned as the exception leaves it when there is one. *)
Definition updateIndexForFile (parse : string -> Uri) (uriStr fsPath : string)
    (ast : js) (i : Index) : res unit * Index :=
  let start := {| ix := removeFile (parse uriStr) i; currentNamespace := JStr EmptyString;
                  symbolsFound := ∅ |} in
  match (children ← St.lift (prop "children" ast);
         St.when (truthy children) (traverse fsPath children)) start with
  | (Ok _, s) => (Ok tt, commitUsages uriStr (symbolsFound s) (ix s))
  | (Throw, s) => (Throw, ix s)
  end.

Definition addFile (uriStr : string) (i : Index) : Index :=
  {| index := index i; definitions := definitions i; methods := methods i;
     inheritance := inheritance i; files := {[uriStr]} ∪ files i;
     isIndexing := isIndexing i |}.

(** [scanFile]: [ast] is what reading and parsing the file gives.  Every
    exception is swallowed. *)
Definition scanFile (parse : string -> Uri) (uri : Uri) (ast : res js) (i : Index)
  : Index :=
  let i := addFile (toString uri) i in
  match ast with
  | Ok ast => snd (updateIndexForFile parse (toString uri) (fsPath uri) ast i)
  | Throw => i
  end.

Definition clearMaps (i : Index) : Index :=
  {| index := ∅; definitions := ∅; methods := ∅; inheritance := ∅;
     files := files i; isIndexing := isIndexing i |}.

(** *** The writes of a traversal

    The traversal of [updateIndexForFile] only adds to the maps.  What it
    adds is a list of writes, in order. *)

Inductive Write : Type :=
| WriteDefinition (key : string) (def : SymbolDef)
| WriteMethod (key : string) (def : SymbolDef)
| WriteInheritance (key : string) (info : InheritanceInfo).

Definition applyWrite (i : Index) (w : Write) : Index :=
  match w with
  | WriteDefinition key def => addDefinition key def i
  | WriteMethod key def => addMethod key def i
  | WriteInheritance key info => setInheritance key info i
  end.

Definition applyWrites (ws : list Write) (i : Index) : Index :=
  fold_left applyWrite ws i.

(** The file a write of a definition or of a method is attributed to. *)
Definition writtenFor (fsPath : string) (w : Write) : Prop :=
  match w with
  | WriteDefinition _ def | WriteMethod _ def => path def = fsPath
  | WriteInheritance _ _ => True
  end.

Definition definitionKeys (ws : list Write) : list string :=
  flat_map (fun w => match w with WriteDefinition k _ => [k] | _ => [] end) ws.

Definition inheritanceKeys (ws : list Write) : list string :=
  flat_map (fun w => match w with WriteInheritance k _ => [k] | _ => [] end) ws.

(** The definitions, the methods and the inheritance that a list of
    writes gives to one key. *)
Definition definitionsFor (k : string) (ws : list Write) : list SymbolDef :=
  flat_map (fun w => match w with
                     | WriteDefinition k' d => if String.eqb k k' then [d] else []
                     | _ => []
                     end) ws.

Definition methodsFor (k : string) (ws : list Write) : list SymbolDef :=
  flat_map (fun w => match w with
                     | WriteMethod k' d => if String.eqb k k' then [d] else []
                     | _ => []
                     end) ws.

Definition inheritanceFor (k : string) (ws : list Write) : list InheritanceInfo :=
  flat_map (fun w => match w with
                     | WriteInheritance k' info => if String.eqb k k' then [info] else []
                     | _ => []
                     end) ws.

(** What [updateIndexForFile] does after the traversal: the symbols are
    committed when it ended well. *)
Definition finish (r : res unit) (uriStr : string) (syms : gset string) (i : Index)
  : Index :=
  match r with
  | Ok _ => commitUsages uriStr syms i
  | Throw => i
  end.

(** A computation of the traversal, seen from outside: started in a
    namespace, it makes writes attributed to the file, records symbols,
    and ends in a namespace with a result, none of which depends on the
    index or on the symbols recorded so far.  A class whose inheritance
    is written has had its definition written. *)
Definition writesOnly {A} (fsPath : string) (m : SM Scan A) : Prop :=
  forall ns, exists (ws : list Write) (r : res A) (ns' : js) (syms : gset string),
    Forall (writtenFor fsPath) ws
    /\ inheritanceKeys ws ⊆ definitionKeys ws
    /\ forall i found,
         m {| ix := i; currentNamespace := ns; symbolsFound := found |}
         = (r, {| ix := applyWrites ws i; currentNamespace := ns';
                  symbolsFound := syms ∪ found |}).

(** What a key of the definitions or of the methods holds once [l] has
    been pushed to it, one entry after the other. *)
Definition pushed (o : option (list SymbolDef)) (l : list SymbolDef)
  : option (list SymbolDef) :=
  match l with
  | [] => o
  | _ => Some (default [] o ++ l)%list
  end.

(** Every class of the inheritance map has an entry, possibly empty, in
    the map of definitions. *)
Definition inheritanceDefined (i : Index) : Prop :=
  forall className, is_Some (inheritance i !! className) ->
                    is_Some (definitions i !! className).

(** *** scanWorkspace

    The function is asynchronous: it runs up to an [await], and goes on
    when the editor answers.  Between the two, other calls on the same
    indexer may run.  An invocation that has passed the guard is a
    [Task]: what it still has to do once its pending question is
    answered. *)

Record Settings : Type := {
  excludeVendor : js;
  exclude : js;
  workspaceRoot : option string
}.

Inductive Task : Type :=
| AwaitFindFiles (excludeVendor : bool) (root : option string)
| AwaitPathExists (files : list Uri)
| AwaitVendorScan (files : list Uri)
| AwaitScanFile (uri : Uri) (rest : list Uri).

(** What the editor or the file system answers to a pending question;
    [Throw] is a rejected promise. *)
Inductive Answer : Type :=
| FoundFiles (r : res (list Uri))
| PathExists (r : res bool)
| VendorFiles (r : res (list Uri))
| FileRead (ast : res js).

Inductive Outcome : Type :=
| Running (t : Task)
| Returned
| Thrown.

Definition setIndexing (b : bool) (i : Index) : Index :=
  {| index := index i; definitions := definitions i; methods := methods i;
     inheritance := inheritance i; files := files i; isIndexing := b |}.

Definition clearFiles (i : Index) : Index :=
  {| index := index i; definitions := definitions i; methods := methods i;
     inheritance := inheritance i; files := ∅; isIndexing := isIndexing i |}.

(** Lines 122 to 147: from the call to the first [await].
    [excludeDirs.join] and [excludeDirs.filter] exist on arrays only. *)
Definition start (cfg : Settings) (i : Index) : Outcome * Index :=
  if isIndexing i then (Returned, i)
  else
    let i := setIndexing true i in
    if negb (isArray (exclude cfg)) then (Thrown, i)
    else (Running (AwaitFindFiles (truthy (excludeVendor cfg)) (workspaceRoot cfg)),
          clearFiles i).

(** Lines 178 to 190: the files are known. *)
Definition scanAll (files : list Uri) (i : Index) : Outcome * Index :=
  match files with
  | [] => (Returned, setIndexing false i)
  | uri :: rest => (Running (AwaitScanFile uri rest), i)
  end.

(** The invocation goes on with the answer to its question; [None]
    when the answer is not one to that question. *)
Definition resume (parse : string -> Uri) (t : Task) (a : Answer) (i : Index)
  : option (Outcome * Index) :=
  match t, a with
  | AwaitFindFiles _ _, FoundFiles Throw => Some (Thrown, i)
  | AwaitFindFiles ev root, FoundFiles (Ok userFiles) =>
      if ev then Some (scanAll userFiles i)
      else match root with
           | Some _ => Some (Running (AwaitPathExists userFiles), i)
           | None => Some (scanAll userFiles i)
           end
  | AwaitPathExists _, PathExists Throw => Some (Thrown, i)
  | AwaitPathExists files, PathExists (Ok true) =>
      Some (Running (AwaitVendorScan files), i)
  | AwaitPathExists files, PathExists (Ok false) => Some (scanAll files i)
  | AwaitVendorScan files, VendorFiles (Ok vendorFiles) =>
      Some (scanAll (files ++ vendorFiles) i)
  | AwaitVendorScan files, VendorFiles Throw => Some (scanAll files i)
  | AwaitScanFile uri rest, FileRead ast =>
      let i := scanFile parse uri ast i in
      match rest with
      | [] => Some (Returned, setIndexing false i)
      | next :: rest' => Some (Running (AwaitScanFile next rest'), i)
      end
  | _, _ => None
  end.

(** The indexer and the invocations of [scanWorkspace] in flight. *)
Record System : Type := { idx : Index; tasks : list Task }.

Definition initial : System := {| idx := empty; tasks := [] |}.

Definition spawn (o : Outcome) (i : Index) (others : list Task) : System :=
  match o with
  | Running t => {| idx := i; tasks := t :: others |}
  | Returned | Thrown => {| idx := i; tasks := others |}
  end.

(** One event of the extension host: a call of a public method of the
    indexer, or the answer to the question of an invocation in flight. *)
Inductive step (parse : string -> Uri) : System -> System -> Prop :=
| step_scanWorkspace cfg s :
    step parse s (spawn (start cfg (idx s)).1 (start cfg (idx s)).2 (tasks s))
| step_rebuildIndex cfg s :
    step parse s (spawn (start cfg (clearMaps (idx s))).1
                        (start cfg (clearMaps (idx s))).2 (tasks s))
| step_answer s before t after a o i :
    tasks s = (before ++ t :: after)%list ->
    resume parse t a (idx s) = Some (o, i) ->
    step parse s (spawn o i (before ++ after))
| step_scanFile uri ast s :
    step parse s {| idx := scanFile parse uri ast (idx s); tasks := tasks s |}
| step_removeFile uri s :
    step parse s {| idx := removeFile uri (idx s); tasks := tasks s |}.

Inductive reachable (parse : string -> Uri) : System -> Prop :=
| reach_initial : reachable parse initial
| reach_step s s' : reachable parse s -> step parse s s' -> reachable parse s'.

(** The guard is set and no invocation is left to clear it. *)
Definition stuck (s : System) : Prop :=
  isIndexing (idx s) = true /\ tasks s = [].

End Indexer.

(** ** renameProvider.ts *)

Module RenameProvider.
Import Js Node Vscode.

Definition isTypeKind (kind : js) : bool :=
  eqStr kind "class" || eqStr kind "interface" || eqStr kind "trait".

(** [loc.p.offset || document.offsetAt(new Position(loc.p.line - 1, loc.p.column))] *)
Definition offsetOf (text : string) (p : js) : res Z :=
  o ← prop "offset" p;
  if truthy o then num o
  else
    l ← prop "line" p ≫= num;
    c ← prop "column" p ≫= num;
    q ← newPosition (l - 1) c;
    mret (offsetAt text q).

(** Lines 141 to 164: is the cursor on a method of the old name? *)
Definition checkBody (text oldName : string) (currentOffset : Z) (bodyNodes : js)
  : res bool :=
  if negb (truthy bodyNodes) then Ok false
  else
    l ← Loop.elements bodyNodes;
    found ← Loop.firstOf (fun bodyNode =>
        kind ← prop "kind" bodyNode;
        if eqStr kind "method" && truthy (get "loc" bodyNode) then
          methodName ← nameOf bodyNode;
          if eqStr methodName oldName then
            s ← prop "start" (get "loc" bodyNode) ≫= offsetOf text;
            e ← prop "end" (get "loc" bodyNode) ≫= offsetOf text;
            if (s <=? currentOffset) && (currentOffset <=? e)
            then Ok (Some tt) else Ok None
          else Ok None
        else Ok None) l;
    mret (match found with Some _ => true | None => false end).

(** Lines 133 to 182: the class and the kind of the class whose method
    the cursor is on. *)
Fixpoint findMethodContextNode (text oldName : string) (currentOffset : Z)
    (node : js) {struct node} : res (option (js * js)) :=
  match node with
  | JUndef | JNull => Throw
  | JObj fs =>
      let kind := field "kind" fs in
      let inChildren :=
        Loop.onField "children"
          (fun v => if truthy v then
                      match v with
                      | JArr l =>
                          Loop.firstOf
                            (findMethodContextNode text oldName currentOffset) l
                      | JStr _ => Ok None
                      | _ => Throw
                      end
                    else Ok None)
          (Ok None) fs in
      if isTypeKind kind then
        className ← nameOf node;
        let body := field "body" fs in
        hit ← (if truthy body then
                 checkBody text oldName currentOffset
                   (if isArray body then body else get "children" body)
               else Ok false);
        if (hit : bool) then Ok (Some (className, kind))
        else
          nested ← inChildren;
          match nested with
          | Some r => Ok (Some r)
          | None => inChildren
          end
      else inChildren
  | _ => Ok None
  end.

Definition findMethodContext (text oldName : string) (currentOffset : Z) (nodes : js)
  : res (option (js * js)) :=
  if negb (truthy nodes) then Ok None
  else l ← Loop.elements nodes;
       Loop.firstOf (findMethodContextNode text oldName currentOffset) l.

(** What step 1 and step 2 establish. *)
Record Rename : Type := {
  oldName : string;
  newName : string;
  isMethodRename : bool;
  targetClassName : js;
  targetType : js;
  targetImplementations : list string
}.

(** The per-file state of the traversal: the edit being built and the
    class the traversal is in. *)
Record Walk : Type := {
  workspaceEdit : WorkspaceEdit;
  currentClassName : js
}.

Definition setClass (c : js) : SM Walk unit :=
  St.modify (fun w => {| workspaceEdit := workspaceEdit w; currentClassName := c |}).

Definition replaceAt (uri : string) (r : Range) (t : string) : SM Walk unit :=
  St.modify (fun w => {| workspaceEdit := (workspaceEdit w ++ [CallReplace uri r t])%list;
                         currentClassName := currentClassName w |}).

(** [addEdit(node)] *)
Definition addEdit (uri : string) (rn : Rename) (node : js) : SM Walk unit :=
  loc ← St.lift (prop "loc" node);
  if truthy loc then
    r ← St.lift (rangeOfLoc loc);
    replaceAt uri r (newName rn)
  else mret tt.

(** The name node of a declaration is renamed when it is an object. *)
Definition addNameEdit (uri : string) (rn : Rename) (n : js) : SM Walk unit :=
  if isObject n && truthy (get "loc" n) then addEdit uri rn n
  else if truthy n && negb (isString n) then addEdit uri rn n
  else mret tt.

(** [a === b] on values that are strings or [null]. *)
Definition sameName (a b : js) : bool :=
  match a, b with
  | JStr x, JStr y => String.eqb x y
  | JNull, JNull => true
  | JUndef, JUndef => true
  | JNum x, JNum y => x =? y
  | JBool x, JBool y => Bool.eqb x y
  | _, _ => false
  end.

Definition isImplementation (rn : Rename) (c : js) : bool :=
  eqStr (targetType rn) "interface"
  && match c with
     | JStr s => existsb (String.eqb s) (targetImplementations rn)
     | _ => false
     end.

(** Lines 262 to 264 and 379 to 381. *)
Definition inTargetClass (rn : Rename) (current : js) : bool :=
  sameName current (targetClassName rn)
  || (negb (sameName current JNull) && isImplementation rn current).

(** Lines 267 to 282. *)
Definition checkMethods (uri : string) (rn : Rename) (bodyNodes : js) : SM Walk unit :=
  if negb (truthy bodyNodes) then mret tt
  else Loop.forOf (fun bodyNode =>
         isMethod ← St.lift (kindIs bodyNode "method");
         St.when isMethod
           (methodName ← St.lift (nameOf bodyNode);
            St.when (eqStr methodName (oldName rn))
                    (addNameEdit uri rn (get "name" bodyNode)))) bodyNodes.

(** The replacement text of [String.prototype.replace] for a pattern
    without groups: [$$] is a dollar sign, [$&] the text matched, [$`]
    the text before the match and [$'] the text after it; every other
    character stands for itself. *)
Fixpoint substitution (matched before after : string) (t : string) : string :=
  match t with
  | EmptyString => EmptyString
  | String a t' =>
      if Ascii.eqb a "$" then
        match t' with
        | EmptyString => String a EmptyString
        | String c r =>
            if Ascii.eqb c "$" then String "$" (substitution matched before after r)
            else if Ascii.eqb c "&" then matched ++ substitution matched before after r
            else if Ascii.eqb c "`" then before ++ substitution matched before after r
            else if Ascii.eqb c "'" then after ++ substitution matched before after r
            else String a (substitution matched before after t')
        end
      else String a (substitution matched before after t')
  end.

(** [n.replace(new RegExp(old + '$'), new)].  The old name is the name
    of an indexed class or of a method, an identifier, so the pattern
    matches these characters and nothing else, at the end of [n]. *)
Definition replaceSuffix (n old new : string) : string :=
  if Str.endsWith old n
  then let before := Str.take (String.length n - String.length old) n in
       before ++ substitution old before EmptyString new
  else n.

(** Lines 304 to 326: an import whose last segment is the old name. *)
Definition renameUse (uri : string) (rn : Rename) (item : js) : SM Walk unit :=
  n ← St.lift (prop "name" item ≫= str);
  if Str.endsWith ("\" ++ oldName rn) n || String.eqb n (oldName rn) then
    r ← St.lift (prop "loc" item ≫= rangeOfLoc);
    replaceAt uri r (replaceSuffix n (oldName rn) (newName rn))
  else mret tt.

(** Lines 329 to 364: a name node, when a class is renamed. *)
Definition renameName (uri : string) (rn : Rename) (node : js) : SM Walk unit :=
  n ← St.lift (str (get "name" node));
  if String.eqb (Str.lastSegment Str.backslash n) (oldName rn) then
    _ ← addEdit uri rn node;
    r ← St.lift (rangeOfLoc (get "loc" node));
    replaceAt uri r (replaceSuffix n (oldName rn) (newName rn))
  else mret tt.

(** The map of line 240.  The sources read it and never write it. *)
Definition variableTypes : gmap string string := ∅.

(** [typeof node.offset === 'string' ? node.offset : (node.offset.name || node.offset)] *)
Definition offsetName (offset : js) : js :=
  if isString offset then offset
  else if truthy (get "name" offset) then get "name" offset else offset.

(** Lines 367 to 397: a method call. *)
Definition renameCall (uri : string) (rn : Rename) (node : js) : SM Walk unit :=
  let offset := get "offset" node in
  let what := get "what" node in
  if truthy offset && eqStr (offsetName offset) (oldName rn) then
    w ← St.get;
    let shouldRename :=
      if truthy what && eqStr (get "kind" what) "variable"
         && eqStr (get "name" what) "this"
      then inTargetClass rn (currentClassName w)
      else if truthy what && eqStr (get "kind" what) "variable" then
        let varType := match get "name" what with
                       | JStr varName =>
                           match variableTypes !! varName with
                           | Some ty => JStr ty
                           | None => JUndef
                           end
                       | _ => JUndef
                       end in
        sameName varType (targetClassName rn)
        || (negb (sameName varType JNull) && negb (sameName varType JUndef)
            && isImplementation rn varType)
      else false in
    if shouldRename && isObject offset && truthy (get "loc" offset)
    then addEdit uri rn offset else mret tt
  else mret tt.

(** Lines 400 to 421: a static call. *)
Definition renameStaticCall (uri : string) (rn : Rename) (node : js) : SM Walk unit :=
  let offset := get "offset" node in
  let what := get "what" node in
  if truthy offset && truthy what && eqStr (offsetName offset) (oldName rn) then
    w ← St.get;
    let className := if truthy (get "name" what) then get "name" what else what in
    let shouldRename :=
      sameName className (targetClassName rn)
      || (sameName (currentClassName w) (targetClassName rn)
          && (eqStr className "self" || eqStr className "static"))
      || isImplementation rn className in
    if shouldRename && isObject offset && truthy (get "loc" offset)
    then addEdit uri rn offset else mret tt
  else mret tt.

(** Lines 243 to 433. *)
Fixpoint traverseNode (uri : string) (rn : Rename) (node : js) {struct node}
  : SM Walk unit :=
  match node with
  | JUndef | JNull => St.lift Throw
  | JObj fs =>
      let kind := field "kind" fs in
      let descend :=
        (_ ← Loop.onField "children"
               (fun v => if truthy v then Loop.forNodes (traverseNode uri rn) v
                         else mret tt)
               (mret tt) fs;
         Loop.onField "body"
           (fun body =>
              if isArray body then Loop.forNodes (traverseNode uri rn) body
              else match body with
                   | JObj bfs =>
                       Loop.onField "children"
                         (fun c => if truthy c
                                   then Loop.forNodes (traverseNode uri rn) c
                                   else mret tt)
                         (mret tt) bfs
                   | _ => mret tt
                   end)
           (mret tt) fs) in
      if isTypeKind kind then
        w ← St.get;
        let prevClassName := currentClassName w in
        className ← St.lift (nameOf node);
        _ ← setClass className;
        let n := field "name" fs in
        _ ← St.when (negb (isMethodRename rn) && truthy n
                     && (eqStr (get "name" n) (oldName rn) || eqStr n (oldName rn)))
              (addNameEdit uri rn n);
        _ ← St.when (isMethodRename rn && inTargetClass rn className)
              (let body := field "body" fs in
               if truthy body then
                 checkMethods uri rn (if isArray body then body else get "children" body)
               else mret tt);
        _ ← descend;
        setClass prevClassName
      else
        _ ← St.when (eqStr kind "usegroup")
              (Loop.forOf (renameUse uri rn) (field "items" fs));
        _ ← St.when (negb (isMethodRename rn) && eqStr kind "name")
              (renameName uri rn node);
        _ ← St.when (isMethodRename rn && eqStr kind "propertylookup")
              (renameCall uri rn node);
        _ ← St.when (isMethodRename rn && eqStr kind "staticlookup")
              (renameStaticCall uri rn node);
        descend
  | _ => mret tt
  end.

(** Lines 226 to 439: one candidate file.  The edits made before an
    exception stay in the workspace edit. *)
Definition renameInFile (rn : Rename) (edit : WorkspaceEdit) (file : SourceFile)
  : WorkspaceEdit :=
  match parsed file with
  | Throw => edit
  | Ok ast =>
      let children := get "children" ast in
      if truthy children then
        workspaceEdit
          (snd (Loop.forNodes (traverseNode (fsPath file) rn) children
                  {| workspaceEdit := edit; currentClassName := JNull |}))
      else edit
  end.

(** Step 1 and step 2: the target of the rename. *)
Definition target (ix : Indexer.Index) (document : SourceFile)
    (position : Position) (oldName newName : string) : Rename :=
  let context :=
    match (text ← content document;
           currentAst ← parsed document;
           children ← prop "children" currentAst;
           findMethodContext text oldName (offsetAt text position) children) with
    | Ok (Some c) => Some c
    | _ => None
    end in
  match context with
  | Some (className, kind) =>
      {| oldName := oldName; newName := newName; isMethodRename := true;
         targetClassName := className; targetType := kind;
         targetImplementations :=
           match kind, className with
           | JStr "interface", JStr c =>
               if String.eqb c EmptyString then []
               else Indexer.getImplementations ix c
           | _, _ => []
           end |}
  | None =>
      {| oldName := oldName; newName := newName; isMethodRename := false;
         targetClassName := JNull; targetType := JNull;
         targetImplementations := [] |}
  end.

(** [provideRenameEdits].  [word] is the word at the cursor, [None]
    when there is none; [allPhpFiles] is what [findFiles] answers. *)
Definition provideRenameEdits (ix : Indexer.Index) (document : SourceFile)
    (position : Position) (word : option string) (newName : string)
    (allPhpFiles : list SourceFile) : res WorkspaceEdit :=
  match word with
  | None => Ok []
  | Some oldName =>
      let rn := target ix document position oldName newName in
      let candidates :=
        if existsb (fun f => String.eqb (fsPath f) (fsPath document)) allPhpFiles
        then allPhpFiles else (allPhpFiles ++ [document])%list in
      (fix each (files : list SourceFile) (edit : WorkspaceEdit)
         : res WorkspaceEdit :=
         match files with
         | [] => Ok edit
         | file :: rest =>
             _ ← content file;
             each rest (renameInFile rn edit file)
         end) candidates []
  end.

End RenameProvider.

(** ** Parse trees of the repository's PHP fixtures

    The trees are written as php-parser 3 builds them with
    [withPositions]: every node has [kind] first and then [loc], lines
    count from 1, columns from 0, and a position carries its offset in
    the text. *)

Module Ast.

Definition dq : string := String (ascii_of_nat 34) EmptyString.
Definition newline : string := String "010"%char EmptyString.

Definition pos (text : string) (l c : Z) : js :=
  JObj [("line", JNum l); ("column", JNum c);
        ("offset", JNum (Vscode.offsetAt text
                           {| Vscode.line := l - 1; Vscode.character := c |}))].

Definition loc (text : string) (sl sc el ec : Z) : js :=
  JObj [("source", JNull); ("start", pos text sl sc); ("end", pos text el ec)].

Definition node (kind : string) (l : js) (fields : list (string * js)) : js :=
  JObj (("kind", JStr kind) :: ("loc", l) :: fields).

(** A node with the comment lines that precede it. *)
Definition commented (comments : list js) (n : js) : js :=
  match n with
  | JObj (k :: rest) => JObj (k :: ("leadingComments", JArr comments) :: rest)
  | _ => n
  end.

Definition commentline (l : js) (value : string) : js :=
  node "commentline" l [("value", JStr value)].

Definition identifier (l : js) (name : string) : js :=
  node "identifier" l [("name", JStr name)].

Definition name (l : js) (n : string) : js :=
  node "name" l [("name", JStr n); ("resolution", JStr "uqn")].

Definition typereference (l : js) (n : string) : js :=
  node "typereference" l [("name", JStr n); ("raw", JStr n)].

Definition variable (l : js) (n : string) : js :=
  node "variable" l [("name", JStr n); ("curly", JBool false)].

Definition program (l : js) (children : list js) : js :=
  node "program" l [("children", JArr children); ("errors", JArr []);
                    ("comments", JArr [])].

Definition namespace (l : js) (n : string) (children : list js) : js :=
  node "namespace" l [("name", JStr n); ("children", JArr children);
                      ("withBrackets", JBool false)].

Definition useitem (l : js) (n : string) (alias : js) : js :=
  node "useitem" l [("name", JStr n); ("alias", alias); ("type", JNull)].

Definition usegroup (l : js) (items : list js) : js :=
  node "usegroup" l [("name", JNull); ("type", JNull); ("items", JArr items)].

Definition class (l : js) (nameLoc : js) (n : string) (ext : js) (impl : js)
    (body : list js) : js :=
  node "class" l [("name", identifier nameLoc n); ("isAnonymous", JBool false);
                  ("extends", ext); ("implements", impl); ("body", JArr body);
                  ("attrGroups", JArr []); ("isAbstract", JBool false);
                  ("isFinal", JBool false)].

Definition interface (l : js) (nameLoc : js) (n : string) (body : list js) : js :=
  node "interface" l [("name", identifier nameLoc n); ("extends", JNull);
                      ("body", JArr body); ("attrGroups", JArr [])].

Definition block (l : js) (children : list js) : js :=
  node "block" l [("children", JArr children)].

Definition parameter (l : js) (nameLoc : js) (n : string) (type : js) : js :=
  node "parameter" l [("name", identifier nameLoc n); ("value", JNull);
                      ("type", type); ("byref", JBool false);
                      ("variadic", JBool false); ("nullable", JBool false)].

Definition method (l : js) (nameLoc : js) (n : string) (args : list js)
    (type : js) (body : js) : js :=
  node "method" l [("name", identifier nameLoc n); ("arguments", JArr args);
                   ("byref", JBool false); ("type", type);
                   ("nullable", JBool false); ("body", body);
                   ("attrGroups", JArr []); ("isAbstract", JBool false);
                   ("isFinal", JBool false); ("isStatic", JBool false);
                   ("visibility", JStr "public")].

Definition function_ (l : js) (nameLoc : js) (n : string) (args : list js)
    (type : js) (body : js) : js :=
  node "function" l [("name", identifier nameLoc n); ("arguments", JArr args);
                     ("byref", JBool false); ("type", type);
                     ("nullable", JBool false); ("body", body);
                     ("attrGroups", JArr [])].

Definition propertylookup (l : js) (what offset : js) : js :=
  node "propertylookup" l [("what", what); ("offset", offset)].

Definition staticlookup (l : js) (what offset : js) : js :=
  node "staticlookup" l [("what", what); ("offset", offset)].

Definition call (l : js) (what : js) (args : list js) : js :=
  node "call" l [("what", what); ("arguments", JArr args)].

Definition new (l : js) (what : js) (args : list js) : js :=
  node "new" l [("what", what); ("arguments", JArr args)].

Definition assign (l : js) (left right : js) : js :=
  node "assign" l [("left", left); ("right", right); ("operator", JStr "=")].

Definition bin (l : js) (op : string) (left right : js) : js :=
  node "bin" l [("type", JStr op); ("left", left); ("right", right)].

Definition expressionstatement (l : js) (e : js) : js :=
  node "expressionstatement" l [("expression", e)].

Definition return_ (l : js) (e : js) : js :=
  node "return" l [("expr", e)].

Definition str (l : js) (v : string) : js :=
  node "string" l [("value", JStr v)].

(** test-rename/ClassAwareTest.php *)
Definition classAwareText : string :=
  Str.join newline
  ["<?php";
   EmptyString;
   "namespace App\Test;";
   EmptyString;
   "class UserController {";
   "    public function handle() {";
   "        return 'user handle';";
   "    }";
   "    ";
   "    public function process() {";
   "        // $this should only rename in UserController";
   "        return $this->handle();";
   "    }";
   "}";
   EmptyString;
   "class OrderController {";
   "    public function handle() {";
   "        return 'order handle';";
   "    }";
   "    ";
   "    public function execute() {";
   "        // $this should only rename in OrderController, NOT affected by UserController rename";
   "        return $this->handle();";
   "    }";
   "}";
   EmptyString].

Definition classAwareTest : js :=
  program (loc classAwareText 1 0 26 0)
    [namespace (loc classAwareText 3 0 25 1) "App\Test"
       [class (loc classAwareText 5 0 14 1) (loc classAwareText 5 6 5 20) "UserController" JNull JNull
          [method (loc classAwareText 6 4 8 5) (loc classAwareText 6 20 6 26) "handle" [] JNull (block (loc classAwareText 6 29 8 5) [return_ (loc classAwareText 7 8 7 29) (str (loc classAwareText 7 15 7 28) "user handle")]);
           method (loc classAwareText 10 4 13 5) (loc classAwareText 10 20 10 27) "process" [] JNull (block (loc classAwareText 10 30 13 5) [commented [commentline (loc classAwareText 11 8 11 53) "// $this should only rename in UserController"] (return_ (loc classAwareText 12 8 12 31) (call (loc classAwareText 12 15 12 30) (propertylookup (loc classAwareText 12 15 12 28) (variable (loc classAwareText 12 15 12 20) "this") (identifier (loc classAwareText 12 22 12 28) "handle")) []))])];
        class (loc classAwareText 16 0 25 1) (loc classAwareText 16 6 16 21) "OrderController" JNull JNull
          [method (loc classAwareText 17 4 19 5) (loc classAwareText 17 20 17 26) "handle" [] JNull (block (loc classAwareText 17 29 19 5) [return_ (loc classAwareText 18 8 18 30) (str (loc classAwareText 18 15 18 29) "order handle")]);
           method (loc classAwareText 21 4 24 5) (loc classAwareText 21 20 21 27) "execute" [] JNull (block (loc classAwareText 21 30 24 5) [commented [commentline (loc classAwareText 22 8 22 93) "// $this should only rename in OrderController, NOT affected by UserController rename"] (return_ (loc classAwareText 23 8 23 31) (call (loc classAwareText 23 15 23 30) (propertylookup (loc classAwareText 23 15 23 28) (variable (loc classAwareText 23 15 23 20) "this") (identifier (loc classAwareText 23 22 23 28) "handle")) []))])]]].

(** The file of the same test that uses the two controllers. *)
Definition classAwareUsageText : string :=
  Str.join newline
  ["<?php";
   EmptyString;
   "namespace App\Test;";
   EmptyString;
   "class ClassAwareUsage {";
   "    public function testDifferentClasses() {";
   "        // Variable type tracking - should only rename UserController::handle";
   "        $user = new UserController();";
   "        $user->handle(); // Should rename only if UserController::handle is renamed";
   "        ";
   "        $order = new OrderController();";
   "        $order->handle(); // Should NOT rename if UserController::handle is renamed";
   "        ";
   "        // Static calls - class explicit";
   "        UserController::staticHandle();  // Only renames if in UserController";
   "        OrderController::staticHandle(); // Only renames if in OrderController";
   "    }";
   "}";
   EmptyString].

Definition classAwareUsage : js :=
  program (loc classAwareUsageText 1 0 19 0)
    [namespace (loc classAwareUsageText 3 0 18 1) "App\Test"
       [class (loc classAwareUsageText 5 0 18 1) (loc classAwareUsageText 5 6 5 21) "ClassAwareUsage" JNull JNull
          [method (loc classAwareUsageText 6 4 17 5) (loc classAwareUsageText 6 20 6 40) "testDifferentClasses" [] JNull
             (block (loc classAwareUsageText 6 43 17 5)
                [commented [commentline (loc classAwareUsageText 7 8 7 77) "// Variable type tracking - should only rename UserController::handle"] (expressionstatement (loc classAwareUsageText 8 8 8 37) (assign (loc classAwareUsageText 8 8 8 36) (variable (loc classAwareUsageText 8 8 8 13) "user") (new (loc classAwareUsageText 8 16 8 36) (name (loc classAwareUsageText 8 20 8 34) "UserController") [])));
                 expressionstatement (loc classAwareUsageText 9 8 9 24) (call (loc classAwareUsageText 9 8 9 23) (propertylookup (loc classAwareUsageText 9 8 9 21) (variable (loc classAwareUsageText 9 8 9 13) "user") (identifier (loc classAwareUsageText 9 15 9 21) "handle")) []);
                 expressionstatement (loc classAwareUsageText 11 8 11 39) (assign (loc classAwareUsageText 11 8 11 38) (variable (loc classAwareUsageText 11 8 11 14) "order") (new (loc classAwareUsageText 11 17 11 38) (name (loc classAwareUsageText 11 21 11 36) "OrderController") []));
                 expressionstatement (loc classAwareUsageText 12 8 12 25) (call (loc classAwareUsageText 12 8 12 24) (propertylookup (loc classAwareUsageText 12 8 12 22) (variable (loc classAwareUsageText 12 8 12 14) "order") (identifier (loc classAwareUsageText 12 16 12 22) "handle")) []);
                 commented [commentline (loc classAwareUsageText 14 8 14 40) "// Static calls - class explicit"] (expressionstatement (loc classAwareUsageText 15 8 15 39) (call (loc classAwareUsageText 15 8 15 38) (staticlookup (loc classAwareUsageText 15 8 15 36) (name (loc classAwareUsageText 15 8 15 22) "UserController") (identifier (loc classAwareUsageText 15 24 15 36) "staticHandle")) []));
                 expressionstatement (loc classAwareUsageText 16 8 16 40) (call (loc classAwareUsageText 16 8 16 39) (staticlookup (loc classAwareUsageText 16 8 16 37) (name (loc classAwareUsageText 16 8 16 23) "OrderController") (identifier (loc classAwareUsageText 16 25 16 37) "staticHandle")) [])])]]].

(** The fixture of the interface-aware rename. *)
Definition loggerText : string :=
  Str.join newline
  ["<?php";
   EmptyString;
   "namespace App\Test;";
   EmptyString;
   "interface LoggerInterface {";
   "    public function log(string $message): void;";
   "    public function debug(string $message): void;";
   "}";
   EmptyString;
   "class FileLogger implements LoggerInterface {";
   "    public function log(string $message): void {";
   "        file_put_contents('log.txt', $message);";
   "    }";
   "    ";
   "    public function debug(string $message): void {";
   "        $this->log(" ++ dq ++ "[DEBUG] " ++ dq ++ " . $message);";
   "    }";
   "}";
   EmptyString;
   "class DatabaseLogger implements LoggerInterface {";
   "    public function log(string $message): void {";
   "        // Save to database";
   "    }";
   "    ";
   "    public function debug(string $message): void {";
   "        $this->log(" ++ dq ++ "[DEBUG] " ++ dq ++ " . $message);";
   "    }";
   "}";
   EmptyString;
   "class Application {";
   "    public function run(LoggerInterface $logger) {";
   "        $logger->log(" ++ dq ++ "Application started" ++ dq ++ ");";
   "        $logger->debug(" ++ dq ++ "Debugging info" ++ dq ++ ");";
   "    }";
   "}";
   EmptyString].

Definition loggerTest : js :=
  program (loc loggerText 1 0 36 0)
    [namespace (loc loggerText 3 0 35 1) "App\Test"
       [interface (loc loggerText 5 0 8 1) (loc loggerText 5 10 5 25) "LoggerInterface"
          [method (loc loggerText 6 4 6 46) (loc loggerText 6 20 6 23) "log" [parameter (loc loggerText 6 24 6 39) (loc loggerText 6 31 6 39) "message" (typereference (loc loggerText 6 24 6 30) "string")] (typereference (loc loggerText 6 42 6 46) "void") JNull;
           method (loc loggerText 7 4 7 48) (loc loggerText 7 20 7 25) "debug" [parameter (loc loggerText 7 26 7 41) (loc loggerText 7 33 7 41) "message" (typereference (loc loggerText 7 26 7 32) "string")] (typereference (loc loggerText 7 44 7 48) "void") JNull];
        class (loc loggerText 10 0 18 1) (loc loggerText 10 6 10 16) "FileLogger" JNull (JArr [name (loc loggerText 10 28 10 43) "LoggerInterface"])
          [method (loc loggerText 11 4 13 5) (loc loggerText 11 20 11 23) "log" [parameter (loc loggerText 11 24 11 39) (loc loggerText 11 31 11 39) "message" (typereference (loc loggerText 11 24 11 30) "string")] (typereference (loc loggerText 11 42 11 46) "void") (block (loc loggerText 11 47 13 5) [expressionstatement (loc loggerText 12 8 12 47) (call (loc loggerText 12 8 12 46) (name (loc loggerText 12 8 12 25) "file_put_contents") [(str (loc loggerText 12 26 12 35) "log.txt"); variable (loc loggerText 12 37 12 45) "message"])]);
           method (loc loggerText 15 4 17 5) (loc loggerText 15 20 15 25) "debug" [parameter (loc loggerText 15 26 15 41) (loc loggerText 15 33 15 41) "message" (typereference (loc loggerText 15 26 15 32) "string")] (typereference (loc loggerText 15 44 15 48) "void") (block (loc loggerText 15 49 17 5) [expressionstatement (loc loggerText 16 8 16 42) (call (loc loggerText 16 8 16 41) (propertylookup (loc loggerText 16 8 16 18) (variable (loc loggerText 16 8 16 13) "this") (identifier (loc loggerText 16 15 16 18) "log")) [bin (loc loggerText 16 19 16 40) "." (str (loc loggerText 16 19 16 29) "[DEBUG] ") (variable (loc loggerText 16 32 16 40) "message")])])];
        class (loc loggerText 20 0 28 1) (loc loggerText 20 6 20 20) "DatabaseLogger" JNull (JArr [name (loc loggerText 20 32 20 47) "LoggerInterface"])
          [method (loc loggerText 21 4 23 5) (loc loggerText 21 20 21 23) "log" [parameter (loc loggerText 21 24 21 39) (loc loggerText 21 31 21 39) "message" (typereference (loc loggerText 21 24 21 30) "string")] (typereference (loc loggerText 21 42 21 46) "void") (block (loc loggerText 21 47 23 5) []);
           method (loc loggerText 25 4 27 5) (loc loggerText 25 20 25 25) "debug" [parameter (loc loggerText 25 26 25 41) (loc loggerText 25 33 25 41) "message" (typereference (loc loggerText 25 26 25 32) "string")] (typereference (loc loggerText 25 44 25 48) "void") (block (loc loggerText 25 49 27 5) [expressionstatement (loc loggerText 26 8 26 42) (call (loc loggerText 26 8 26 41) (propertylookup (loc loggerText 26 8 26 18) (variable (loc loggerText 26 8 26 13) "this") (identifier (loc loggerText 26 15 26 18) "log")) [bin (loc loggerText 26 19 26 40) "." (str (loc loggerText 26 19 26 29) "[DEBUG] ") (variable (loc loggerText 26 32 26 40) "message")])])];
        class (loc loggerText 30 0 35 1) (loc loggerText 30 6 30 17) "Application" JNull JNull
          [method (loc loggerText 31 4 34 5) (loc loggerText 31 20 31 23) "run" [parameter (loc loggerText 31 24 31 47) (loc loggerText 31 40 31 47) "logger" (name (loc loggerText 31 24 31 39) "LoggerInterface")] JNull
             (block (loc loggerText 31 49 34 5)
                [expressionstatement (loc loggerText 32 8 32 44) (call (loc loggerText 32 8 32 43) (propertylookup (loc loggerText 32 8 32 20) (variable (loc loggerText 32 8 32 15) "logger") (identifier (loc loggerText 32 17 32 20) "log")) [str (loc loggerText 32 21 32 42) "Application started"]);
                 expressionstatement (loc loggerText 33 8 33 41) (call (loc loggerText 33 8 33 40) (propertylookup (loc loggerText 33 8 33 22) (variable (loc loggerText 33 8 33 15) "logger") (identifier (loc loggerText 33 17 33 22) "debug")) [str (loc loggerText 33 23 33 39) "Debugging info"])])]]].

(** A file of the namespace [A\Services] that instantiates [X] without
    an import. *)
Definition reportText : string :=
  Str.join newline
  ["<?php";
   EmptyString;
   "namespace A\Services;";
   EmptyString;
   "class Report";
   "{";
   "    public function build()";
   "    {";
   "        $x = new X();";
   "        return $x;";
   "    }";
   "}";
   EmptyString].

Definition report : js :=
  program (loc reportText 1 0 13 0)
    [namespace (loc reportText 3 0 12 1) "A\Services"
       [class (loc reportText 5 0 12 1) (loc reportText 5 6 5 12) "Report" JNull JNull
          [method (loc reportText 7 4 11 5) (loc reportText 7 20 7 25) "build" [] JNull
             (block (loc reportText 8 4 11 5)
                [expressionstatement (loc reportText 9 8 9 21)
                   (assign (loc reportText 9 8 9 20) (variable (loc reportText 9 8 9 10) "x")
                      (new (loc reportText 9 13 9 20) (name (loc reportText 9 17 9 18) "X") []));
                 return_ (loc reportText 10 8 10 18) (variable (loc reportText 10 15 10 17) "x")])]]].

(** A file of the same namespace that names [X] as a parameter type. *)
Definition mailerText : string :=
  Str.join newline
  ["<?php";
   EmptyString;
   "namespace A\Services;";
   EmptyString;
   "class Mailer";
   "{";
   "    public function send(X $x)";
   "    {";
   "    }";
   "}";
   EmptyString].

Definition mailer : js :=
  program (loc mailerText 1 0 11 0)
    [namespace (loc mailerText 3 0 10 1) "A\Services"
       [class (loc mailerText 5 0 10 1) (loc mailerText 5 6 5 12) "Mailer" JNull JNull
          [method (loc mailerText 7 4 9 5) (loc mailerText 7 20 7 24) "send"
             [parameter (loc mailerText 7 25 7 29) (loc mailerText 7 27 7 29) "x" (name (loc mailerText 7 25 7 26) "X")] JNull
             (block (loc mailerText 8 4 9 5) [])]]].

(** A file of the namespace [A\Utils] with two import statements on one
    line: [X] of [A\Services], and [X] of [B] under another name. *)
Definition consumerText : string :=
  Str.join newline
  ["<?php";
   EmptyString;
   "namespace A\Utils;";
   EmptyString;
   "use A\Services\X; use B\X as OtherX;";
   EmptyString;
   "class Consumer";
   "{";
   "}";
   EmptyString].

Definition consumer : js :=
  program (loc consumerText 1 0 10 0)
    [namespace (loc consumerText 3 0 9 1) "A\Utils"
       [usegroup (loc consumerText 5 0 5 17) [useitem (loc consumerText 5 4 5 16) "A\Services\X" JNull];
        usegroup (loc consumerText 5 18 5 36)
          [useitem (loc consumerText 5 22 5 35) "B\X" (identifier (loc consumerText 5 29 5 35) "OtherX")];
        class (loc consumerText 7 0 9 1) (loc consumerText 7 6 7 14) "Consumer" JNull JNull []]].

(** A file of the namespace [app\models]: the class extends [Object] and a
    method takes a [string] and a [Profile]; nothing is imported. *)
Definition userText : string :=
  Str.join newline
  ["<?php";
   EmptyString;
   "namespace app\models;";
   EmptyString;
   "class User extends Object";
   "{";
   "    public function rename(string $name, Profile $profile)";
   "    {";
   "    }";
   "}";
   EmptyString].

Definition user : js :=
  program (loc userText 1 0 11 0)
    [namespace (loc userText 3 0 10 1) "app\models"
       [class (loc userText 5 0 10 1) (loc userText 5 6 5 10) "User" (name (loc userText 5 19 5 25) "Object") JNull
          [method (loc userText 7 4 9 5) (loc userText 7 20 7 26) "rename"
             [parameter (loc userText 7 27 7 39) (loc userText 7 34 7 39) "name" (typereference (loc userText 7 27 7 33) "string");
              parameter (loc userText 7 41 7 57) (loc userText 7 49 7 57) "profile" (name (loc userText 7 41 7 48) "Profile")]
             JNull
             (block (loc userText 8 4 9 5) [])]]].

(** [models/Profile.php]: the class [Profile] of the namespace
    [app\models]. *)
Definition profileText : string :=
  Str.join newline
  ["<?php";
   EmptyString;
   "namespace app\models;";
   EmptyString;
   "class Profile";
   "{";
   "}";
   EmptyString].

Definition profile : js :=
  program (loc profileText 1 0 8 0)
    [namespace (loc profileText 3 0 7 1) "app\models"
       [class (loc profileText 5 0 7 1) (loc profileText 5 6 5 13) "Profile" JNull JNull []]].

(** A file that calls [handle] with a space after the arrow, as PHP
    allows. *)
Definition spacedText : string :=
  Str.join newline
  ["<?php";
   EmptyString;
   "namespace App\Test;";
   EmptyString;
   "class Spaced";
   "{";
   "    public function run(UserController $c)";
   "    {";
   "        return $c-> handle();";
   "    }";
   "}";
   EmptyString].

Definition spaced : js :=
  program (loc spacedText 1 0 12 0)
    [namespace (loc spacedText 3 0 11 1) "App\Test"
       [class (loc spacedText 5 0 11 1) (loc spacedText 5 6 5 12) "Spaced" JNull JNull
          [method (loc spacedText 7 4 10 5) (loc spacedText 7 20 7 23) "run"
             [parameter (loc spacedText 7 24 7 41) (loc spacedText 7 39 7 41) "c" (name (loc spacedText 7 24 7 38) "UserController")] JNull
             (block (loc spacedText 8 4 10 5)
                [return_ (loc spacedText 9 8 9 29)
                   (call (loc spacedText 9 15 9 28)
                      (propertylookup (loc spacedText 9 15 9 26) (variable (loc spacedText 9 15 9 17) "c")
                         (identifier (loc spacedText 9 20 9 26) "handle"))
                      [])])]]].

End Ast.

(** ** The fixtures as files of a workspace *)

Module Fixtures.
Import Vscode.

Definition classAwareFile : SourceFile :=
  {| fsPath := "/ws/test-rename/ClassAwareTest.php";
     content := Ok Ast.classAwareText;
     parsed := Ok Ast.classAwareTest |}.

Definition classAwareUsageFile : SourceFile :=
  {| fsPath := "/ws/test-rename/ClassAwareUsage.php";
     content := Ok Ast.classAwareUsageText;
     parsed := Ok Ast.classAwareUsage |}.

Definition loggerFile : SourceFile :=
  {| fsPath := "/ws/test-rename/InterfaceTest.php";
     content := Ok Ast.loggerText;
     parsed := Ok Ast.loggerTest |}.

(** A range on one line, counted as the editor counts: from 0. *)
Definition span (l c1 c2 : Z) : Range :=
  {| start := {| line := l; character := c1 |};
     stop := {| line := l; character := c2 |} |}.

(** [Uri.parse] on the paths of the fixtures. *)
Definition parseUri (s : string) : Indexer.Uri :=
  {| Indexer.toString := s; Indexer.fsPath := s |}.

(** The index after a scan of the logger fixture. *)
Definition loggerIndex : Indexer.Index :=
  Indexer.scanFile parseUri (parseUri (fsPath loggerFile)) (parsed loggerFile)
                   Indexer.empty.

(** The move of the class [X] from [A\Services] to [A\Utils]. *)
Definition moveX : RefactorPreview.Move :=
  {| RefactorPreview.oldFqn := "A\Services\X";
     RefactorPreview.newFqn := "A\Utils\X";
     RefactorPreview.oldNs := Some "A\Services";
     RefactorPreview.newNs := Some "A\Utils" |}.

Definition reportFile : SourceFile :=
  {| fsPath := "/ws/src/Services/Report.php";
     content := Ok Ast.reportText; parsed := Ok Ast.report |}.

Definition mailerFile : SourceFile :=
  {| fsPath := "/ws/src/Services/Mailer.php";
     content := Ok Ast.mailerText; parsed := Ok Ast.mailer |}.

Definition consumerFile : SourceFile :=
  {| fsPath := "/ws/src/Utils/Consumer.php";
     content := Ok Ast.consumerText; parsed := Ok Ast.consumer |}.


Definition spacedFile : SourceFile :=
  {| fsPath := "/ws/test-rename/Spaced.php";
     content := Ok Ast.spacedText; parsed := Ok Ast.spaced |}.

(** Settings in which [exclude] is a text and not a list of directories. *)
Definition textExclude : Indexer.Settings :=
  {| Indexer.excludeVendor := JBool true;
     Indexer.exclude := JStr "vendor";
     Indexer.workspaceRoot := Some "/ws" |}.

(** The lines of the import statements of [Consumer.php], as one range. *)
Definition importLine : Range :=
  {| start := {| line := 4; character := 0 |};
     stop := {| line := 5; character := 0 |} |}.

End Fixtures.

(** ** importDiagnostics.ts *)

Module ImportDiagnostics.
Import Js Node Vscode.

Definition lowerAscii (c : ascii) : ascii :=
  let n := nat_of_ascii c in
  if (65 <=? n)%nat && (n <=? 90)%nat then ascii_of_nat (n + 32) else c.

(** [type.toLowerCase()], on the letters of ASCII *)
Fixpoint toLowerCase (s : string) : string :=
  match s with
  | EmptyString => EmptyString
  | String c r => String (lowerAscii c) (toLowerCase r)
  end.

Definition builtIns : list string :=
  ["int"; "string"; "bool"; "float"; "array"; "object"; "callable"; "iterable";
   "void"; "mixed"; "never"; "null"; "true"; "false"].

Definition isBuiltInType (type : string) : bool :=
  existsb (String.eqb (toLowerCase type)) builtIns.

Record Diagnostic : Type := {
  range : Range;
  message : string;
  code : string;
  source : string
}.

(** An element of [usedClasses]: a name and the [loc] kept with it. *)
Record Usage : Type := { usedName : string; usedLoc : js }.

(** What the two traversals of [updateDiagnostics] fill. *)
Record Collected : Type := {
  imports : gset string;
  importedFQNs : gmap string string;
  currentNamespace : js;
  usedClasses : list Usage
}.

Definition nothing : Collected :=
  {| imports := ∅; importedFQNs := ∅; currentNamespace := JStr EmptyString;
     usedClasses := [] |}.

Definition setCurrentNamespace (n : js) : SM Collected unit :=
  St.modify (fun s => {| imports := imports s; importedFQNs := importedFQNs s;
                         currentNamespace := n; usedClasses := usedClasses s |}).

Definition addImport (shortName fqn : string) : SM Collected unit :=
  St.modify (fun s => {| imports := {[shortName]} ∪ imports s;
                         importedFQNs := <[shortName := fqn]> (importedFQNs s);
                         currentNamespace := currentNamespace s;
                         usedClasses := usedClasses s |}).

Definition addUsage (n : string) (loc : js) : SM Collected unit :=
  St.modify (fun s => {| imports := imports s; importedFQNs := importedFQNs s;
                         currentNamespace := currentNamespace s;
                         usedClasses := (usedClasses s
                                         ++ [{| usedName := n; usedLoc := loc |}])%list |}).

(** Lines 55 to 66.  An alias that is not a string is never the name of
    a used class, so it adds nothing that [imports.has] can find. *)
Definition collectUse (item : js) : SM Collected unit :=
  fqn ← St.lift (prop "name" item ≫= str);
  let alias := get "alias" item in
  if truthy alias && truthy (get "name" alias) then
    match get "name" alias with
    | JStr shortName => addImport shortName fqn
    | _ => mret tt
    end
  else addImport (Str.lastSegment Str.backslash fqn) fqn.

(** Lines 48 to 71. *)
Fixpoint collectImportsNode (node : js) {struct node} : SM Collected unit :=
  match node with
  | JUndef | JNull => St.lift Throw
  | JObj fs =>
      let inChildren :=
        Loop.onField "children" (Loop.nodes collectImportsNode) (mret tt) fs in
      if eqStr (field "kind" fs) "namespace" then
        _ ← setCurrentNamespace (field "name" fs);
        inChildren
      else if eqStr (field "kind" fs) "usegroup" then
        Loop.forOf collectUse (field "items" fs)
      else inChildren
  | _ => mret tt
  end.

Definition collectImports (nodes : js) : SM Collected unit :=
  Loop.nodes collectImportsNode nodes.

(** A type hint: [node.type && node.type.name], a string that is not a
    built-in type. *)
Definition hintUsage (node : js) : SM Collected unit :=
  let type := get "type" node in
  if truthy type && truthy (get "name" type) then
    match get "name" type with
    | JStr typeName =>
        St.when (negb (isBuiltInType typeName)) (addUsage typeName (get "loc" type))
    | _ => mret tt
    end
  else mret tt.

(** [a || b] *)
Definition orValue (a b : js) : js := if truthy a then a else b.

(** Lines 81 to 140: the type names this node refers to. *)
Definition classUsages (node : js) : SM Collected unit :=
  kind ← St.lift (prop "kind" node);
  let what := get "what" node in
  _ ← St.when (eqStr kind "parameter") (hintUsage node);
  _ ← St.when (eqStr kind "method") (hintUsage node);
  _ ← St.when (eqStr kind "new" && truthy what && truthy (get "name" what))
        (match get "name" what with
         | JStr className => addUsage className (get "loc" what)
         | _ => mret tt
         end);
  _ ← St.when (eqStr kind "staticlookup" && truthy what && truthy (get "name" what))
        (match get "name" what with
         | JStr className =>
             St.when (negb (String.eqb className "self")
                      && negb (String.eqb className "parent")
                      && negb (String.eqb className "static"))
                     (addUsage className (get "loc" what))
         | _ => mret tt
         end);
  _ ← St.when ((eqStr kind "class" || eqStr kind "interface")
               && truthy (get "extends" node))
        (let ext := get "extends" node in
         match orValue (get "name" ext) ext with
         | JStr extName => addUsage extName (orValue (get "loc" ext) (get "loc" node))
         | _ => mret tt
         end);
  _ ← St.when (eqStr kind "class" && truthy (get "implements" node))
        (Loop.forOf (fun impl =>
             n ← St.lift (prop "name" impl);
             match orValue n impl with
             | JStr implName =>
                 addUsage implName (orValue (get "loc" impl) (get "loc" node))
             | _ => mret tt
             end)
           (get "implements" node));
  St.when (eqStr kind "property") (hintUsage node).

(** Lines 77 to 150. *)
Fixpoint findClassUsagesNode (node : js) {struct node} : SM Collected unit :=
  match node with
  | JUndef | JNull => St.lift Throw
  | JObj fs =>
      _ ← classUsages node;
      _ ← Loop.onField "children" (Loop.nodes findClassUsagesNode) (mret tt) fs;
      _ ← Loop.onField "arguments" (Loop.nodes findClassUsagesNode) (mret tt) fs;
      _ ← Loop.onField "parameters" (Loop.nodes findClassUsagesNode) (mret tt) fs;
      Loop.onField "body"
        (fun body =>
           if isArray body then Loop.nodes findClassUsagesNode body
           else match body with
                | JObj bfs =>
                    Loop.onField "children" (Loop.nodes findClassUsagesNode)
                                 (mret tt) bfs
                | _ => mret tt
                end)
        (mret tt) fs
  | _ => mret tt
  end.

Definition findClassUsages (nodes : js) : SM Collected unit :=
  Loop.nodes findClassUsagesNode nodes.

(** [currentNamespace ? `${currentNamespace}\\${name}` : name] *)
Definition expectedFQN (currentNamespace : js) (n : string) : string :=
  if truthy currentNamespace then toStr currentNamespace ++ "\" ++ n else n.

(** Lines 165 to 172: is one of the definitions of the name in the
    namespace of the file? *)
Definition inSameNamespace (definitions : list Indexer.SymbolDef)
    (currentNamespace : js) (n : string) : res bool :=
  (fix some (defs : list Indexer.SymbolDef) : res bool :=
     match defs with
     | [] => Ok false
     | def :: rest =>
         hit ← match RefactorPreview.nonEmpty (Indexer.fqn def) with
               | Some fqn => Ok (String.eqb fqn (expectedFQN currentNamespace n))
               | None =>
                   ns ← str currentNamespace;
                   Ok (Str.includes (Str.join "/" (Str.split Str.backslash ns))
                                    (Indexer.path def))
               end;
         if (hit : bool) then Ok true else some rest
     end) definitions.

Definition missingImport (n : string) (r : Range) : Diagnostic :=
  {| range := r;
     message := "Class '" ++ n ++ "' is not imported. Add 'use' statement.";
     code := "missing-import";
     source := "php-tools" |}.

(** Lines 154 to 195: the diagnostics of one used class. *)
Definition checkUsed (ix : Indexer.Index) (c : Collected) (u : Usage)
  : res (list Diagnostic) :=
  if bool_decide (usedName u ∈ imports c) then Ok []
  else
    same ← inSameNamespace (Indexer.getDefinitions ix (usedName u))
                           (currentNamespace c) (usedName u);
    if (same : bool) then Ok []
    else if truthy (usedLoc u) then
      r ← rangeOfLoc (usedLoc u);
      Ok [missingImport (usedName u) r]
    else Ok [].

Fixpoint checkAll (ix : Indexer.Index) (c : Collected) (used : list Usage)
  : res (list Diagnostic) :=
  match used with
  | [] => Ok []
  | u :: rest =>
      here ← checkUsed ix c u;
      more ← checkAll ix c rest;
      Ok (here ++ more)%list
  end.

(** What the two traversals collect from a tree. *)
Definition collect (ast : js) : res Collected :=
  match (children ← St.lift (prop "children" ast);
         _ ← collectImports children;
         findClassUsages children) nothing with
  | (Ok _, c) => Ok c
  | (Throw, _) => Throw
  end.

(** [updateDiagnostics] on a PHP document: the diagnostics it sets for
    the document, [[]] when the text does not parse. *)
Definition updateDiagnostics (ix : Indexer.Index) (document : SourceFile)
  : res (list Diagnostic) :=
  match parsed document with
  | Throw => Ok []
  | Ok ast =>
      c ← collect ast;
      checkAll ix c (usedClasses c)
  end.


End ImportDiagnostics.

(** ** [models/User.php] and what the diagnostics collect from it *)

Module UserFixture.
Import ImportDiagnostics.

Definition profileDef : Indexer.SymbolDef :=
  {| Indexer.name := "Profile"; Indexer.path := "/ws/models/Profile.php";
     Indexer.kind := "class"; Indexer.range := None; Indexer.parent := None;
     Indexer.fqn := Some "app\models\Profile" |}.

(** An index that knows the class [app\models\Profile]. *)
Definition profileIndex : Indexer.Index :=
  Indexer.addDefinition "Profile" profileDef Indexer.empty.

Definition objectUsage : Usage :=
  {| usedName := "Object"; usedLoc := Ast.loc Ast.userText 5 19 5 25 |}.

Definition profileUsage : Usage :=
  {| usedName := "Profile"; usedLoc := Ast.loc Ast.userText 7 41 7 48 |}.

Definition userCollected : Collected :=
  {| imports := ∅; importedFQNs := ∅; currentNamespace := JStr "app\models";
     usedClasses := [objectUsage; profileUsage] |}.

End UserFixture.

(** ** What a computation keeps

    [keeps Inv m]: run in a state where [Inv] holds, [m] ends, with a
    result or with an exception, in a state where [Inv] holds. *)

Module Keeps.

Definition keeps {S A} (Inv : S -> Prop) (m : SM S A) : Prop :=
  forall s, Inv s -> Inv (m s).2.

End Keeps.

(** ** indexer.ts: the queries on the maps and the loop of the scan *)

Module IndexerApi.
Import Indexer.

(** [getSymbolsByKind]: the definitions of the given kinds.  The order
    of the answer is that of the entries of the map, which a finite map
    does not keep; what is said of the answer here does not depend on
    it. *)
Definition getSymbolsByKind (kinds : list string) (ix : Index) : list SymbolDef :=
  flat_map (fun kv => List.filter (fun d => existsb (String.eqb (kind d)) kinds) kv.2)
           (map_to_list (definitions ix)).

Definition getInheritanceInfo (ix : Index) (className : string)
  : option InheritanceInfo :=
  inheritance ix !! className.

(** The kinds under which [updateIndexForFile] files a definition. *)
Definition typeKinds : list string := ["class"; "interface"; "trait"].

(** An entry of the map of definitions under the key [k], as lines 286
    to 293 write it. *)
Definition definitionNamed (k : string) (d : SymbolDef) : Prop :=
  name d = k /\ kind d ∈ typeKinds /\ parent d = None
  /\ exists prefix, fqn d = Some (prefix ++ k).

(** An entry of the map of methods under the key [k], as lines 337 to
    350 write it. *)
Definition methodKeyed (k : string) (d : SymbolDef) : Prop :=
  kind d = "method" /\ fqn d = None
  /\ exists c, parent d = Some c /\ k = c ++ "::" ++ name d.

Definition entriesNamed (i : Index) : Prop :=
  (forall k d, d ∈ getDefinitions i k -> definitionNamed k d)
  /\ (forall k d, d ∈ getMethodDefinitions i k -> methodKeyed k d)
  /\ (forall k info, inheritance i !! k = Some info -> className info = k).

(** Every class of the inheritance map has a definition. *)
Definition inheritanceLive (i : Index) : Prop :=
  forall k, is_Some (inheritance i !! k) -> getDefinitions i k <> [].

(** The loop of lines 190 to 199 on the files and what reading each
    gives. *)
Definition scanEach (parse : string -> Uri) (work : list (Uri * res js)) (i : Index)
  : Index :=
  fold_left (fun i w => scanFile parse w.1 w.2 i) work i.

(** An invocation that gets the answers [answers] to its questions, one
    after the other, while nothing else calls the indexer: where it
    stands and the index then.  [None] when an answer is not one to the
    pending question or comes after the invocation has ended. *)
Fixpoint proceed (parse : string -> Uri) (answers : list Answer) (o : Outcome)
    (i : Index) : option (Outcome * Index) :=
  match answers with
  | [] => Some (o, i)
  | a :: more =>
      match o with
      | Running t =>
          match resume parse t a i with
          | Some (o', i') => proceed parse more o' i'
          | None => None
          end
      | Returned | Thrown => None
      end
  end.

End IndexerApi.

(** ** Reading the merged autoload table of psr4.ts *)

Module Autoloads.
Import Psr4.

(** [o[k]]: the value of the first entry of the key. *)
Fixpoint entry (k : string) (o : Psr4Table) : option Paths :=
  match o with
  | [] => None
  | (k', v) :: r => if String.eqb k k' then Some v else entry k r
  end.

(** The value of the last entry of the key. *)
Definition lastEntry (k : string) (o : Psr4Table) : option Paths :=
  entry k (rev o).

(** Every [c] of [s] replaced by [d]: what [s.split(c).join(d)] gives. *)
Fixpoint replaceAll (c d : ascii) (s : string) : string :=
  match s with
  | EmptyString => EmptyString
  | String a r => String (if Ascii.eqb a c then d else a) (replaceAll c d r)
  end.

End Autoloads.

(** ** importCodeActions.ts: the name to import for a definition *)

Module ImportCodeActions.
Import Indexer.

(** [arr.findIndex(p)]; [None] is [-1]. *)
Fixpoint findIndex {A} (p : A -> bool) (l : list A) : option nat :=
  match l with
  | [] => None
  | x :: r => if p x then Some O else S <$> findIndex p r
  end.

(** [arr.lastIndexOf(x)]; [None] is [-1]. *)
Fixpoint lastIndexOf (x : string) (l : list string) : option nat :=
  match l with
  | [] => None
  | y :: r =>
      match lastIndexOf x r with
      | Some i => Some (S i)
      | None => if String.eqb y x then Some O else None
      end
  end.

(** [arr.slice(start, -1)] for a [start] that is not negative. *)
Definition sliceButLast {A} (start : nat) (l : list A) : list A :=
  skipn start (removelast l).

(** [namespace ? `${namespace}\\${className}` : className] *)
Definition qualify (namespace className : string) : string :=
  if String.eqb namespace EmptyString then className
  else namespace ++ "\" ++ className.

(** [arr[i] === 'src' || arr[i] === 'lib'] *)
Definition isSourceRoot (l : list string) (i : nat) : bool :=
  match nth_error l i with
  | Some p => String.eqb p "src" || String.eqb p "lib"
  | None => false
  end.

(** [getFQNFromDefinition] *)
Definition getFQNFromDefinition (def : SymbolDef) (className : string) : string :=
  match RefactorPreview.nonEmpty (fqn def) with
  | Some fqn => fqn
  | None =>
      let pathParts := Str.split Str.slash (path def) in
      match findIndex (fun p => String.eqb p "src") pathParts with
      | Some srcIndex =>
          qualify (Str.join "\" (sliceButLast (S srcIndex) pathParts)) className
      | None =>
          match lastIndexOf "vendor" pathParts with
          | Some vendorIndex =>
              let startParts := (vendorIndex + 3)%nat in
              let startParts :=
                if isSourceRoot pathParts startParts then S startParts else startParts in
              qualify (Str.join "\" (sliceButLast startParts pathParts)) className
          | None => className
          end
      end
  end.

End ImportCodeActions.

(** ** The symbols a scan has found, next to what it has defined *)

Module ScanSymbols.
Import Indexer.

(** In the state of a traversal of the file [p]: the names under which
    the index holds a definition of the file are among the symbols found
    so far, and so are the names of [X]. *)
Definition definedAreFound (p : string) (X : gset string) (s : Scan) : Prop :=
  (forall k d, d ∈ getDefinitions (ix s) k -> path d = p -> k ∈ symbolsFound s)
  /\ X ⊆ symbolsFound s.

End ScanSymbols.

(** ** renameProvider.ts: the files a rename reads *)

Module RenameCandidates.
Import Vscode.

(** Lines 201 to 207: the files of the workspace, and the document of
    the cursor when no file of the workspace has its path. *)
Definition candidateFiles (document : SourceFile) (allPhpFiles : list SourceFile)
  : list SourceFile :=
  if existsb (fun f => String.eqb (fsPath f) (fsPath document)) allPhpFiles
  then allPhpFiles else (allPhpFiles ++ [document])%list.

End RenameCandidates.

(** ** How a call site is written in the text of its file *)

Module CallSites.
Import Vscode.

(** Does [text] go on with [sub] from the position [p]? *)
Definition writtenAt (sub text : string) (p : Position) : bool :=
  Str.startsWith sub (Str.drop (Z.to_nat (offsetAt text p)) text).

(** Is the name that starts at [p] written directly after [->] or
    [::], with nothing in between? *)
Definition followsOperator (name text : string) (p : Position) : bool :=
  let before := {| line := line p; character := character p - 2 |} in
  (2 <=? character p)
  && (writtenAt ("->" ++ name) text before || writtenAt ("::" ++ name) text before).

End CallSites.

(** ** Documents of declarations

    The declarations of a PHP file, typed, and the tree that the parser
    builds for them: what the diagnostics of missing imports are stated
    on.  The statements of method bodies and the members of a class
    that are not methods are kept as the parser gives them. *)

Module Declarations.
Import Js Node Vscode ImportDiagnostics.

(** Where something is written: lines count from 1 and columns from 0,
    as the parser counts them. *)
Record Place : Type := {
  fromLine : positive;
  fromColumn : N;
  toLine : positive;
  toColumn : N
}.

Definition locOf (text : string) (p : Place) : js :=
  Ast.loc text (Z.pos (fromLine p)) (Z.of_N (fromColumn p))
               (Z.pos (toLine p)) (Z.of_N (toColumn p)).


(** A type name where it is written. *)
Record TypeName : Type := { written : string; place : Place }.

(** A type hint.  The parser builds a [typereference] node for the type
    names of the language and a [name] node for any other; both carry
    the name written. *)
Inductive Hint : Type :=
| TypeReference (t : TypeName)
| NameReference (t : TypeName).


Record ParameterDecl : Type := {
  parameterPlace : Place;
  parameterNamePlace : Place;
  parameterName : string;
  parameterType : option Hint
}.

(** A method; [methodBody] is [None] for a method without a body, the
    place of the block and its statements otherwise. *)
Record MethodDecl : Type := {
  methodPlace : Place;
  methodNamePlace : Place;
  methodName : string;
  parameters : list ParameterDecl;
  returnType : option Hint;
  methodBody : option (Place * list js)
}.

Inductive Member : Type :=
| MethodMember (m : MethodDecl)
| OtherMember (node : js).

Record ClassDecl : Type := {
  classPlace : Place;
  classNamePlace : Place;
  className : string;
  extendsName : option TypeName;
  implementsNames : list TypeName;
  classMembers : list Member
}.

Record InterfaceDecl : Type := {
  interfacePlace : Place;
  interfaceNamePlace : Place;
  interfaceName : string;
  interfaceMembers : list Member
}.

Record UseItem : Type := {
  usePlace : Place;
  useName : string;
  useAlias : option (Place * string)
}.

Inductive Item : Type :=
| UseGroup (p : Place) (uses : list UseItem)
| Class (c : ClassDecl)
| Interface (i : InterfaceDecl).

(** A file: its text, its namespace statement if it has one, and what
    it declares, in the order of the text. *)
Record Document : Type := {
  text : string;
  programPlace : Place;
  namespaceName : option (Place * string);
  items : list Item
}.

(** *** The tree of a document *)

Section Tree.
Variable txt : string.

Definition hintNode (h : option Hint) : js :=
  match h with
  | None => JNull
  | Some (TypeReference t) => Ast.typereference (locOf txt (place t)) (written t)
  | Some (NameReference t) => Ast.name (locOf txt (place t)) (written t)
  end.

Definition nameNode (t : TypeName) : js :=
  Ast.name (locOf txt (place t)) (written t).

Definition parameterNode (p : ParameterDecl) : js :=
  Ast.parameter (locOf txt (parameterPlace p)) (locOf txt (parameterNamePlace p))
                (parameterName p) (hintNode (parameterType p)).

Definition bodyNode (b : option (Place * list js)) : js :=
  match b with
  | None => JNull
  | Some (p, statements) => Ast.block (locOf txt p) statements
  end.

Definition methodNode (m : MethodDecl) : js :=
  Ast.method (locOf txt (methodPlace m)) (locOf txt (methodNamePlace m))
             (methodName m) (map parameterNode (parameters m))
             (hintNode (returnType m)) (bodyNode (methodBody m)).

Definition memberNode (m : Member) : js :=
  match m with
  | MethodMember m => methodNode m
  | OtherMember n => n
  end.

Definition classNode (c : ClassDecl) : js :=
  Ast.class (locOf txt (classPlace c)) (locOf txt (classNamePlace c)) (className c)
            (match extendsName c with
             | Some t => nameNode t
             | None => JNull
             end)
            (match implementsNames c with
             | [] => JNull
             | l => JArr (map nameNode l)
             end)
            (map memberNode (classMembers c)).

Definition interfaceNode (i : InterfaceDecl) : js :=
  Ast.interface (locOf txt (interfacePlace i)) (locOf txt (interfaceNamePlace i))
                (interfaceName i) (map memberNode (interfaceMembers i)).

Definition useNode (u : UseItem) : js :=
  Ast.useitem (locOf txt (usePlace u)) (useName u)
              (match useAlias u with
               | Some (p, a) => Ast.identifier (locOf txt p) a
               | None => JNull
               end).

Definition itemNode (i : Item) : js :=
  match i with
  | UseGroup p uses => Ast.usegroup (locOf txt p) (map useNode uses)
  | Class c => classNode c
  | Interface i => interfaceNode i
  end.

End Tree.

Definition tree (d : Document) : js :=
  Ast.program (locOf (text d) (programPlace d))
    (match namespaceName d with
     | Some (p, ns) =>
         [Ast.namespace (locOf (text d) p) ns (map (itemNode (text d)) (items d))]
     | None => map (itemNode (text d)) (items d)
     end).

Definition fileOf (path : string) (d : Document) : SourceFile :=
  {| fsPath := path; content := Ok (text d); parsed := Ok (tree d) |}.

(** *** The type names that the declarations refer to *)

Inductive Role : Type :=
| ExtendsTarget
| ImplementsTarget
| ReturnHint
| ParameterHint.


Record Occurrence : Type := { role : Role; referred : TypeName }.








(** The namespace of the file as the sources hold it: the empty string
    when there is no namespace statement. *)
Definition namespaceOf (d : Document) : js :=
  match namespaceName d with
  | Some (_, ns) => JStr ns
  | None => JStr EmptyString
  end.


(** *** What is kept as the parser gives it *)

Definition memberRest (m : Member) : list js :=
  match m with
  | MethodMember m =>
      match methodBody m with
      | Some (_, statements) => statements
      | None => []
      end
  | OtherMember n => [n]
  end.

Definition itemRest (i : Item) : list js :=
  match i with
  | UseGroup _ _ => []
  | Class c => flat_map memberRest (classMembers c)
  | Interface i => flat_map memberRest (interfaceMembers i)
  end.

(** The statements of the method bodies and the members that are not
    methods. *)
Definition rest (d : Document) : list js := flat_map itemRest (items d).


(** *** The fixtures as documents *)

Definition at_ (l1 : positive) (c1 : N) (l2 : positive) (c2 : N) : Place :=
  {| fromLine := l1; fromColumn := c1; toLine := l2; toColumn := c2 |}.

(** [models/User.php] *)
Definition userDocument : Document :=
  {| text := Ast.userText;
     programPlace := at_ 1 0 11 0;
     namespaceName := Some (at_ 3 0 10 1, "app\models");
     items :=
       [Class
          {| classPlace := at_ 5 0 10 1; classNamePlace := at_ 5 6 5 10;
             className := "User";
             extendsName := Some {| written := "Object"; place := at_ 5 19 5 25 |};
             implementsNames := [];
             classMembers :=
               [MethodMember
                  {| methodPlace := at_ 7 4 9 5; methodNamePlace := at_ 7 20 7 26;
                     methodName := "rename";
                     parameters :=
                       [{| parameterPlace := at_ 7 27 7 39;
                           parameterNamePlace := at_ 7 34 7 39;
                           parameterName := "name";
                           parameterType :=
                             Some (TypeReference
                                     {| written := "string"; place := at_ 7 27 7 33 |}) |};
                        {| parameterPlace := at_ 7 41 7 57;
                           parameterNamePlace := at_ 7 49 7 57;
                           parameterName := "profile";
                           parameterType :=
                             Some (NameReference
                                     {| written := "Profile"; place := at_ 7 41 7 48 |}) |}];
                     returnType := None;
                     methodBody := Some (at_ 8 4 9 5, []) |}] |}] |}.

End Declarations.

(** ** What the traversal of the diagnostics keeps of a document *)

Module Kept.
Import Js Node Vscode ImportDiagnostics Declarations.





(** The occurrence is written with a character at least. *)
Definition named (o : Occurrence) : Prop := written (referred o) <> EmptyString.

(** *** The imports that a traversal adds *)





End Kept.

(** * Properties *)

(** ** The namespace resolver *)

Module Psr4Facts.
Import Psr4.

Lemma visitEntry_candidates sep relativeDir (entry : string * Paths) (best : Best) :
  visitEntry sep relativeDir best entry =
  fold_left (visitCandidate relativeDir)
    (map (fun p => (entry.1, normalizePrefix sep p)) (pathArray entry.2)) best.
Proof.
  unfold visitEntry.
  generalize (pathArray entry.2) as ps. intros ps. revert best.
  induction ps as [|p ps IH]; intros best; [reflexivity|].
  simpl. rewrite IH. reflexivity.
Qed.

Lemma findBestMatch_candidates sep relativeDir (autoloads : Psr4Table) (best : Best) :
  fold_left (visitEntry sep relativeDir) autoloads best =
  fold_left (visitCandidate relativeDir) (candidates sep autoloads) best.
Proof.
  revert best. induction autoloads as [|entry rest IH]; intros best.
  - reflexivity.
  - simpl. rewrite fold_left_app, <- visitEntry_candidates. apply IH.
Qed.

Lemma fold_visitCandidate_chosen relativeDir (cs : list (string * string)) :
  chosen relativeDir cs (fold_left (visitCandidate relativeDir) cs noMatch).
Proof.
  induction cs as [|c cs IH] using rev_ind.
  - left. split; [constructor | reflexivity].
  - rewrite fold_left_app. simpl.
    set (best := fold_left (visitCandidate relativeDir) cs noMatch) in *.
    unfold visitCandidate at 1.
    destruct (dirMatches relativeDir c.2) eqn:Hm.
    + destruct (bestMatchLength best <=? String.length c.2)%nat eqn:Hle.
      * apply Nat.leb_le in Hle.
        right. exists cs, c, []. repeat split; auto.
        destruct IH as [[Hnone _] | (before & c0 & after & -> & Hm0 & Hbest & Hb & Ha)].
        -- eapply Forall_impl; [exact Hnone|]. simpl. intros a Ha Ht. congruence.
        -- rewrite Hbest in Hle. simpl in Hle.
           apply Forall_app. split.
           ++ eapply Forall_impl; [exact Hb|]. simpl. intros a Ha' Ht.
              specialize (Ha' Ht). lia.
           ++ constructor; [intros _; exact Hle|].
              eapply Forall_impl; [exact Ha|]. simpl. intros a Ha' Ht.
              specialize (Ha' Ht). lia.
      * apply Nat.leb_gt in Hle.
        destruct IH as [[_ Hbest] | (before & c0 & after & -> & Hm0 & Hbest & Hb & Ha)].
        -- rewrite Hbest in Hle. simpl in Hle. lia.
        -- right. exists before, c0, (after ++ [c])%list.
           rewrite <- app_assoc. repeat split; auto.
           apply Forall_app. split; [exact Ha|].
           constructor; [|constructor]. intros _.
           rewrite Hbest in Hle. simpl in Hle. exact Hle.
    + destruct IH as [[Hnone Hbest] | (before & c0 & after & -> & Hm0 & Hbest & Hb & Ha)].
      * left. split; [|exact Hbest].
        apply Forall_app. split; [exact Hnone|]. constructor; [exact Hm|constructor].
      * right. exists before, c0, (after ++ [c])%list.
        rewrite <- app_assoc. repeat split; auto.
        apply Forall_app. split; [exact Ha|].
        constructor; [|constructor]. intros Ht. congruence.
Qed.

Lemma getNamespaceFromPath_resolved h filePath root composer :
  getWorkspaceFolder h filePath = Some root ->
  pathExists h (path_join h root "composer.json") = true ->
  readJson h (path_join h root "composer.json") = Ok composer ->
  getNamespaceFromPath h filePath =
  Some (Str.stripTrailing Str.backslash
          (bestMatchNamespace
             (fold_left (visitCandidate (relativeDirOf h root filePath))
                        (candidates (path_sep h) (autoloadsOf composer)) noMatch))).
Proof.
  intros Hws Hex Hread. unfold getNamespaceFromPath.
  rewrite Hws, Hex, Hread. simpl. unfold resolveIn, findBestMatch.
  rewrite findBestMatch_candidates. reflexivity.
Qed.

(** C5, as the code has it: when at least one configured directory
    matches the directory of the file, the result is the namespace of the
    matching entry whose directory is longest, the last one in
    iteration order among the longest, followed by the rest of the path
    with [/] turned into a backslash, and with one trailing backslash
    removed from the whole. *)
Theorem resolve_longest_prefix_last_wins h filePath root composer :
  getWorkspaceFolder h filePath = Some root ->
  pathExists h (path_join h root "composer.json") = true ->
  readJson h (path_join h root "composer.json") = Ok composer ->
  Exists (fun c => dirMatches (relativeDirOf h root filePath) c.2 = true)
         (candidates (path_sep h) (autoloadsOf composer)) ->
  exists before c after,
    candidates (path_sep h) (autoloadsOf composer) = (before ++ c :: after)%list
    /\ dirMatches (relativeDirOf h root filePath) c.2 = true
    /\ Forall (fun c' => dirMatches (relativeDirOf h root filePath) c'.2 = true ->
                         (String.length c'.2 <= String.length c.2)%nat) before
    /\ Forall (fun c' => dirMatches (relativeDirOf h root filePath) c'.2 = true ->
                         (String.length c'.2 < String.length c.2)%nat) after
    /\ getNamespaceFromPath h filePath =
       Some (Str.stripTrailing Str.backslash
               (namespaceOf (relativeDirOf h root filePath) c.1 c.2)).
Proof.
  intros Hws Hex Hread Hsome.
  rewrite (getNamespaceFromPath_resolved h filePath root composer Hws Hex Hread).
  destruct (fold_visitCandidate_chosen (relativeDirOf h root filePath)
              (candidates (path_sep h) (autoloadsOf composer)))
    as [[Hnone _] | (before & c & after & Hcs & Hm & Hbest & Hb & Ha)].
  - exfalso. apply Exists_exists in Hsome. destruct Hsome as (c & Hin & Hm).
    rewrite Forall_forall in Hnone. specialize (Hnone c Hin). congruence.
  - exists before, c, after. rewrite Hbest. simpl. auto.
Qed.

Lemma resolve_longest_prefix_last_wins_witness :
  exists before c after,
    candidates (path_sep nestedHost) (autoloadsOf composerNested)
    = (before ++ c :: after)%list
    /\ dirMatches (relativeDirOf nestedHost "/ws" "/ws/src/Domain/Model/User.php") c.2 = true
    /\ Forall (fun c' =>
                 dirMatches (relativeDirOf nestedHost "/ws" "/ws/src/Domain/Model/User.php") c'.2 = true ->
                 (String.length c'.2 <= String.length c.2)%nat) before
    /\ Forall (fun c' =>
                 dirMatches (relativeDirOf nestedHost "/ws" "/ws/src/Domain/Model/User.php") c'.2 = true ->
                 (String.length c'.2 < String.length c.2)%nat) after
    /\ getNamespaceFromPath nestedHost "/ws/src/Domain/Model/User.php" =
       Some (Str.stripTrailing Str.backslash
               (namespaceOf (relativeDirOf nestedHost "/ws" "/ws/src/Domain/Model/User.php") c.1 c.2)).
Proof.
  apply (resolve_longest_prefix_last_wins nestedHost "/ws/src/Domain/Model/User.php"
           "/ws" composerNested); try reflexivity.
  vm_compute. apply Exists_cons_hd. reflexivity.
Defined.

Example resolve_nested :
  getNamespaceFromPath nestedHost "/ws/src/Domain/Model/User.php"
  = Some "App\Domain\Model".
Proof. reflexivity. Qed.

(** C5 as the specification words it fails, in two ways.  With
    [{"App\\": "src/"}] and the file [src/Foo.php] the only entry
    matches, the prefix is [App\] and the rest of the path is empty, yet
    the result is [App].  With [Vendor\Package\] on [src] and [T\] on
    [src/tests], both entries match the file [src/tests/FooTest.php];
    the longer namespace prefix is [Vendor\Package\], and the result is
    that of [T\], whose directory is the longer one. *)
Lemma resolve_is_not_prefix_plus_remainder :
  let h := posixHost "/ws" (Some (Ok composerApp)) in
  let dir := relativeDirOf h "/ws" "/ws/src/Foo.php" in
  let dir' := relativeDirOf testsHost "/ws" "/ws/src/tests/FooTest.php" in
  (candidates (path_sep h) (autoloadsOf composerApp) = [("App\", "src")]
   /\ dirMatches dir "src" = true
   /\ namespaceOf dir "App\" "src" = "App\"
   /\ getNamespaceFromPath h "/ws/src/Foo.php" = Some "App"
   /\ getNamespaceFromPath h "/ws/src/Foo.php" <> Some (namespaceOf dir "App\" "src"))
  /\ (candidates (path_sep testsHost) (autoloadsOf composerTests)
      = [("Vendor\Package\", "src"); ("T\", "src/tests")]
      /\ dirMatches dir' "src" = true
      /\ dirMatches dir' "src/tests" = true
      /\ (String.length "T\" < String.length "Vendor\Package\")%nat
      /\ namespaceOf dir' "Vendor\Package\" "src" = "Vendor\Package\tests"
      /\ getNamespaceFromPath testsHost "/ws/src/tests/FooTest.php" = Some "T").
Proof. vm_compute. repeat split; first [discriminate | lia]. Qed.

(** The order of [Object.entries]: the array indices by value, then the
    other keys as they were created; a numeral with a leading zero is
    not an array index. *)
Example entries_order :
  map fst (entries [("b", OnePath "x"); ("10", OnePath "x"); ("a", OnePath "x");
                    ("9", OnePath "x"); ("01", OnePath "x"); ("0", OnePath "x")])
  = ["0"; "9"; "10"; "b"; "a"; "01"].
Proof. reflexivity. Qed.

(** The loop meets a prefix that is an array index before the others,
    wherever composer.json has it: of two entries on the same directory
    the one met last gives the result. *)
Example resolve_numbered :
  candidates (path_sep numberedHost) (autoloadsOf composerNumbered)
  = [("1", "src"); ("B", "src")]
  /\ getNamespaceFromPath numberedHost "/ws/src/Foo.php" = Some "B".
Proof. split; reflexivity. Qed.

(** C6, as the code has it: the result is [null] when the file is in no
    workspace folder, when there is no composer.json and when reading it
    fails; when composer.json is there and no configured directory
    matches, the result is the empty string, which is not [null]. *)
Theorem resolve_null_or_empty h filePath :
  (getWorkspaceFolder h filePath = None -> getNamespaceFromPath h filePath = None)
  /\ (forall root,
        getWorkspaceFolder h filePath = Some root ->
        pathExists h (path_join h root "composer.json") = false ->
        getNamespaceFromPath h filePath = None)
  /\ (forall root,
        getWorkspaceFolder h filePath = Some root ->
        pathExists h (path_join h root "composer.json") = true ->
        readJson h (path_join h root "composer.json") = Throw ->
        getNamespaceFromPath h filePath = None)
  /\ (forall root composer,
        getWorkspaceFolder h filePath = Some root ->
        pathExists h (path_join h root "composer.json") = true ->
        readJson h (path_join h root "composer.json") = Ok composer ->
        Forall (fun c => dirMatches (relativeDirOf h root filePath) c.2 = false)
               (candidates (path_sep h) (autoloadsOf composer)) ->
        getNamespaceFromPath h filePath = Some EmptyString).
Proof.
  repeat split.
  - intros Hws. unfold getNamespaceFromPath. rewrite Hws. reflexivity.
  - intros root Hws Hex. unfold getNamespaceFromPath. rewrite Hws, Hex. reflexivity.
  - intros root Hws Hex Hread. unfold getNamespaceFromPath.
    rewrite Hws, Hex, Hread. reflexivity.
  - intros root composer Hws Hex Hread Hnone.
    rewrite (getNamespaceFromPath_resolved h filePath root composer Hws Hex Hread).
    destruct (fold_visitCandidate_chosen (relativeDirOf h root filePath)
                (candidates (path_sep h) (autoloadsOf composer)))
      as [[_ ->] | (before & c & after & Hcs & Hm & _)]; [reflexivity|].
    exfalso. rewrite Forall_forall in Hnone.
    assert (Hin : c ∈ candidates (path_sep h) (autoloadsOf composer)).
    { rewrite Hcs. apply elem_of_app. right. apply elem_of_cons. left. reflexivity. }
    specialize (Hnone c Hin). congruence.
Qed.

Lemma resolve_null_or_empty_witness :
  getNamespaceFromPath bareHost "/ws/src/Foo.php" = None
  /\ getNamespaceFromPath appHost "/ws/lib/Foo.php" = Some EmptyString.
Proof.
  split.
  - apply (proj1 (proj2 (resolve_null_or_empty bareHost "/ws/src/Foo.php")) "/ws");
      reflexivity.
  - apply (proj2 (proj2 (proj2 (resolve_null_or_empty appHost "/ws/lib/Foo.php")))
             "/ws" composerApp); try reflexivity.
    vm_compute. repeat constructor.
Defined.

(** C6 as the specification words it fails: composer.json exists, no
    configured directory matches [lib], and the result is not [null]. *)
Lemma resolve_unmatched_is_not_null :
  pathExists appHost (path_join appHost "/ws" "composer.json") = true
  /\ Forall (fun c => dirMatches (relativeDirOf appHost "/ws" "/ws/lib/Foo.php") c.2 = false)
            (candidates (path_sep appHost) (autoloadsOf composerApp))
  /\ getNamespaceFromPath appHost "/ws/lib/Foo.php" <> None.
Proof. vm_compute. repeat split; repeat constructor; discriminate. Qed.

End Psr4Facts.

(** ** Method rename on the fixtures of the repository *)

Module RenameFacts.
Import Vscode Fixtures.

(** C1 (the code departs from it): the rename of [handle] from
    [ClassAwareTest.php], whose first class is [UserController], renames
    the definition of [OrderController::handle] (line 17 of the file) and
    the call [$this->handle()] inside [OrderController::execute] (line 23):
    [createMethodRenameEdit] renames every method of that name in the file
    and [findMethodUsages] accepts every receiver [$this], whatever the
    enclosing class.  In the second file only the call on the variable
    bound to [new UserController()] is renamed. *)
Theorem rename_handle_reaches_OrderController :
  RefactorPreview.createMethodRenameEdit classAwareFile "handle" "run"
    [classAwareFile; classAwareUsageFile]
  = Ok (Some
      [CallReplace (fsPath classAwareFile) (span 5 20 26) "run";
       CallReplace (fsPath classAwareFile) (span 16 20 26) "run";
       CallSet (fsPath classAwareFile)
         [replace (span 11 22 28) "run"; replace (span 22 22 28) "run"];
       CallSet (fsPath classAwareUsageFile) [replace (span 8 15 21) "run"]]).
Proof. vm_compute. reflexivity. Qed.

(** The rename provider on the same file, with the cursor on the
    definition of [UserController::handle]: nothing of [OrderController]
    is touched. *)
Example provider_keeps_OrderController :
  RenameProvider.provideRenameEdits Indexer.empty classAwareFile
    {| line := 5; character := 22 |} (Some "handle") "run" [classAwareFile]
  = Ok [CallReplace (fsPath classAwareFile) (span 5 20 26) "run"].
Proof. vm_compute. reflexivity. Qed.

(** C2 (the code departs from it): the rename of [log] with the cursor on
    [LoggerInterface::log] finds the two implementors in the index and
    renames the three definitions, and no call: the call
    [$logger->log(...)] of [Application::run], at line 32 of the file,
    whose receiver is a parameter typed [LoggerInterface], is left as it
    is, and so are the calls [$this->log(...)] of the implementors. *)
Theorem rename_log_misses_typed_calls :
  RenameProvider.target loggerIndex loggerFile {| line := 5; character := 21 |}
    "log" "write"
  = {| RenameProvider.oldName := "log"; RenameProvider.newName := "write";
       RenameProvider.isMethodRename := true;
       RenameProvider.targetClassName := JStr "LoggerInterface";
       RenameProvider.targetType := JStr "interface";
       RenameProvider.targetImplementations :=
         Indexer.getImplementations loggerIndex "LoggerInterface" |}
  /\ (forall c, In c (Indexer.getImplementations loggerIndex "LoggerInterface")
                <-> c = "FileLogger" \/ c = "DatabaseLogger")
  /\ RenameProvider.provideRenameEdits loggerIndex loggerFile
       {| line := 5; character := 21 |} (Some "log") "write" [loggerFile]
     = Ok [CallReplace (fsPath loggerFile) (span 5 20 23) "write";
           CallReplace (fsPath loggerFile) (span 10 20 23) "write";
           CallReplace (fsPath loggerFile) (span 20 20 23) "write"].
Proof.
  split; [vm_compute; reflexivity|]. split; [|vm_compute; reflexivity].
  intros c.
  replace (Indexer.getImplementations loggerIndex "LoggerInterface")
    with ["FileLogger"; "DatabaseLogger"] by (vm_compute; reflexivity).
  simpl. intuition congruence.
Qed.

(** The call that the claim names is one that the type-aware analysis of
    the other rename path accepts. *)
Example preview_renames_typed_call :
  RefactorPreview.findMethodUsages Ast.loggerTest "App\Test\LoggerInterface"
    "log" "write"
  = Ok [replace (span 15 15 18) "write"; replace (span 25 15 18) "write";
        replace (span 31 17 20) "write"].
Proof. vm_compute. reflexivity. Qed.

End RenameFacts.

(** ** File move on hand-written files *)

Module MoveFacts.
Import Vscode Fixtures.

(** C3 (the code departs from it): [X] moves into the namespace of
    [Consumer.php], whose two import statements share a line.  Both name
    a class [X], both are taken for redundant, and the line is deleted
    twice: two edits of one file on the same range. *)
Theorem move_deletes_one_line_twice :
  RefactorPreview.findAndUpdateImports Ast.consumer Ast.consumerText moveX
  = Ok (Some [delete importLine; delete importLine])
  /\ overlap importLine importLine = true
  /\ RefactorPreview.updateImportsInOtherFiles moveX "/ws/src/Utils/X.php" []
       [consumerFile]
     = [CallSet (fsPath consumerFile) [delete importLine; delete importLine]].
Proof. vm_compute. repeat split. Qed.

(** C7 (the code departs from it): [Report.php] is in the old namespace
    of [X], imports nothing and instantiates [X] in a method body; no
    import is inserted, because the search for usages does not descend
    into the expression of a statement.  [Mailer.php], which names [X] as
    a parameter type, gets the import. *)
Theorem move_misses_instantiation :
  RefactorPreview.findAndUpdateImports Ast.report Ast.reportText moveX = Ok None
  /\ RefactorPreview.findAndUpdateImports Ast.mailer Ast.mailerText moveX
     = Ok (Some [insert {| line := 3; character := 0 |}
                        ("use A\Utils\X;" ++ Ast.newline)])
  /\ RefactorPreview.updateImportsInOtherFiles moveX "/ws/src/Utils/X.php" []
       [reportFile; mailerFile]
     = [CallSet (fsPath mailerFile)
          [insert {| line := 3; character := 0 |} ("use A\Utils\X;" ++ Ast.newline)]].
Proof. vm_compute. repeat split. Qed.

End MoveFacts.

(** ** The textual pre-filter of the method rename *)

Module PrefilterFacts.
Import Vscode Fixtures RefactorPreview CallSites.

Lemma scanFile_appends cls old new edit file :
  scanFile cls old new edit file = (edit ++ callsOf cls old new file)%list.
Proof.
  unfold callsOf, scanFile.
  destruct (_ ← content file; fileAst ← parsed file; findMethodUsages fileAst cls old new)
    as [[|e es]|]; simpl; auto using app_nil_r.
  all: symmetry; apply app_nil_r.
Qed.

Lemma scanFiles_flat_map cls old new files : forall edit,
  scanFiles cls old new edit files
  = (edit ++ flat_map (callsOf cls old new) files)%list.
Proof.
  unfold scanFiles. induction files as [|f files IH]; intros edit; simpl.
  - symmetry. apply app_nil_r.
  - rewrite IH, scanFile_appends, <- app_assoc. reflexivity.
Qed.

(** X14.  With the pre-filter the files that hold neither text are
    skipped and nothing else changes: the calls made are a subsequence of
    those of the analysis of every file. *)
Lemma prefilter_subsequence cls old new edit files :
  scanFiles cls old new edit (filesToScan old files)
  `sublist_of` scanFiles cls old new edit files.
Proof.
  rewrite !scanFiles_flat_map. apply sublist_app; [reflexivity|].
  unfold filesToScan. induction files as [|f files IH]; simpl; [constructor|].
  destruct (mentions old f); simpl.
  - apply sublist_app; [reflexivity | exact IH].
  - apply sublist_inserts_l. exact IH.
Qed.

(** Whatever the files hold, the pre-filter changes nothing when it
    keeps every file in which the analysis accepts a call site. *)
Lemma prefilter_exact_of_mentions file old new phpFiles :
  (forall f, In f phpFiles ->
             acceptsCall file old new f = true -> mentions old f = true) ->
  createMethodRenameEdit file old new phpFiles
  = renameOnEveryFile file old new phpFiles.
Proof.
  intros Hmentioned. unfold createMethodRenameEdit, renameOnEveryFile.
  unfold acceptsCall in Hmentioned.
  destruct (renameTarget file old new) as [[[cls edit]|]|]; simpl; try reflexivity.
  do 2 f_equal. rewrite !scanFiles_flat_map. f_equal.
  unfold filesToScan.
  induction phpFiles as [|f files IH]; simpl; [reflexivity|].
  assert (Hrest : flat_map (callsOf cls old new) (List.filter (fun f => mentions old f) files)
                  = flat_map (callsOf cls old new) files).
  { apply IH. intros g Hg. apply Hmentioned. right. exact Hg. }
  destruct (mentions old f) eqn:Hm; simpl.
  - rewrite Hrest. reflexivity.
  - rewrite Hrest.
    specialize (Hmentioned f (or_introl eq_refl)).
    destruct (callsOf cls old new f); [reflexivity|].
    specialize (Hmentioned eq_refl). congruence.
Qed.

Lemma includes_drop sub n : forall s,
  Str.startsWith sub (Str.drop n s) = true -> Str.includes sub s = true.
Proof.
  unfold Str.startsWith. induction n as [|n IH]; intros s Hs.
  - destruct s; simpl in *; by rewrite Hs.
  - destruct s as [|a r]; simpl in *; [by rewrite Hs|].
    rewrite (IH r Hs). apply orb_true_r.
Qed.

Lemma followsOperator_mentions old f txt p :
  content f = Ok txt -> followsOperator old txt p = true -> mentions old f = true.
Proof.
  intros Hc Hp. unfold mentions. rewrite Hc.
  unfold followsOperator, writtenAt in Hp.
  apply andb_true_iff in Hp as [_ Hp].
  apply orb_true_iff in Hp as [Hp|Hp]; apply includes_drop in Hp; rewrite Hp;
    [done|apply orb_true_r].
Qed.

Lemma callsOf_cases cls old new f :
  callsOf cls old new f = []
  \/ exists e es, callsOf cls old new f = [CallSet (fsPath f) (e :: es)].
Proof.
  unfold callsOf, scanFile.
  destruct (_ ← content f; fileAst ← parsed f; findMethodUsages fileAst cls old new)
    as [[|e es]|]; simpl; eauto.
Qed.

(** C9, as the code has it: the rename with the textual pre-filter gives
    the edits of the analysis of every file when, in every file in which
    the analysis accepts call sites, one of them is written with the
    method name directly after [->] or [::]. *)
Theorem prefilter_exact_when_calls_are_plain file old new phpFiles :
  (forall cls edit f edits,
      renameTarget file old new = Ok (Some (cls, edit)) ->
      In f phpFiles ->
      callsOf cls old new f = [CallSet (fsPath f) edits] ->
      exists txt e,
        content f = Ok txt /\ e ∈ edits
        /\ followsOperator old txt (start (range e)) = true) ->
  createMethodRenameEdit file old new phpFiles
  = renameOnEveryFile file old new phpFiles.
Proof.
  intros Hplain. apply prefilter_exact_of_mentions.
  intros f Hf Hacc. unfold acceptsCall in Hacc.
  destruct (renameTarget file old new) as [[[cls edit]|]|] eqn:Ht; try done.
  destruct (callsOf_cases cls old new f) as [Hnil|(e & es & Hcalls)];
    [by rewrite Hnil in Hacc|].
  destruct (Hplain cls edit f (e :: es) eq_refl Hf Hcalls) as (txt & e' & Hc & _ & Hp).
  by eapply followsOperator_mentions.
Qed.

Lemma prefilter_exact_when_calls_are_plain_witness :
  createMethodRenameEdit classAwareFile "handle" "run"
    [classAwareFile; classAwareUsageFile]
  = renameOnEveryFile classAwareFile "handle" "run"
      [classAwareFile; classAwareUsageFile].
Proof.
  apply (prefilter_exact_when_calls_are_plain classAwareFile "handle" "run"
           [classAwareFile; classAwareUsageFile]).
  intros cls edit f edits Ht Hf Hcalls.
  vm_compute in Ht. injection Ht as <- _.
  destruct Hf as [<-|[<-|[]]]; vm_compute in Hcalls; injection Hcalls as <-.
  - exists Ast.classAwareText, (replace (span 11 22 28) "run").
    split; [reflexivity|]. split; [left|]. vm_compute. reflexivity.
  - exists Ast.classAwareUsageText, (replace (span 8 15 21) "run").
    split; [reflexivity|]. split; [left|]. vm_compute. reflexivity.
Defined.

(** The call of [Spaced.php] is not written in this way: a space
    follows its arrow. *)
Example spaced_call_is_not_plain :
  followsOperator "handle" Ast.spacedText {| line := 8; character := 20 |} = false.
Proof. reflexivity. Qed.

(** C9 as the specification words it fails: [Spaced.php] calls
    [$c-> handle()] on a parameter typed [UserController]; its text holds
    neither [->handle] nor [::handle], the analysis accepts the call, and
    the rename with the pre-filter lacks the edit that the analysis of
    every file produces. *)
Lemma prefilter_drops_spaced_call :
  mentions "handle" spacedFile = false
  /\ findMethodUsages Ast.spaced "App\Test\UserController" "handle" "run"
     = Ok [replace (span 8 20 26) "run"]
  /\ createMethodRenameEdit classAwareFile "handle" "run" [classAwareFile; spacedFile]
     = Ok (Some
         [CallReplace (fsPath classAwareFile) (span 5 20 26) "run";
          CallReplace (fsPath classAwareFile) (span 16 20 26) "run";
          CallSet (fsPath classAwareFile)
            [replace (span 11 22 28) "run"; replace (span 22 22 28) "run"]])
  /\ renameOnEveryFile classAwareFile "handle" "run" [classAwareFile; spacedFile]
     = Ok (Some
         [CallReplace (fsPath classAwareFile) (span 5 20 26) "run";
          CallReplace (fsPath classAwareFile) (span 16 20 26) "run";
          CallSet (fsPath classAwareFile)
            [replace (span 11 22 28) "run"; replace (span 22 22 28) "run"];
          CallSet (fsPath spacedFile) [replace (span 8 20 26) "run"]]).
Proof. vm_compute. repeat split. Qed.

End PrefilterFacts.

(** ** The symbol index *)

Module IndexFacts.
Import Js Node Indexer.

(** *** The traversal only writes *)

Lemma applyWrites_app ws1 ws2 i :
  applyWrites (ws1 ++ ws2) i = applyWrites ws2 (applyWrites ws1 i).
Proof. apply fold_left_app. Qed.

Lemma definitionKeys_app ws1 ws2 :
  definitionKeys (ws1 ++ ws2) = (definitionKeys ws1 ++ definitionKeys ws2)%list.
Proof. apply flat_map_app. Qed.

Lemma inheritanceKeys_app ws1 ws2 :
  inheritanceKeys (ws1 ++ ws2) = (inheritanceKeys ws1 ++ inheritanceKeys ws2)%list.
Proof. apply flat_map_app. Qed.

Lemma writesOnly_ret {A} p (a : A) : writesOnly p (mret a).
Proof.
  intros ns. exists [], (Ok a), ns, ∅. (split; [by constructor|split; [done|]]).
  intros i found. by rewrite (left_id_L ∅ (∪)).
Qed.

Lemma writesOnly_lift {A} p (r : res A) : writesOnly p (St.lift r).
Proof.
  intros ns. exists [], r, ns, ∅. (split; [by constructor|split; [done|]]).
  intros i found. by rewrite (left_id_L ∅ (∪)).
Qed.

Lemma writesOnly_bind {A B} p (m : SM Scan A) (k : A -> SM Scan B) :
  writesOnly p m -> (forall a, writesOnly p (k a)) -> writesOnly p (m ≫= k).
Proof.
  intros Hm Hk ns.
  destruct (Hm ns) as (ws1 & r1 & ns1 & syms1 & Hf1 & Hc1 & Hrun1).
  destruct r1 as [a|].
  - destruct (Hk a ns1) as (ws2 & r2 & ns2 & syms2 & Hf2 & Hc2 & Hrun2).
    exists (ws1 ++ ws2)%list, r2, ns2, (syms2 ∪ syms1). repeat split.
    + by apply Forall_app.
    + rewrite inheritanceKeys_app, definitionKeys_app.
      intros x [Hx|Hx]%elem_of_app; apply elem_of_app; [left|right]; auto.
    + intros i found. unfold mbind, SM_bind. rewrite Hrun1, Hrun2.
      by rewrite applyWrites_app, (assoc_L (∪)).
  - exists ws1, Throw, ns1, syms1. repeat split; auto.
    intros i found. unfold mbind, SM_bind. by rewrite Hrun1.
Qed.

Lemma writesOnly_when p (b : bool) (m : SM Scan unit) :
  writesOnly p m -> writesOnly p (St.when b m).
Proof. destruct b; [done|]. intros _. apply writesOnly_ret. Qed.

Lemma writesOnly_addSymbol p sym : writesOnly p (addSymbol sym).
Proof.
  intros ns. exists [], (Ok tt), ns, {[sym]}. (split; [by constructor|split; [done|]]).
  intros i found. reflexivity.
Qed.

Lemma writesOnly_setNamespace p n : writesOnly p (setNamespace n).
Proof.
  intros ns. exists [], (Ok tt), n, ∅. (split; [by constructor|split; [done|]]).
  intros i found. by rewrite (left_id_L ∅ (∪)).
Qed.

Lemma writesOnly_getNamespace p : writesOnly p getNamespace.
Proof.
  intros ns. exists [], (Ok ns), ns, ∅. (split; [by constructor|split; [done|]]).
  intros i found. by rewrite (left_id_L ∅ (∪)).
Qed.

Lemma writesOnly_addMethod p key def :
  path def = p -> writesOnly p (onIndex (addMethod key def)).
Proof.
  intros Hp ns. exists [WriteMethod key def], (Ok tt), ns, ∅.
  (split; [by repeat constructor|split; [done|]]).
  intros i found. by rewrite (left_id_L ∅ (∪)).
Qed.

Lemma writesOnly_forEach p (f : js -> SM Scan unit) l :
  (forall x, x ∈ l -> writesOnly p (f x)) -> writesOnly p (Loop.forEach f l).
Proof.
  induction l as [|x l IH]; intros Hf; simpl.
  - apply writesOnly_ret.
  - apply writesOnly_bind; [apply Hf; left|].
    intros _. apply IH. intros y Hy. apply Hf. by right.
Qed.

Lemma writesOnly_forOf p (f : js -> SM Scan unit) v :
  (forall x, writesOnly p (f x)) -> writesOnly p (Loop.forOf f v).
Proof.
  intros Hf. destruct v; simpl; try apply writesOnly_lift;
    apply writesOnly_forEach; auto.
Qed.

Lemma writesOnly_onField p (k : string) (f : js -> SM Scan unit) d fs :
  writesOnly p d ->
  (forall kv, kv ∈ fs -> writesOnly p (f kv.2)) ->
  writesOnly p (Loop.onField k f d fs).
Proof.
  intros Hd. induction fs as [|[k' v] fs IH]; intros Hf; simpl; [done|].
  destruct (String.eqb k k').
  - apply (Hf (k', v)). left.
  - apply IH. intros kv Hkv. apply Hf. by right.
Qed.

Lemma writesOnly_nodes p (f : js -> SM Scan unit) v :
  (forall l, v = JArr l -> forall x, x ∈ l -> writesOnly p (f x)) ->
  writesOnly p (Loop.nodes f v).
Proof.
  intros Hf. unfold Loop.nodes. destruct (truthy v); [|apply writesOnly_ret].
  destruct v; simpl; try apply writesOnly_lift; try apply writesOnly_ret.
  apply writesOnly_forEach. eauto.
Qed.


Lemma writesOnly_indexMethod p className bodyNode :
  writesOnly p (indexMethod p className bodyNode).
Proof.
  unfold indexMethod. apply writesOnly_bind; [apply writesOnly_lift|].
  intros isMethod. apply writesOnly_when.
  apply writesOnly_bind; [apply writesOnly_lift|]. intros methodName.
  apply writesOnly_bind; [apply writesOnly_lift|]. intros methodRange.
  by apply writesOnly_addMethod.
Qed.

Lemma writesOnly_traverseBody p className bodyNodes :
  writesOnly p (traverseBody p className bodyNodes).
Proof.
  unfold traverseBody. destruct (truthy bodyNodes); [|apply writesOnly_ret].
  apply writesOnly_forOf. intros x. apply writesOnly_indexMethod.
Qed.

Lemma writesOnly_indexType p node : writesOnly p (indexType p node).
Proof.
  intros ns. unfold indexType.
  destruct (nameOf node ≫= str) as [c|] eqn:Hname.
  2:{ exists [], Throw, ns, ∅. split; [by constructor|split; [done|]].
      intros i found. by rewrite (left_id_L ∅ (∪)). }
  destruct (rangeOf node) as [rg|] eqn:Hrange.
  2:{ exists [], Throw, ns, {[c]}. split; [by constructor|split; [done|]].
      intros i found. reflexivity. }
  set (def := {| name := c; path := p; kind := toStr (get "kind" node); range := rg;
                 parent := None;
                 fqn := Some (if truthy ns then toStr ns ++ "\" ++ c else c) |}).
  destruct (extendsOf node) as [ext|] eqn:Hext.
  2:{ exists [WriteDefinition c def], Throw, ns, {[c]}.
      split; [by repeat constructor|split; [set_solver|]].
      intros i found. reflexivity. }
  destruct (implementsOf node) as [impls|] eqn:Himpls.
  2:{ exists [WriteDefinition c def], Throw, ns, {[c]}.
      split; [by repeat constructor|split; [set_solver|]].
      intros i found. reflexivity. }
  set (info := {| className := c; extends := ext; implements := impls |}).
  set (tail := if truthy (get "body" node)
               then if isArray (get "body" node)
                    then traverseBody p c (get "body" node)
                    else if truthy (get "children" (get "body" node))
                         then traverseBody p c (get "children" (get "body" node))
                         else mret ()
               else mret ()).
  assert (Htail : writesOnly p tail).
  { unfold tail. repeat case_match;
      first [apply writesOnly_traverseBody | apply writesOnly_ret]. }
  destruct (Htail ns) as (ws & r & ns' & syms & Hf & Hc & Hrun).
  exists (WriteDefinition c def :: WriteInheritance c info :: ws), r, ns', (syms ∪ {[c]}).
  split; [by repeat constructor|]. split.
  { simpl. intros x [->|Hx]%elem_of_cons; [left|right; auto]. }
  intros i found. unfold mbind, SM_bind. simpl.
  fold tail. rewrite Hrun. by rewrite (assoc_L (∪)).
Qed.

Lemma writesOnly_indexUse p item : writesOnly p (indexUse item).
Proof.
  unfold indexUse. apply writesOnly_bind; [apply writesOnly_lift|].
  intros n. apply writesOnly_addSymbol.
Qed.


Lemma size_element x l : x ∈ l -> (size x < size (JArr l))%nat.
Proof.
  induction 1 as [x l|x y l _ IH]; simpl in *; lia.
Qed.

Lemma size_field kv fs : kv ∈ fs -> (size kv.2 < size (JObj fs))%nat.
Proof.
  induction 1 as [[k x] fs|[k x] [k' y] fs _ IH]; simpl in *; lia.
Qed.

Lemma writesOnly_traverseNode p node : writesOnly p (traverseNode p node).
Proof.
  remember (size node) as n eqn:Hn. revert node Hn.
  induction n as [n IH] using lt_wf_ind. intros node ->.
  assert (Hsub : forall fs kv l x,
             node = JObj fs -> kv ∈ fs -> kv.2 = JArr l -> x ∈ l ->
             writesOnly p (traverseNode p x)).
  { intros fs kv l x -> Hkv Hl Hx. eapply IH; [|reflexivity].
    pose proof (size_field _ _ Hkv) as H1. rewrite Hl in H1.
    pose proof (size_element _ _ Hx). lia. }
  assert (Hsub2 : forall fs kv bfs kv' l x,
             node = JObj fs -> kv ∈ fs -> kv.2 = JObj bfs -> kv' ∈ bfs ->
             kv'.2 = JArr l -> x ∈ l -> writesOnly p (traverseNode p x)).
  { intros fs kv bfs kv' l x -> Hkv Hb Hkv' Hl Hx. eapply IH; [|reflexivity].
    pose proof (size_field _ _ Hkv) as H1. rewrite Hb in H1.
    pose proof (size_field _ _ Hkv') as H2. rewrite Hl in H2.
    pose proof (size_element _ _ Hx). lia. }
  destruct node as [| | | | | l | fs]; simpl;
    try apply writesOnly_ret; try apply writesOnly_lift.
  apply writesOnly_bind; [apply writesOnly_when, writesOnly_setNamespace|]. intros _.
  apply writesOnly_bind.
  { repeat case_match.
    - apply writesOnly_indexType.
    - apply writesOnly_forOf. intros x. apply writesOnly_indexUse.
    - apply writesOnly_bind; [apply writesOnly_lift|]. intros s.
      apply writesOnly_addSymbol.
    - apply writesOnly_ret. }
  intros _. apply writesOnly_bind.
  { apply writesOnly_onField; [apply writesOnly_ret|]. intros kv Hkv.
    apply writesOnly_nodes. intros l Hl x Hx. eauto. }
  intros _. apply writesOnly_onField; [apply writesOnly_ret|]. intros kv Hkv.
  destruct (isArray kv.2).
  - apply writesOnly_nodes. intros l Hl x Hx. eauto.
  - destruct kv.2 as [| | | | | |bfs] eqn:Hbody; try apply writesOnly_ret.
    apply writesOnly_onField; [apply writesOnly_ret|]. intros kv' Hkv'.
    apply writesOnly_nodes. intros l Hl x Hx. eauto.
Qed.

Lemma writesOnly_traverse p nodes : writesOnly p (traverse p nodes).
Proof.
  unfold traverse. apply writesOnly_nodes. intros l _ x _.
  apply writesOnly_traverseNode.
Qed.


(** *** What the writes do to each map *)

Lemma applyWrites_frame ws : forall i,
  index (applyWrites ws i) = index i
  /\ files (applyWrites ws i) = files i
  /\ isIndexing (applyWrites ws i) = isIndexing i.
Proof.
  induction ws as [|w ws IH]; intros i; simpl; [done|].
  destruct (IH (applyWrite i w)) as (-> & -> & ->). by destruct w.
Qed.

Lemma lookup_definitions_applyWrites k ws : forall i,
  definitions (applyWrites ws i) !! k
  = pushed (definitions i !! k) (definitionsFor k ws).
Proof.
  induction ws as [|w ws IH]; intros i; simpl; [done|].
  rewrite IH. destruct w as [key def|key def|key info]; simpl; try done.
  unfold pushDef. destruct (String.eqb_spec k key) as [->|Hne].
  - rewrite lookup_insert_eq. simpl.
    destruct (definitionsFor key ws); simpl; [done|]. by rewrite <- app_assoc.
  - by rewrite lookup_insert_ne.
Qed.

Lemma lookup_methods_applyWrites k ws : forall i,
  methods (applyWrites ws i) !! k
  = pushed (methods i !! k) (methodsFor k ws).
Proof.
  induction ws as [|w ws IH]; intros i; simpl; [done|].
  rewrite IH. destruct w as [key def|key def|key info]; simpl; try done.
  unfold pushDef. destruct (String.eqb_spec k key) as [->|Hne].
  - rewrite lookup_insert_eq. simpl.
    destruct (methodsFor key ws); simpl; [done|]. by rewrite <- app_assoc.
  - by rewrite lookup_insert_ne.
Qed.

Lemma lookup_inheritance_applyWrites k ws : forall i,
  inheritance (applyWrites ws i) !! k
  = match last (inheritanceFor k ws) with
    | Some info => Some info
    | None => inheritance i !! k
    end.
Proof.
  induction ws as [|w ws IH]; intros i; simpl; [done|].
  rewrite IH. destruct w as [key def|key def|key info]; simpl; try done.
  destruct (String.eqb_spec k key) as [->|Hne].
  - simpl. rewrite lookup_insert_eq.
    destruct (inheritanceFor key ws) as [|x l] eqn:Hl; simpl; [done|].
    destruct (last (x :: l)) eqn:E; [done|]. by apply last_None in E.
  - by rewrite lookup_insert_ne.
Qed.

Lemma definitionsFor_path p k ws :
  Forall (writtenFor p) ws -> Forall (fun d => path d = p) (definitionsFor k ws).
Proof.
  induction 1 as [|w ws Hw _ IH]; simpl; [constructor|].
  apply Forall_app. split; [|done].
  destruct w; try constructor. destruct (String.eqb k key); by repeat constructor.
Qed.

Lemma methodsFor_path p k ws :
  Forall (writtenFor p) ws -> Forall (fun d => path d = p) (methodsFor k ws).
Proof.
  induction 1 as [|w ws Hw _ IH]; simpl; [constructor|].
  apply Forall_app. split; [|done].
  destruct w; try constructor. destruct (String.eqb k key); by repeat constructor.
Qed.


(** *** Removing the entries of a file *)

Lemma filter_keeps_all {A} (f : A -> bool) l :
  length (List.filter f l) = length l -> List.filter f l = l.
Proof.
  induction l as [|a l IH]; simpl; [done|].
  pose proof (List.filter_length_le f l).
  destruct (f a); simpl; intros Hlen; [f_equal; apply IH|]; lia.
Qed.

Lemma dropPath_filter p l :
  dropPath p l = List.filter (fun d => negb (String.eqb (path d) p)) l.
Proof.
  unfold dropPath.
  destruct (Nat.ltb_spec (length (List.filter (fun d => negb (String.eqb (path d) p)) l))
                         (length l)) as [|Hge]; [done|].
  symmetry. apply filter_keeps_all.
  pose proof (List.filter_length_le (fun d => negb (String.eqb (path d) p)) l). lia.
Qed.

Lemma filter_idem {A} (f : A -> bool) l :
  List.filter f (List.filter f l) = List.filter f l.
Proof.
  induction l as [|a l IH]; simpl; [done|].
  destruct (f a) eqn:Hf; simpl; [rewrite Hf; by f_equal|done].
Qed.

Lemma dropPath_idem p l : dropPath p (dropPath p l) = dropPath p l.
Proof. rewrite !dropPath_filter. apply filter_idem. Qed.

Lemma dropPath_written p l :
  Forall (fun d => path d = p) l -> dropPath p l = [].
Proof.
  rewrite dropPath_filter. induction 1 as [|d l Hd _ IH]; simpl; [done|].
  rewrite Hd, String.eqb_refl. exact IH.
Qed.

Lemma dropPath_app p l1 l2 :
  dropPath p (l1 ++ l2) = (dropPath p l1 ++ dropPath p l2)%list.
Proof. rewrite !dropPath_filter. apply List.filter_app. Qed.

(** The entries that remain of a key once the file is removed. *)
Lemma dropPath_rest p (o : option (list SymbolDef)) l :
  Forall (fun d => path d = p) l ->
  dropPath p (default [] (dropPath p <$> o) ++ l) = default [] (dropPath p <$> o).
Proof.
  intros Hl. rewrite dropPath_app, (dropPath_written p l Hl), app_nil_r.
  destruct o; simpl; [apply dropPath_idem|done].
Qed.

Lemma forallb_dropPath p l :
  forallb (fun d => String.eqb (path d) p) (dropPath p l)
  = match dropPath p l with [] => true | _ => false end.
Proof.
  rewrite dropPath_filter.
  induction l as [|d l IH]; simpl; [done|].
  destruct (String.eqb (path d) p) eqn:Hd; simpl; [exact IH|by rewrite Hd].
Qed.

(** *** Committing the symbols of a file *)

Lemma lookup_commit uriStr (syms : gset string) (m : gmap string (gset string)) :
  forall k,
    set_fold (addUsage uriStr) m syms !! k
    = if decide (k ∈ syms) then Some (default ∅ (m !! k) ∪ {[uriStr]}) else m !! k.
Proof.
  set (P := fun (r : gmap string (gset string)) (X : gset string) =>
              forall k, r !! k = if decide (k ∈ X)
                                 then Some (default ∅ (m !! k) ∪ {[uriStr]})
                                 else m !! k).
  assert (Hempty : P m ∅).
  { intros k. rewrite decide_False; [done|apply not_elem_of_empty]. }
  assert (Hstep : forall x X r, x ∉ X -> P r X -> P (addUsage uriStr x r) ({[x]} ∪ X)).
  { intros x X r Hx IH k. unfold addUsage.
    destruct (decide (k = x)) as [->|Hne].
    - rewrite lookup_insert_eq.
      rewrite decide_True; [|by apply elem_of_union_l, elem_of_singleton].
      rewrite IH. by rewrite decide_False.
    - rewrite lookup_insert_ne; [|done]. rewrite IH.
      destruct (decide (k ∈ X)).
      + rewrite decide_True; [done|by apply elem_of_union_r].
      + rewrite decide_False; [done|].
        by intros [?%elem_of_singleton|?]%elem_of_union. }
  exact (set_fold_ind_L P (addUsage uriStr) m Hempty Hstep syms).
Qed.

Lemma Index_eq (a b : Index) :
  index a = index b -> definitions a = definitions b -> methods a = methods b ->
  inheritance a = inheritance b -> files a = files b ->
  isIndexing a = isIndexing b -> a = b.
Proof. destruct a, b; simpl; intros; by subst. Qed.

(** *** The shape of an update *)

Lemma update_form parse uriStr p ast :
  exists ws r syms,
    Forall (writtenFor p) ws /\ inheritanceKeys ws ⊆ definitionKeys ws
    /\ forall i, updateIndexForFile parse uriStr p ast i
                 = (r, finish r uriStr syms (applyWrites ws (removeFile (parse uriStr) i))).
Proof.
  assert (H : writesOnly p (children ← St.lift (prop "children" ast);
                            St.when (truthy children) (traverse p children))).
  { apply writesOnly_bind; [apply writesOnly_lift|]. intros c.
    apply writesOnly_when, writesOnly_traverse. }
  destruct (H (JStr EmptyString)) as (ws & r & ns' & syms & Hf & Hc & Hrun).
  exists ws, r, syms. split; [done|split; [done|]].
  intros i. unfold updateIndexForFile. rewrite Hrun.
  destruct r as [[]|]; simpl; [|done]. by rewrite (right_id_L ∅ (∪)).
Qed.

Lemma finish_frame r u syms x :
  definitions (finish r u syms x) = definitions x
  /\ methods (finish r u syms x) = methods x
  /\ inheritance (finish r u syms x) = inheritance x
  /\ files (finish r u syms x) = files x
  /\ isIndexing (finish r u syms x) = isIndexing x.
Proof. by destruct r. Qed.

(** *** Scanning again *)

Lemma pushed_again p (o : option (list SymbolDef)) l :
  Forall (fun d => path d = p) l ->
  pushed (dropPath p <$> pushed (dropPath p <$> o) l) l = pushed (dropPath p <$> o) l.
Proof.
  intros Hl. destruct l as [|d l]; simpl.
  - destruct o; simpl; [by rewrite dropPath_idem|done].
  - f_equal. f_equal. by apply dropPath_rest.
Qed.

Lemma definitions_again uri ws r syms j :
  Forall (writtenFor (fsPath uri)) ws ->
  definitions (applyWrites ws (removeFile uri (addFile (toString uri)
     (finish r (toString uri) syms (applyWrites ws (removeFile uri j))))))
  = definitions (applyWrites ws (removeFile uri j)).
Proof.
  intros Hws. apply map_eq. intros k.
  rewrite !lookup_definitions_applyWrites. simpl. rewrite !lookup_fmap.
  destruct (finish_frame r (toString uri) syms (applyWrites ws (removeFile uri j)))
    as (-> & _).
  rewrite lookup_definitions_applyWrites. simpl. rewrite lookup_fmap.
  apply pushed_again. by apply definitionsFor_path.
Qed.

Lemma methods_again uri ws r syms j :
  Forall (writtenFor (fsPath uri)) ws ->
  methods (applyWrites ws (removeFile uri (addFile (toString uri)
     (finish r (toString uri) syms (applyWrites ws (removeFile uri j))))))
  = methods (applyWrites ws (removeFile uri j)).
Proof.
  intros Hws. apply map_eq. intros k.
  rewrite !lookup_methods_applyWrites. simpl. rewrite !lookup_fmap.
  destruct (finish_frame r (toString uri) syms (applyWrites ws (removeFile uri j)))
    as (_ & -> & _).
  rewrite lookup_methods_applyWrites. simpl. rewrite lookup_fmap.
  apply pushed_again. by apply methodsFor_path.
Qed.

Lemma definedOnlyIn_dropPath p (D : gmap string (list SymbolDef)) k :
  definedOnlyIn (dropPath p <$> D) p k
  = match D !! k with
    | Some d => match dropPath p d with [] => true | _ => false end
    | None => false
    end.
Proof.
  unfold definedOnlyIn. rewrite lookup_fmap.
  destruct (D !! k); simpl; [apply forallb_dropPath|done].
Qed.

Lemma inheritance_again uri ws r syms j :
  Forall (writtenFor (fsPath uri)) ws -> inheritanceDefined j ->
  inheritance (applyWrites ws (removeFile uri (addFile (toString uri)
     (finish r (toString uri) syms (applyWrites ws (removeFile uri j))))))
  = inheritance (applyWrites ws (removeFile uri j)).
Proof.
  intros Hws Hj. apply map_eq. intros k.
  rewrite !lookup_inheritance_applyWrites.
  destruct (last (inheritanceFor k ws)) eqn:Hlast; [done|].
  simpl.
  destruct (finish_frame r (toString uri) syms (applyWrites ws (removeFile uri j)))
    as (-> & _ & -> & _).
  apply option_eq. intros info. rewrite map_lookup_filter_Some.
  rewrite lookup_inheritance_applyWrites, Hlast. simpl.
  rewrite map_lookup_filter_Some. simpl.
  split; [tauto|]. intros [Hinfo H1]. split; [done|].
  rewrite definedOnlyIn_dropPath in H1.
  destruct (Hj k) as [d Hd]; [by rewrite Hinfo|]. rewrite Hd in H1.
  rewrite definedOnlyIn_dropPath, lookup_definitions_applyWrites. simpl.
  rewrite lookup_fmap, Hd. simpl.
  pose proof (definitionsFor_path _ k _ Hws) as Hl.
  destruct (definitionsFor k ws) as [|x l]; simpl.
  - by rewrite dropPath_idem.
  - pose proof (dropPath_rest (fsPath uri) (Some d) (x :: l) Hl) as Hr.
    simpl in Hr. rewrite Hr. exact H1.
Qed.

Lemma index_again uri ws r syms j :
  index (finish r (toString uri) syms (applyWrites ws (removeFile uri
     (addFile (toString uri)
        (finish r (toString uri) syms (applyWrites ws (removeFile uri j)))))))
  = index (finish r (toString uri) syms (applyWrites ws (removeFile uri j))).
Proof.
  apply map_eq. intros k. destruct r as [[]|]; simpl.
  - rewrite !lookup_commit.
    destruct (applyWrites_frame ws (removeFile uri (addFile (toString uri)
                (commitUsages (toString uri) syms (applyWrites ws (removeFile uri j))))))
      as (-> & _).
    destruct (applyWrites_frame ws (removeFile uri j)) as (Hix & _).
    simpl. rewrite !lookup_fmap, lookup_commit, Hix. simpl. rewrite lookup_fmap.
    destruct (decide (k ∈ syms)); simpl.
    + f_equal. destruct (index j !! k); simpl; set_solver.
    + destruct (index j !! k); simpl; [f_equal; set_solver|done].
  - destruct (applyWrites_frame ws (removeFile uri (addFile (toString uri)
                (applyWrites ws (removeFile uri j))))) as (-> & _).
    destruct (applyWrites_frame ws (removeFile uri j)) as (Hix & _).
    simpl. rewrite !lookup_fmap, Hix. simpl. rewrite lookup_fmap.
    destruct (index j !! k); simpl; [f_equal; set_solver|done].
Qed.

Lemma files_again uri ws r syms j :
  files (finish r (toString uri) syms (applyWrites ws (removeFile uri
     (addFile (toString uri)
        (finish r (toString uri) syms (applyWrites ws (removeFile uri j)))))))
  = files (finish r (toString uri) syms (applyWrites ws (removeFile uri j))).
Proof.
  destruct (finish_frame r (toString uri) syms (applyWrites ws (removeFile uri
     (addFile (toString uri)
        (finish r (toString uri) syms (applyWrites ws (removeFile uri j)))))))
    as (_ & _ & _ & -> & _).
  destruct (applyWrites_frame ws (removeFile uri (addFile (toString uri)
     (finish r (toString uri) syms (applyWrites ws (removeFile uri j))))))
    as (_ & -> & _).
  destruct (finish_frame r (toString uri) syms (applyWrites ws (removeFile uri j)))
    as (_ & _ & _ & Hfiles & _).
  destruct (applyWrites_frame ws (removeFile uri j)) as (_ & Hfiles' & _).
  simpl. rewrite Hfiles, Hfiles'. simpl. set_solver.
Qed.

Lemma isIndexing_again uri ws r syms j :
  isIndexing (finish r (toString uri) syms (applyWrites ws (removeFile uri
     (addFile (toString uri)
        (finish r (toString uri) syms (applyWrites ws (removeFile uri j)))))))
  = isIndexing (finish r (toString uri) syms (applyWrites ws (removeFile uri j))).
Proof.
  destruct (finish_frame r (toString uri) syms (applyWrites ws (removeFile uri
     (addFile (toString uri)
        (finish r (toString uri) syms (applyWrites ws (removeFile uri j)))))))
    as (_ & _ & _ & _ & ->).
  destruct (applyWrites_frame ws (removeFile uri (addFile (toString uri)
     (finish r (toString uri) syms (applyWrites ws (removeFile uri j))))))
    as (_ & _ & ->).
  destruct (finish_frame r (toString uri) syms (applyWrites ws (removeFile uri j)))
    as (_ & _ & _ & _ & Hi).
  destruct (applyWrites_frame ws (removeFile uri j)) as (_ & _ & Hi').
  simpl. by rewrite Hi, Hi'.
Qed.

(** An update after an update of the same file changes nothing. *)
Lemma update_again uri ws r syms j :
  Forall (writtenFor (fsPath uri)) ws -> inheritanceDefined j ->
  finish r (toString uri) syms (applyWrites ws (removeFile uri
     (addFile (toString uri)
        (finish r (toString uri) syms (applyWrites ws (removeFile uri j))))))
  = finish r (toString uri) syms (applyWrites ws (removeFile uri j)).
Proof.
  intros Hws Hj. apply Index_eq.
  - apply index_again.
  - destruct (finish_frame r (toString uri) syms (applyWrites ws (removeFile uri
       (addFile (toString uri)
          (finish r (toString uri) syms (applyWrites ws (removeFile uri j)))))))
      as (-> & _).
    destruct (finish_frame r (toString uri) syms (applyWrites ws (removeFile uri j)))
      as (Hd & _). rewrite Hd. by apply definitions_again.
  - destruct (finish_frame r (toString uri) syms (applyWrites ws (removeFile uri
       (addFile (toString uri)
          (finish r (toString uri) syms (applyWrites ws (removeFile uri j)))))))
      as (_ & -> & _).
    destruct (finish_frame r (toString uri) syms (applyWrites ws (removeFile uri j)))
      as (_ & Hm & _). rewrite Hm. by apply methods_again.
  - destruct (finish_frame r (toString uri) syms (applyWrites ws (removeFile uri
       (addFile (toString uri)
          (finish r (toString uri) syms (applyWrites ws (removeFile uri j)))))))
      as (_ & _ & -> & _).
    destruct (finish_frame r (toString uri) syms (applyWrites ws (removeFile uri j)))
      as (_ & _ & Hi & _). rewrite Hi. by apply inheritance_again.
  - apply files_again.
  - apply isIndexing_again.
Qed.

(** *** Classes with inheritance are classes with definitions *)

Lemma inheritanceFor_keys k ws :
  inheritanceFor k ws <> [] -> k ∈ inheritanceKeys ws.
Proof.
  induction ws as [|w ws IH]; simpl; [done|].
  destruct w as [key def|key def|key info]; simpl; auto.
  destruct (String.eqb_spec k key) as [->|Hne]; simpl.
  - intros _. left.
  - intros H. right. auto.
Qed.

Lemma definitionsFor_keys k ws :
  k ∈ definitionKeys ws -> definitionsFor k ws <> [].
Proof.
  induction ws as [|w ws IH]; simpl; [by intros ?%elem_of_nil|].
  destruct w as [key def|key def|key info]; simpl; auto.
  destruct (String.eqb_spec k key) as [->|Hne]; simpl; [done|].
  intros [?|?]%elem_of_cons; [done|auto].
Qed.

Lemma inheritanceDefined_removeFile uri i :
  inheritanceDefined i -> inheritanceDefined (removeFile uri i).
Proof.
  intros Hi k [info Hk]. simpl in *.
  apply map_lookup_filter_Some in Hk as [Hk _].
  rewrite lookup_fmap. destruct (Hi k) as [d ->]; [by eexists|]. by eexists.
Qed.

Lemma inheritanceDefined_applyWrites ws i :
  inheritanceKeys ws ⊆ definitionKeys ws ->
  inheritanceDefined i -> inheritanceDefined (applyWrites ws i).
Proof.
  intros Hsub Hi k. rewrite lookup_inheritance_applyWrites, lookup_definitions_applyWrites.
  destruct (last (inheritanceFor k ws)) as [info|] eqn:Hlast.
  - intros _. assert (Hk : inheritanceFor k ws <> []) by (by intros E; rewrite E in Hlast).
    apply inheritanceFor_keys, Hsub, definitionsFor_keys in Hk.
    destruct (definitionsFor k ws); [done|]. by eexists.
  - intros Hk. destruct (Hi k Hk) as [d ->].
    destruct (definitionsFor k ws); by eexists.
Qed.

Lemma inheritanceDefined_finish r u syms i :
  inheritanceDefined i -> inheritanceDefined (finish r u syms i).
Proof. by destruct r. Qed.

Lemma inheritanceDefined_scanFile parse uri ast i :
  inheritanceDefined i -> inheritanceDefined (scanFile parse uri ast i).
Proof.
  intros Hi. unfold scanFile. destruct ast as [ast|]; [|done].
  destruct (update_form parse (toString uri) (fsPath uri) ast)
    as (ws & r & syms & Hws & Hsub & ->). simpl.
  apply inheritanceDefined_finish, inheritanceDefined_applyWrites; [done|].
  by apply inheritanceDefined_removeFile.
Qed.

Lemma inheritanceDefined_start cfg i :
  inheritanceDefined i -> inheritanceDefined (start cfg i).2.
Proof. intros Hi. unfold start. by repeat case_match. Qed.

Lemma inheritanceDefined_scanAll l i :
  inheritanceDefined i -> inheritanceDefined (scanAll l i).2.
Proof. by destruct l. Qed.

Lemma inheritanceDefined_resume parse t a i o i' :
  resume parse t a i = Some (o, i') -> inheritanceDefined i -> inheritanceDefined i'.
Proof.
  intros Hr Hi. destruct t, a; simpl in Hr; try done; repeat case_match;
    simplify_eq; try done;
    try (match goal with H : scanAll ?l ?i = (_, _) |- _ =>
           pose proof (inheritanceDefined_scanAll l i Hi) as Hs; by rewrite H in Hs end);
    try (by apply (inheritanceDefined_scanFile parse)).
Qed.

Lemma idx_spawn o i ts : idx (spawn o i ts) = i.
Proof. by destruct o. Qed.

Lemma reachable_inheritanceDefined parse s :
  reachable parse s -> inheritanceDefined (idx s).
Proof.
  induction 1 as [|s s' _ IH Hstep].
  - intros k [info Hk]. simpl in Hk. by rewrite lookup_empty in Hk.
  - destruct Hstep; rewrite ?idx_spawn; simpl.
    + by apply inheritanceDefined_start.
    + apply inheritanceDefined_start. intros k [info Hk]. simpl in Hk.
      by rewrite lookup_empty in Hk.
    + by eapply inheritanceDefined_resume.
    + by apply inheritanceDefined_scanFile.
    + by apply inheritanceDefined_removeFile.
Qed.

(** The entries of the scanned path are those the file gives on its own. *)
Lemma scan_entries_of_path parse uri ast i k :
  parse (toString uri) = uri ->
  List.filter (fun d => String.eqb (path d) (fsPath uri))
              (getDefinitions (scanFile parse uri (Ok ast) i) k)
  = getDefinitions (scanFile parse uri (Ok ast) empty) k.
Proof.
  intros Hparse. unfold scanFile, getDefinitions.
  destruct (update_form parse (toString uri) (fsPath uri) ast)
    as (ws & r & syms & Hws & Hsub & Hrun). rewrite !Hrun. simpl. rewrite Hparse.
  destruct (finish_frame r (toString uri) syms
              (applyWrites ws (removeFile uri (addFile (toString uri) i)))) as (-> & _).
  destruct (finish_frame r (toString uri) syms
              (applyWrites ws (removeFile uri (addFile (toString uri) empty)))) as (-> & _).
  rewrite !lookup_definitions_applyWrites. simpl. rewrite !lookup_fmap, lookup_empty.
  simpl. pose proof (definitionsFor_path _ k _ Hws) as Hl.
  assert (Hkeep : forall l, Forall (fun d => path d = fsPath uri) l ->
            List.filter (fun d => String.eqb (path d) (fsPath uri)) l = l).
  { induction 1 as [|d l Hd _ IH]; simpl; [done|].
    rewrite Hd, String.eqb_refl. by f_equal. }
  assert (Hdrop : forall l,
            List.filter (fun d => String.eqb (path d) (fsPath uri))
                        (dropPath (fsPath uri) l) = []).
  { intros l. rewrite dropPath_filter. induction l as [|d l IH]; simpl; [done|].
    destruct (String.eqb (path d) (fsPath uri)) eqn:E; simpl; [done|by rewrite E]. }
  destruct (definitionsFor k ws) as [|x l]; simpl.
  - destruct (definitions i !! k); simpl; [apply Hdrop|done].
  - rewrite List.filter_app, (Hkeep _ Hl).
    destruct (definitions i !! k); simpl; [by rewrite Hdrop|done].
Qed.

(** C4. Scanning the same unchanged file a second time leaves the index
    as the first scan left it: the usage index, the definitions, the
    methods, the inheritance map, the set of files and the guard are the
    same.  The index is any index that calls of the public methods can
    produce, and [parse] gives back the uri a string was made from.
    [ast] is what reading and parsing the file gives, the same both
    times, an exception included.  The second part says why: whatever the
    index held before, the definitions attributed to the path of the file
    after a scan are those that a scan into the empty index gives, so the
    entries of an older scan are gone and none is there twice. *)
Theorem rescan_is_idempotent parse uri ast s :
  parse (toString uri) = uri ->
  reachable parse s ->
  scanFile parse uri ast (scanFile parse uri ast (idx s))
  = scanFile parse uri ast (idx s)
  /\ forall tree k,
       ast = Ok tree ->
       List.filter (fun d => String.eqb (path d) (fsPath uri))
                   (getDefinitions (scanFile parse uri ast (idx s)) k)
       = getDefinitions (scanFile parse uri ast empty) k.
Proof.
  intros Hparse Hs. split.
  - apply reachable_inheritanceDefined in Hs.
    unfold scanFile. destruct ast as [ast|].
    + destruct (update_form parse (toString uri) (fsPath uri) ast)
        as (ws & r & syms & Hws & Hsub & Hrun). rewrite !Hrun. simpl.
      rewrite Hparse. by apply update_again.
    + apply Index_eq; simpl; try done. set_solver.
  - intros tree k ->. by apply scan_entries_of_path.
Qed.

Lemma rescan_is_idempotent_witness :
  scanFile Fixtures.parseUri (Fixtures.parseUri "/ws/test-rename/InterfaceTest.php")
    (Ok Ast.loggerTest)
    (scanFile Fixtures.parseUri (Fixtures.parseUri "/ws/test-rename/InterfaceTest.php")
       (Ok Ast.loggerTest) (idx initial))
  = scanFile Fixtures.parseUri (Fixtures.parseUri "/ws/test-rename/InterfaceTest.php")
      (Ok Ast.loggerTest) (idx initial).
Proof.
  exact (proj1 (rescan_is_idempotent Fixtures.parseUri
                  (Fixtures.parseUri "/ws/test-rename/InterfaceTest.php")
                  (Ok Ast.loggerTest) initial eq_refl (reach_initial _))).
Defined.
End IndexFacts.

(** ** The guard of the workspace scan *)

Module ScanFacts.
Import Js Node Indexer.

Lemma isIndexing_scanFile parse uri ast i :
  isIndexing (scanFile parse uri ast i) = isIndexing i.
Proof.
  unfold scanFile. destruct ast as [ast|]; [|done].
  destruct (IndexFacts.update_form parse (toString uri) (fsPath uri) ast)
    as (ws & r & syms & _ & _ & ->). simpl.
  destruct (IndexFacts.finish_frame r (toString uri) syms
              (applyWrites ws (removeFile (parse (toString uri))
                                          (addFile (toString uri) i))))
    as (_ & _ & _ & _ & ->).
  by destruct (IndexFacts.applyWrites_frame ws
                 (removeFile (parse (toString uri)) (addFile (toString uri) i)))
    as (_ & _ & ->).
Qed.

Lemma isIndexing_scanAll l i :
  isIndexing (scanAll l i).2
  = match (scanAll l i).1 with Returned => false | _ => isIndexing i end.
Proof. by destruct l. Qed.

(** The guard is cleared when the invocation returns, and only then. *)
Lemma isIndexing_resume parse t a i o i' :
  resume parse t a i = Some (o, i') ->
  isIndexing i' = match o with Returned => false | _ => isIndexing i end.
Proof.
  intros Hr.
  destruct t, a; simpl in Hr; try done; repeat case_match; simplify_eq; try done;
    try (match goal with H : scanAll ?l ?i = (_, _) |- _ =>
           pose proof (isIndexing_scanAll l i) as Hs; by rewrite H in Hs end);
    try apply isIndexing_scanFile.
Qed.

Lemma start_guarded cfg i :
  isIndexing i = true -> start cfg i = (Returned, i).
Proof. intros H. unfold start. by rewrite H. Qed.

Lemma start_free cfg i :
  isIndexing i = false ->
  isIndexing (start cfg i).2 = true /\ (start cfg i).1 <> Returned.
Proof. intros H. unfold start. rewrite H. by case_match. Qed.

(** At most one invocation is in flight, and the guard is set while it is. *)
Lemma one_scan_at_a_time parse s :
  reachable parse s ->
  (length (tasks s) <= 1)%nat /\ (tasks s <> [] -> isIndexing (idx s) = true).
Proof.
  assert (Hstart : forall cfg i ts,
    (length ts <= 1)%nat -> (ts <> [] -> isIndexing i = true) ->
    (length (tasks (spawn (start cfg i).1 (start cfg i).2 ts)) <= 1)%nat
    /\ (tasks (spawn (start cfg i).1 (start cfg i).2 ts) <> [] ->
        isIndexing (idx (spawn (start cfg i).1 (start cfg i).2 ts)) = true)).
  { intros cfg i ts Hlen Hset. destruct (isIndexing i) eqn:Hi.
    - by rewrite (start_guarded cfg i Hi).
    - assert (ts = []) as -> by (destruct ts; [done|]; by discriminate Hset).
      unfold start. rewrite Hi. by case_match. }
  induction 1 as [|s s' _ [Hlen Hset] Hstep]; [split; [simpl; lia|done]|].
  destruct Hstep as [cfg s|cfg s|s before t after a o i Hts Hr|uri ast s|uri s].
  - by apply Hstart.
  - by apply Hstart.
  - rewrite Hts in Hlen, Hset. rewrite length_app in Hlen. simpl in Hlen.
    destruct before, after; simpl in Hlen; try lia. simpl.
    apply isIndexing_resume in Hr. destruct o; simpl; [|split; [lia|done]..].
    split; [lia|]. intros _. rewrite Hr. by apply Hset.
  - simpl. by rewrite isIndexing_scanFile.
  - done.
Qed.

Lemma stuck_step parse s s' : stuck s -> step parse s s' -> stuck s'.
Proof.
  intros [Hi Hts] Hstep.
  destruct Hstep as [cfg s|cfg s|s before t after a o i Hts' Hr|uri ast s|uri s].
  - by rewrite (start_guarded cfg _ Hi), Hts.
  - by rewrite (start_guarded cfg (clearMaps (idx s)) Hi), Hts.
  - rewrite Hts in Hts'. by destruct before.
  - split; [|done]. simpl. by rewrite isIndexing_scanFile.
  - done.
Qed.

Lemma stuck_forever parse s s' : stuck s -> rtc (step parse) s s' -> stuck s'.
Proof. intros Hs. induction 1; eauto using stuck_step. Qed.

(** C10. In every state that calls of the public methods and answers of
    the editor can produce: at most one invocation of [scanWorkspace] is
    in flight and the guard is set while it is; an invocation that goes
    on clears the guard when it returns and at no other moment; a call
    that finds the guard set returns at once and changes nothing; a call
    or an invocation that ends with an exception leaves the guard set
    with nothing in flight; and from such a state on, whatever happens,
    the guard stays set, every call of [scanWorkspace] returns at once,
    and so does the one that [rebuildIndex] makes after it has cleared
    the maps. *)
Theorem guard_is_not_exception_safe parse s :
  reachable parse s ->
  ((length (tasks s) <= 1)%nat /\ (tasks s <> [] -> isIndexing (idx s) = true))
  /\ (forall t a o i,
        resume parse t a (idx s) = Some (o, i) ->
        isIndexing i = match o with Returned => false | _ => isIndexing (idx s) end)
  /\ (forall cfg, isIndexing (idx s) = true -> start cfg (idx s) = (Returned, idx s))
  /\ (forall cfg i,
        start cfg (idx s) = (Thrown, i) -> stuck {| idx := i; tasks := tasks s |})
  /\ (forall before t after a i,
        tasks s = (before ++ t :: after)%list ->
        resume parse t a (idx s) = Some (Thrown, i) ->
        stuck {| idx := i; tasks := (before ++ after)%list |})
  /\ (stuck s ->
      forall s', rtc (step parse) s s' ->
        stuck s'
        /\ forall cfg,
             spawn (start cfg (idx s')).1 (start cfg (idx s')).2 (tasks s') = s'
             /\ spawn (start cfg (clearMaps (idx s'))).1
                      (start cfg (clearMaps (idx s'))).2 (tasks s')
                = {| idx := clearMaps (idx s'); tasks := [] |}).
Proof.
  intros Hs. destruct (one_scan_at_a_time parse s Hs) as [Hlen Hset].
  split; [done|]. split; [intros t a o i; apply isIndexing_resume|].
  split; [intros cfg; apply start_guarded|]. split; [|split].
  - intros cfg i Hthrown. destruct (isIndexing (idx s)) eqn:Hi.
    + by rewrite (start_guarded cfg _ Hi) in Hthrown.
    + assert (tasks s = []) as -> by (destruct (tasks s); [done|]; by discriminate Hset).
      destruct (start_free cfg _ Hi) as [Hg _]. rewrite Hthrown in Hg. done.
  - intros before t after a i Hts Hr. rewrite Hts in Hlen, Hset.
    rewrite length_app in Hlen. simpl in Hlen.
    destruct before, after; simpl in Hlen; try lia.
    apply isIndexing_resume in Hr. split; [|done]. simpl. rewrite Hr.
    by apply Hset.
  - intros Hstuck s' Hsteps.
    destruct (stuck_forever parse s s' Hstuck Hsteps) as [Hi Hts].
    split; [done|]. intros cfg.
    rewrite (start_guarded cfg _ Hi), (start_guarded cfg (clearMaps (idx s')) Hi).
    simpl. rewrite Hts. split; [|done]. destruct s'; simpl in *. by subst.
Qed.

Lemma guard_is_not_exception_safe_witness :
  stuck {| idx := setIndexing true empty; tasks := tasks initial |}.
Proof.
  exact (proj1 (proj2 (proj2 (proj2
           (guard_is_not_exception_safe Fixtures.parseUri initial (reach_initial _)))))
           Fixtures.textExclude (setIndexing true empty) eq_refl).
Defined.

End ScanFacts.

(** ** The diagnostics of missing imports *)

Module DiagnosticFacts.
Import Js Node ImportDiagnostics.





(** What the amended claim leaves aside.  [Report.php] instantiates [X]
    in a method body and imports nothing.  The traversal does not go
    into the expression of a statement, so the [new] node is never met
    and the document gets no diagnostic, although the comment of line
    102 names instantiation among the usages looked for. *)
Example instantiation_in_body_is_not_met :
  updateDiagnostics Indexer.empty Fixtures.reportFile = Ok [].
Proof. reflexivity. Qed.

End DiagnosticFacts.

(** ** Removing and scanning a file *)

Module IndexerLaws.
Import Js Node Indexer IndexerApi.

Lemma elem_of_getCandidates i k u :
  u ∈ getCandidates i k <-> exists X, index i !! k = Some X /\ u ∈ X.
Proof.
  unfold getCandidates. destruct (index i !! k) as [X|].
  - rewrite elem_of_elements. split; [eauto|]. by intros (Y & [= ->] & ?).
  - split; [by intros ?%elem_of_nil|]. by intros (Y & [=] & _).
Qed.

Lemma getDefinitions_removeFile uri i k :
  getDefinitions (removeFile uri i) k
  = List.filter (fun d => negb (String.eqb (path d) (fsPath uri))) (getDefinitions i k).
Proof.
  unfold getDefinitions. simpl. rewrite lookup_fmap.
  destruct (definitions i !! k); simpl; [apply IndexFacts.dropPath_filter|done].
Qed.

Lemma getMethodDefinitions_removeFile uri i k :
  getMethodDefinitions (removeFile uri i) k
  = List.filter (fun d => negb (String.eqb (path d) (fsPath uri)))
                (getMethodDefinitions i k).
Proof.
  unfold getMethodDefinitions. simpl. rewrite lookup_fmap.
  destruct (methods i !! k); simpl; [apply IndexFacts.dropPath_filter|done].
Qed.

Lemma getCandidates_removeFile uri i k u :
  u ∈ getCandidates (removeFile uri i) k
  <-> u <> toString uri /\ u ∈ getCandidates i k.
Proof.
  rewrite !elem_of_getCandidates. simpl. rewrite lookup_fmap.
  destruct (index i !! k) as [X|]; simpl.
  - split.
    + intros (Y & [= <-] & [? ?%not_elem_of_singleton]%elem_of_difference). eauto.
    + intros (Hne & Y & [= <-] & Hu). eexists. split; [done|].
      apply elem_of_difference. split; [done|]. by apply not_elem_of_singleton.
  - split; [by intros (? & [=] & _)|by intros (_ & ? & [=] & _)].
Qed.

Lemma dropPath_nil p l :
  dropPath p l = [] <-> Forall (fun d => path d = p) l.
Proof.
  rewrite IndexFacts.dropPath_filter. induction l as [|d l IH]; simpl.
  - split; [constructor|done].
  - rewrite Forall_cons. destruct (String.eqb_spec (path d) p) as [Hp|Hp]; simpl.
    + rewrite IH. tauto.
    + split; [done|]. by intros [? _].
Qed.

Lemma lookup_inheritance_removeFile uri i k info :
  inheritance (removeFile uri i) !! k = Some info
  <-> inheritance i !! k = Some info
      /\ (definitions i !! k = None
          \/ exists d, d ∈ getDefinitions i k /\ path d <> fsPath uri).
Proof.
  simpl. rewrite map_lookup_filter_Some. simpl.
  rewrite IndexFacts.definedOnlyIn_dropPath. unfold getDefinitions.
  destruct (definitions i !! k) as [defs|]; simpl; [|tauto].
  destruct (dropPath (fsPath uri) defs) as [|d rest] eqn:Hdrop.
  - apply dropPath_nil in Hdrop. rewrite Forall_forall in Hdrop.
    split; [by intros [_ ?]|]. intros [_ [?|(d & Hd & Hne)]]; [done|].
    destruct Hne. by apply Hdrop.
  - split; [|tauto]. intros [Hi _]. split; [done|]. right.
    assert (Hd : d ∈ dropPath (fsPath uri) defs) by (rewrite Hdrop; left).
    rewrite IndexFacts.dropPath_filter, list_elem_of_In, filter_In in Hd.
    destruct Hd as [Hd Hne]. exists d. split; [by apply list_elem_of_In|].
    intros Hp. by rewrite Hp, String.eqb_refl in Hne.
Qed.

(** X1.  [removeFile] takes the file out of the definitions, the
    methods, the usage index and the set of files: under every key the
    definitions and the methods that remain are those of the other
    paths, in their order; the uri is a candidate of no symbol and the
    other candidates stay; the uri is not among the files.  The
    inheritance map holds no path: the entry of a class stays exactly
    when the class has no entry among the definitions or has a
    definition in another file, whichever file wrote the inheritance. *)
Theorem removeFile_purges uri i k :
  getDefinitions (removeFile uri i) k
  = List.filter (fun d => negb (String.eqb (path d) (fsPath uri))) (getDefinitions i k)
  /\ getMethodDefinitions (removeFile uri i) k
     = List.filter (fun d => negb (String.eqb (path d) (fsPath uri)))
                   (getMethodDefinitions i k)
  /\ (forall u, u ∈ getCandidates (removeFile uri i) k
                <-> u <> toString uri /\ u ∈ getCandidates i k)
  /\ files (removeFile uri i) = files i ∖ {[toString uri]}
  /\ (forall info,
        inheritance (removeFile uri i) !! k = Some info
        <-> inheritance i !! k = Some info
            /\ (definitions i !! k = None
                \/ exists d, d ∈ getDefinitions i k /\ path d <> fsPath uri)).
Proof.
  split; [apply getDefinitions_removeFile|].
  split; [apply getMethodDefinitions_removeFile|].
  split; [intros u; apply getCandidates_removeFile|].
  split; [done|]. intros info. apply lookup_inheritance_removeFile.
Qed.

(** X2.  Removing a file a second time changes nothing. *)
Theorem removeFile_idempotent uri i :
  removeFile uri (removeFile uri i) = removeFile uri i.
Proof.
  apply IndexFacts.Index_eq; simpl.
  - apply map_eq. intros k. rewrite !lookup_fmap.
    destruct (index i !! k); simpl; [f_equal; set_solver|done].
  - apply map_eq. intros k. rewrite !lookup_fmap.
    destruct (definitions i !! k); simpl; [by rewrite IndexFacts.dropPath_idem|done].
  - apply map_eq. intros k. rewrite !lookup_fmap.
    destruct (methods i !! k); simpl; [by rewrite IndexFacts.dropPath_idem|done].
  - apply map_eq. intros k. apply option_eq. intros info.
    rewrite !map_lookup_filter_Some. simpl.
    rewrite !IndexFacts.definedOnlyIn_dropPath, lookup_fmap.
    destruct (definitions i !! k); simpl; [|tauto].
    rewrite IndexFacts.dropPath_idem. tauto.
  - set_solver.
  - done.
Qed.

Lemma scanFile_form parse uri ast :
  parse (toString uri) = uri ->
  exists ws r syms,
    Forall (writtenFor (fsPath uri)) ws
    /\ inheritanceKeys ws ⊆ definitionKeys ws
    /\ forall i, scanFile parse uri (Ok ast) i
                 = finish r (toString uri) syms
                     (applyWrites ws (removeFile uri (addFile (toString uri) i))).
Proof.
  intros Hparse.
  destruct (IndexFacts.update_form parse (toString uri) (fsPath uri) ast)
    as (ws & r & syms & Hws & Hsub & Hrun).
  exists ws, r, syms. split; [done|]. split; [done|].
  intros j. unfold scanFile. rewrite Hrun. simpl. by rewrite Hparse.
Qed.

(** X3.  A file that is read and parsed is not among the files after its
    scan, whatever the index held: [scanFile] adds the uri and the
    update removes it again.  A file that cannot be read or parsed is
    among them, and nothing else of the index changes. *)
Theorem scanFile_files parse uri i :
  parse (toString uri) = uri ->
  (forall ast, files (scanFile parse uri (Ok ast) i) = files i ∖ {[toString uri]})
  /\ scanFile parse uri Throw i = addFile (toString uri) i.
Proof.
  intros Hparse. split; [|done]. intros ast.
  destruct (scanFile_form parse uri ast Hparse) as (ws & r & syms & _ & _ & ->).
  destruct (IndexFacts.finish_frame r (toString uri) syms
              (applyWrites ws (removeFile uri (addFile (toString uri) i))))
    as (_ & _ & _ & -> & _).
  destruct (IndexFacts.applyWrites_frame ws
              (removeFile uri (addFile (toString uri) i))) as (_ & -> & _).
  simpl. set_solver.
Qed.

Lemma scanFile_files_witness :
  files (scanFile Fixtures.parseUri (Fixtures.parseUri "/ws/test-rename/InterfaceTest.php")
           (Ok Ast.loggerTest) empty)
  = files empty ∖ {[toString (Fixtures.parseUri "/ws/test-rename/InterfaceTest.php")]}.
Proof.
  exact (proj1 (scanFile_files Fixtures.parseUri
                  (Fixtures.parseUri "/ws/test-rename/InterfaceTest.php") empty eq_refl)
               Ast.loggerTest).
Defined.

Lemma filter_filter_same {A} (f : A -> bool) l :
  List.filter f (List.filter f l) = List.filter f l.
Proof. apply IndexFacts.filter_idem. Qed.

Lemma filter_others_written p l :
  Forall (fun d => path d = p) l ->
  List.filter (fun d => negb (String.eqb (path d) p)) l = [].
Proof.
  induction 1 as [|d l Hd _ IH]; simpl; [done|].
  by rewrite Hd, String.eqb_refl.
Qed.

Lemma filter_others_pushed p (o : option (list SymbolDef)) l :
  Forall (fun d => path d = p) l ->
  List.filter (fun d => negb (String.eqb (path d) p))
              (default [] (pushed (dropPath p <$> o) l))
  = List.filter (fun d => negb (String.eqb (path d) p)) (default [] o).
Proof.
  intros Hl. destruct l as [|x l]; simpl.
  - destruct o; simpl; [|done].
    rewrite IndexFacts.dropPath_filter. apply IndexFacts.filter_idem.
  - rewrite List.filter_app, (filter_others_written p (x :: l) Hl), app_nil_r.
    destruct o; simpl; [|done].
    rewrite IndexFacts.dropPath_filter. apply IndexFacts.filter_idem.
Qed.

Lemma scanFile_others parse uri ast i k :
  parse (toString uri) = uri ->
  List.filter (fun d => negb (String.eqb (path d) (fsPath uri)))
              (getDefinitions (scanFile parse uri ast i) k)
  = List.filter (fun d => negb (String.eqb (path d) (fsPath uri))) (getDefinitions i k)
  /\ List.filter (fun d => negb (String.eqb (path d) (fsPath uri)))
                 (getMethodDefinitions (scanFile parse uri ast i) k)
     = List.filter (fun d => negb (String.eqb (path d) (fsPath uri)))
                   (getMethodDefinitions i k)
  /\ forall u, u <> toString uri ->
       (u ∈ getCandidates (scanFile parse uri ast i) k <-> u ∈ getCandidates i k).
Proof.
  intros Hparse. destruct ast as [ast|]; [|done].
  destruct (scanFile_form parse uri ast Hparse) as (ws & r & syms & Hws & _ & ->).
  destruct (IndexFacts.finish_frame r (toString uri) syms
              (applyWrites ws (removeFile uri (addFile (toString uri) i))))
    as (Hd & Hm & _).
  unfold getDefinitions, getMethodDefinitions. rewrite Hd, Hm.
  rewrite IndexFacts.lookup_definitions_applyWrites,
          IndexFacts.lookup_methods_applyWrites. simpl. rewrite !lookup_fmap.
  split; [apply filter_others_pushed; by apply IndexFacts.definitionsFor_path|].
  split; [apply filter_others_pushed; by apply IndexFacts.methodsFor_path|].
  intros u Hu. rewrite !elem_of_getCandidates.
  assert (Hix : index (finish r (toString uri) syms
                         (applyWrites ws (removeFile uri (addFile (toString uri) i)))) !! k
                = match r with
                  | Ok _ => if decide (k ∈ syms)
                            then Some (default ∅ ((fun X : gset string => X ∖ {[toString uri]})
                                                    <$> index i !! k) ∪ {[toString uri]})
                            else (fun X : gset string => X ∖ {[toString uri]}) <$> index i !! k
                  | Throw => (fun X : gset string => X ∖ {[toString uri]}) <$> index i !! k
                  end).
  { destruct (IndexFacts.applyWrites_frame ws
                (removeFile uri (addFile (toString uri) i))) as (Hi & _).
    destruct r as [[]|]; simpl.
    - rewrite IndexFacts.lookup_commit, Hi. simpl. by rewrite lookup_fmap.
    - rewrite Hi. simpl. by rewrite lookup_fmap. }
  rewrite Hix. clear Hix.
  assert (Hsame : forall o : option (gset string),
            (exists X, ((fun X : gset string => X ∖ {[toString uri]}) <$> o) = Some X /\ u ∈ X)
            <-> exists X, o = Some X /\ u ∈ X).
  { intros [Y|]; simpl.
    - split; intros (X & [= <-] & HX); eexists; (split; [done|]); set_solver.
    - split; by intros (? & [=] & _). }
  assert (Hadd : forall o : option (gset string),
            (exists X, Some (default ∅ ((fun X : gset string => X ∖ {[toString uri]}) <$> o)
                             ∪ {[toString uri]}) = Some X /\ u ∈ X)
            <-> exists X, o = Some X /\ u ∈ X).
  { intros [Y|]; simpl.
    - split; intros (X & [= <-] & HX); eexists; (split; [done|]); set_solver.
    - split; [|by intros (? & [=] & _)]. intros (X & [= <-] & HX). set_solver. }
  destruct r as [[]|]; [destruct (decide (k ∈ syms))|]; auto.
Qed.

(** What a scan writes under one key: definitions of the scanned path,
    pushed after those that the removal leaves, and the inheritance
    written last, if any; no inheritance is written under a key without
    a definition. *)
Lemma scan_writes_form parse uri ast i k :
  parse (toString uri) = uri ->
  exists l infos,
    Forall (fun d => path d = fsPath uri) l
    /\ (infos <> [] -> l <> [])
    /\ definitions (scanFile parse uri (Ok ast) i) !! k
       = pushed (dropPath (fsPath uri) <$> definitions i !! k) l
    /\ inheritance (scanFile parse uri (Ok ast) i) !! k
       = match last infos with
         | Some info => Some info
         | None => inheritance (removeFile uri i) !! k
         end.
Proof.
  intros Hparse.
  destruct (scanFile_form parse uri ast Hparse) as (ws & r & syms & Hws & Hsub & Heq).
  exists (definitionsFor k ws), (inheritanceFor k ws).
  split; [by apply IndexFacts.definitionsFor_path|]. split.
  { intros Hi. apply IndexFacts.definitionsFor_keys, Hsub.
    by apply IndexFacts.inheritanceFor_keys. }
  rewrite Heq.
  destruct (IndexFacts.finish_frame r (toString uri) syms
              (applyWrites ws (removeFile uri (addFile (toString uri) i))))
    as (-> & _ & -> & _).
  rewrite IndexFacts.lookup_definitions_applyWrites,
          IndexFacts.lookup_inheritance_applyWrites. simpl.
  by rewrite lookup_fmap.
Qed.

Lemma scanFile_inheritance parse uri ast i k :
  parse (toString uri) = uri ->
  (forall d, d ∈ getDefinitions (scanFile parse uri ast i) k -> path d <> fsPath uri) ->
  (definitions i !! k = None
   \/ exists d, d ∈ getDefinitions i k /\ path d <> fsPath uri) ->
  inheritance (scanFile parse uri ast i) !! k = inheritance i !! k.
Proof.
  intros Hparse Hnone Hother. destruct ast as [ast|]; [|done].
  destruct (scan_writes_form parse uri ast i k Hparse)
    as (l & infos & Hl & Hinfos & Hdefs & ->).
  assert (Hnil : l = []).
  { destruct l as [|d l]; [done|]. exfalso.
    apply (Hnone d); [|by apply Forall_cons in Hl as [? _]].
    unfold getDefinitions. rewrite Hdefs. simpl.
    apply elem_of_app. right. left. }
  destruct infos as [|info infos _] using rev_ind;
    [|destruct Hinfos; [by destruct infos|done]].
  change (inheritance (removeFile uri i) !! k = inheritance i !! k).
  apply option_eq. intros info. rewrite lookup_inheritance_removeFile. tauto.
Qed.

(** X4.  A scan leaves what the other files gave to the index: under
    every key the definitions and the methods of the other paths are
    what they were, in their order, and so are the other candidates of
    every symbol.  The inheritance map is keyed by the name of the class
    alone: the entry of a class is what it was when the scanned file
    defines no class of that name and the class has a definition in
    another file or no entry among the definitions. *)
Theorem scanFile_frame parse uri ast i k :
  parse (toString uri) = uri ->
  List.filter (fun d => negb (String.eqb (path d) (fsPath uri)))
              (getDefinitions (scanFile parse uri ast i) k)
  = List.filter (fun d => negb (String.eqb (path d) (fsPath uri))) (getDefinitions i k)
  /\ List.filter (fun d => negb (String.eqb (path d) (fsPath uri)))
                 (getMethodDefinitions (scanFile parse uri ast i) k)
     = List.filter (fun d => negb (String.eqb (path d) (fsPath uri)))
                   (getMethodDefinitions i k)
  /\ (forall u, u <> toString uri ->
        (u ∈ getCandidates (scanFile parse uri ast i) k <-> u ∈ getCandidates i k))
  /\ ((forall d, d ∈ getDefinitions (scanFile parse uri ast i) k ->
                 path d <> fsPath uri) ->
      (definitions i !! k = None
       \/ exists d, d ∈ getDefinitions i k /\ path d <> fsPath uri) ->
      inheritance (scanFile parse uri ast i) !! k = inheritance i !! k).
Proof.
  intros Hparse.
  destruct (scanFile_others parse uri ast i k Hparse) as (Hd & Hm & Hc).
  split; [done|]. split; [done|]. split; [done|].
  by apply scanFile_inheritance.
Qed.

Lemma scanFile_frame_witness :
  ("/ws/other.php" ∈ getCandidates
       (scanFile Fixtures.parseUri (Fixtures.parseUri "/ws/test-rename/InterfaceTest.php")
          (Ok Ast.loggerTest) empty) "LoggerInterface"
   <-> "/ws/other.php" ∈ getCandidates empty "LoggerInterface")
  /\ inheritance
       (scanFile Fixtures.parseUri (Fixtures.parseUri "/ws/src/Services/Mailer.php")
          (Ok Ast.mailer) Fixtures.loggerIndex) !! "FileLogger"
     = inheritance Fixtures.loggerIndex !! "FileLogger".
Proof.
  split.
  - apply (proj1 (proj2 (proj2 (scanFile_frame Fixtures.parseUri
                           (Fixtures.parseUri "/ws/test-rename/InterfaceTest.php")
                           (Ok Ast.loggerTest) empty "LoggerInterface" eq_refl)))).
    discriminate.
  - apply (proj2 (proj2 (proj2 (scanFile_frame Fixtures.parseUri
                           (Fixtures.parseUri "/ws/src/Services/Mailer.php")
                           (Ok Ast.mailer) Fixtures.loggerIndex "FileLogger" eq_refl)))).
    + intros d Hd. vm_compute in Hd.
      apply list_elem_of_singleton in Hd. rewrite Hd. discriminate.
    + right.
      destruct (getDefinitions Fixtures.loggerIndex "FileLogger") as [|d l] eqn:Hdefs;
        [vm_compute in Hdefs; discriminate|].
      exists d. split; [left|]. vm_compute in Hdefs.
      injection Hdefs as <- _. discriminate.
Defined.

End IndexerLaws.
(** ** Computations that keep a property of the state *)

Module KeepsFacts.
Import Js Keeps.

Section Inv.
Context {S : Type} (Inv : S -> Prop).

Lemma keeps_ret {A} (a : A) : keeps Inv (mret a).
Proof. by intros s. Qed.

Lemma keeps_lift {A} (r : res A) : keeps Inv (St.lift r).
Proof. by intros s. Qed.

Lemma keeps_get : keeps Inv St.get.
Proof. by intros s. Qed.

Lemma keeps_modify (f : S -> S) :
  (forall s, Inv s -> Inv (f s)) -> keeps Inv (St.modify f).
Proof. intros Hf s. apply Hf. Qed.

Lemma keeps_bind {A B} (m : SM S A) (k : A -> SM S B) :
  keeps Inv m -> (forall a, keeps Inv (k a)) -> keeps Inv (m ≫= k).
Proof.
  intros Hm Hk s Hs. unfold mbind, SM_bind. specialize (Hm s Hs).
  destruct (m s) as [[a|] s']; simpl in *; [by apply Hk|done].
Qed.

Lemma keeps_when (b : bool) (m : SM S unit) :
  keeps Inv m -> keeps Inv (St.when b m).
Proof. destruct b; [done|]. intros _. apply keeps_ret. Qed.

Lemma keeps_forEach (f : js -> SM S unit) l :
  (forall x, x ∈ l -> keeps Inv (f x)) -> keeps Inv (Loop.forEach f l).
Proof.
  induction l as [|x l IH]; intros Hf; simpl; [apply keeps_ret|].
  apply keeps_bind; [apply Hf; left|].
  intros _. apply IH. intros y Hy. apply Hf. by right.
Qed.

Lemma keeps_forOf (f : js -> SM S unit) v :
  (forall x, keeps Inv (f x)) -> keeps Inv (Loop.forOf f v).
Proof.
  intros Hf. destruct v; simpl; try apply keeps_lift; apply keeps_forEach; auto.
Qed.

Lemma keeps_forNodes (f : js -> SM S unit) v :
  (forall l, v = JArr l -> forall x, x ∈ l -> keeps Inv (f x)) ->
  keeps Inv (Loop.forNodes f v).
Proof.
  intros Hf. destruct v; simpl; try apply keeps_lift; try apply keeps_ret.
  apply keeps_forEach. eauto.
Qed.

Lemma keeps_nodes (f : js -> SM S unit) v :
  (forall l, v = JArr l -> forall x, x ∈ l -> keeps Inv (f x)) ->
  keeps Inv (Loop.nodes f v).
Proof.
  intros Hf. unfold Loop.nodes. destruct (truthy v); [|apply keeps_ret].
  by apply keeps_forNodes.
Qed.

Lemma keeps_onField {A} (k : string) (f : js -> SM S A) d fs :
  keeps Inv d ->
  (forall kv, kv ∈ fs -> keeps Inv (f kv.2)) ->
  keeps Inv (Loop.onField k f d fs).
Proof.
  intros Hd. induction fs as [|[k' v] fs IH]; intros Hf; simpl; [done|].
  destruct (String.eqb k k').
  - apply (Hf (k', v)). left.
  - apply IH. intros kv Hkv. apply Hf. by right.
Qed.

Lemma keeps_forIn (f : string -> js -> SM S unit) fs :
  (forall kv, kv ∈ fs -> keeps Inv (f kv.1 kv.2)) ->
  keeps Inv (Loop.forIn f fs).
Proof.
  induction fs as [|[k v] fs IH]; intros Hf; simpl; [apply keeps_ret|].
  apply keeps_bind; [apply (Hf (k, v)); left|].
  intros _. apply IH. intros kv Hkv. apply Hf. by right.
Qed.

End Inv.

End KeepsFacts.

(** ** What the entries of the index look like *)

Module IndexInvariants.
Import Js Node Indexer IndexerApi Keeps KeepsFacts.

Lemma append_assoc (a b c : string) : (a ++ b) ++ c = a ++ (b ++ c).
Proof.
  induction a as [|x a IH]; [done|].
  change (String x ((a ++ b) ++ c) = String x (a ++ (b ++ c))). by rewrite IH.
Qed.

Lemma eqStr_true v s : eqStr v s = true -> v = JStr s.
Proof. destruct v; simpl; try done. by intros ->%String.eqb_eq. Qed.

Lemma isTypeKind_kinds k : isTypeKind k = true -> toStr k ∈ typeKinds.
Proof.
  unfold isTypeKind, typeKinds.
  intros [[H|H]%orb_true_iff|H]%orb_true_iff; apply eqStr_true in H as ->; simpl;
    repeat constructor.
Qed.

Lemma elem_of_pushDef key def (m : gmap string (list SymbolDef)) k d :
  d ∈ default [] (pushDef key def m !! k) ->
  d ∈ default [] (m !! k) \/ (k = key /\ d = def).
Proof.
  unfold pushDef. destruct (decide (k = key)) as [->|Hne].
  - rewrite lookup_insert_eq. simpl.
    intros [?|Hd%list_elem_of_singleton]%elem_of_app; auto.
  - rewrite lookup_insert_ne; auto.
Qed.

Lemma entriesNamed_addDefinition key def i :
  definitionNamed key def -> entriesNamed i -> entriesNamed (addDefinition key def i).
Proof.
  intros Hdef (Hd & Hm & Hi). split; [|done].
  intros k d [?|[-> ->]]%elem_of_pushDef; auto.
Qed.

Lemma entriesNamed_addMethod key def i :
  methodKeyed key def -> entriesNamed i -> entriesNamed (addMethod key def i).
Proof.
  intros Hdef (Hd & Hm & Hi). split; [done|]. split; [|done].
  intros k d [?|[-> ->]]%elem_of_pushDef; auto.
Qed.

Lemma entriesNamed_setInheritance key info i :
  className info = key -> entriesNamed i -> entriesNamed (setInheritance key info i).
Proof.
  intros Hinfo (Hd & Hm & Hi). split; [done|]. split; [done|].
  intros k info'. simpl. destruct (decide (k = key)) as [->|Hne].
  - rewrite lookup_insert_eq. by intros [= <-].
  - rewrite lookup_insert_ne; auto.
Qed.

Lemma elem_of_filter_list {A} (f : A -> bool) l x :
  x ∈ List.filter f l -> x ∈ l.
Proof. rewrite !list_elem_of_In, filter_In. tauto. Qed.

Lemma entriesNamed_removeFile uri i :
  entriesNamed i -> entriesNamed (removeFile uri i).
Proof.
  intros (Hd & Hm & Hi). split; [|split].
  - intros k d. rewrite IndexerLaws.getDefinitions_removeFile.
    intros ?%elem_of_filter_list. auto.
  - intros k d. rewrite IndexerLaws.getMethodDefinitions_removeFile.
    intros ?%elem_of_filter_list. auto.
  - intros k info. simpl. intros [? _]%map_lookup_filter_Some. auto.
Qed.


(** *** The traversal keeps the entries named *)

Lemma named_onIndex (f : Index -> Index) :
  (forall i, entriesNamed i -> entriesNamed (f i)) ->
  keeps (fun s => entriesNamed (ix s)) (onIndex f).
Proof. intros Hf. apply keeps_modify. intros s. apply Hf. Qed.

Lemma named_addSymbol sym : keeps (fun s => entriesNamed (ix s)) (addSymbol sym).
Proof. by apply keeps_modify. Qed.

Lemma named_setNamespace n : keeps (fun s => entriesNamed (ix s)) (setNamespace n).
Proof. by apply keeps_modify. Qed.

Lemma named_getNamespace : keeps (fun s => entriesNamed (ix s)) getNamespace.
Proof. by intros s. Qed.

Lemma named_indexMethod p c bodyNode :
  keeps (fun s => entriesNamed (ix s)) (indexMethod p c bodyNode).
Proof.
  unfold indexMethod. apply keeps_bind; [apply keeps_lift|]. intros isMethod.
  apply keeps_when. apply keeps_bind; [apply keeps_lift|]. intros methodName.
  apply keeps_bind; [apply keeps_lift|]. intros methodRange.
  apply named_onIndex. intros i. apply entriesNamed_addMethod.
  split; [done|]. split; [done|]. by exists c.
Qed.

Lemma named_traverseBody p c bodyNodes :
  keeps (fun s => entriesNamed (ix s)) (traverseBody p c bodyNodes).
Proof.
  unfold traverseBody. destruct (truthy bodyNodes); [|apply keeps_ret].
  apply keeps_forOf. intros x. apply named_indexMethod.
Qed.

Lemma named_indexType p node :
  isTypeKind (get "kind" node) = true ->
  keeps (fun s => entriesNamed (ix s)) (indexType p node).
Proof.
  intros Hkind. unfold indexType.
  apply keeps_bind; [apply keeps_lift|]. intros c.
  apply keeps_bind; [apply named_addSymbol|]. intros _.
  apply keeps_bind; [apply keeps_lift|]. intros rg.
  apply keeps_bind; [apply named_getNamespace|]. intros ns.
  apply keeps_bind.
  { apply named_onIndex. intros i. apply entriesNamed_addDefinition.
    split; [done|]. split; [by apply isTypeKind_kinds|]. split; [done|]. simpl.
    destruct (truthy ns); [exists (toStr ns ++ "\")|exists EmptyString]; [|done].
    by rewrite append_assoc. }
  intros _. apply keeps_bind; [apply keeps_lift|]. intros ext.
  apply keeps_bind; [apply keeps_lift|]. intros impls.
  apply keeps_bind.
  { apply named_onIndex. intros i. by apply entriesNamed_setInheritance. }
  intros _. repeat case_match; first [apply named_traverseBody | apply keeps_ret].
Qed.

Lemma named_indexUse item : keeps (fun s => entriesNamed (ix s)) (indexUse item).
Proof.
  unfold indexUse. apply keeps_bind; [apply keeps_lift|]. intros n.
  apply named_addSymbol.
Qed.

Lemma named_traverseNode p node :
  keeps (fun s => entriesNamed (ix s)) (traverseNode p node).
Proof.
  remember (size node) as n eqn:Hn. revert node Hn.
  induction n as [n IH] using lt_wf_ind. intros node ->.
  assert (Hsub : forall fs kv l x,
             node = JObj fs -> kv ∈ fs -> kv.2 = JArr l -> x ∈ l ->
             keeps (fun s => entriesNamed (ix s)) (traverseNode p x)).
  { intros fs kv l x -> Hkv Hl Hx. eapply IH; [|reflexivity].
    pose proof (IndexFacts.size_field _ _ Hkv) as H1. rewrite Hl in H1.
    pose proof (IndexFacts.size_element _ _ Hx). lia. }
  assert (Hsub2 : forall fs kv bfs kv' l x,
             node = JObj fs -> kv ∈ fs -> kv.2 = JObj bfs -> kv' ∈ bfs ->
             kv'.2 = JArr l -> x ∈ l ->
             keeps (fun s => entriesNamed (ix s)) (traverseNode p x)).
  { intros fs kv bfs kv' l x -> Hkv Hb Hkv' Hl Hx. eapply IH; [|reflexivity].
    pose proof (IndexFacts.size_field _ _ Hkv) as H1. rewrite Hb in H1.
    pose proof (IndexFacts.size_field _ _ Hkv') as H2. rewrite Hl in H2.
    pose proof (IndexFacts.size_element _ _ Hx). lia. }
  destruct node as [| | | | | l | fs]; simpl;
    try apply keeps_ret; try apply keeps_lift.
  apply keeps_bind; [apply keeps_when, named_setNamespace|]. intros _.
  apply keeps_bind.
  { destruct (isTypeKind (field "kind" fs)) eqn:Hkind; [by apply named_indexType|].
    repeat case_match.
    - apply keeps_forOf. intros x. apply named_indexUse.
    - apply keeps_bind; [apply keeps_lift|]. intros s. apply named_addSymbol.
    - apply keeps_ret. }
  intros _. apply keeps_bind.
  { apply keeps_onField; [apply keeps_ret|]. intros kv Hkv.
    apply keeps_nodes. intros l Hl x Hx. eauto. }
  intros _. apply keeps_onField; [apply keeps_ret|]. intros kv Hkv.
  destruct (isArray kv.2).
  - apply keeps_nodes. intros l Hl x Hx. eauto.
  - destruct kv.2 as [| | | | | |bfs] eqn:Hbody; try apply keeps_ret.
    apply keeps_onField; [apply keeps_ret|]. intros kv' Hkv'.
    apply keeps_nodes. intros l Hl x Hx. eauto.
Qed.

Lemma entriesNamed_scanFile parse uri ast i :
  entriesNamed i -> entriesNamed (scanFile parse uri ast i).
Proof.
  intros Hi. unfold scanFile. destruct ast as [ast|]; [|done].
  unfold updateIndexForFile.
  set (m := children ← St.lift (prop "children" ast);
            St.when (truthy children) (traverse (fsPath uri) children)).
  assert (Hm : keeps (fun s => entriesNamed (ix s)) m).
  { apply keeps_bind; [apply keeps_lift|]. intros c. apply keeps_when.
    apply keeps_nodes. intros l _ x _. apply named_traverseNode. }
  set (start := {| ix := removeFile (parse (toString uri)) (addFile (toString uri) i);
                   currentNamespace := JStr EmptyString; symbolsFound := ∅ |}).
  specialize (Hm start). destruct (m start) as [[[]|] s]; simpl in *;
    apply Hm; by apply entriesNamed_removeFile.
Qed.

(** *** Classes with inheritance have definitions *)

Lemma inheritanceLive_removeFile uri i :
  inheritanceLive i -> inheritanceLive (removeFile uri i).
Proof.
  intros Hi k [info [Hk Hkeep]%map_lookup_filter_Some].
  simpl in Hkeep. rewrite IndexFacts.definedOnlyIn_dropPath in Hkeep.
  rewrite IndexerLaws.getDefinitions_removeFile.
  specialize (Hi k (ex_intro _ info Hk)). unfold getDefinitions in *.
  destruct (definitions i !! k) as [d|]; simpl in *; [|done].
  rewrite <- IndexFacts.dropPath_filter. by destruct (dropPath (fsPath uri) d).
Qed.

Lemma inheritanceLive_applyWrites ws i :
  inheritanceKeys ws ⊆ definitionKeys ws ->
  inheritanceLive i -> inheritanceLive (applyWrites ws i).
Proof.
  intros Hsub Hi k. unfold getDefinitions.
  rewrite IndexFacts.lookup_inheritance_applyWrites,
          IndexFacts.lookup_definitions_applyWrites.
  destruct (last (inheritanceFor k ws)) as [info|] eqn:Hlast.
  - intros _. assert (Hk : inheritanceFor k ws <> []) by (by intros E; rewrite E in Hlast).
    apply IndexFacts.inheritanceFor_keys, Hsub, IndexFacts.definitionsFor_keys in Hk.
    destruct (definitionsFor k ws); [done|]. simpl. by intros [? [=]]%app_eq_nil.
  - intros Hk. specialize (Hi k Hk). unfold getDefinitions in Hi.
    destruct (definitionsFor k ws); simpl; [done|]. by intros [? [=]]%app_eq_nil.
Qed.

Lemma inheritanceLive_scanFile parse uri ast i :
  inheritanceLive i -> inheritanceLive (scanFile parse uri ast i).
Proof.
  intros Hi. unfold scanFile. destruct ast as [ast|]; [|done].
  destruct (IndexFacts.update_form parse (toString uri) (fsPath uri) ast)
    as (ws & r & syms & Hws & Hsub & ->). simpl.
  assert (Hfin : forall j, inheritanceLive j ->
                           inheritanceLive (finish r (toString uri) syms j))
    by (intros j; by destruct r).
  apply Hfin, inheritanceLive_applyWrites; [done|].
  by apply inheritanceLive_removeFile.
Qed.

(** *** Every index that the calls produce *)

Lemma reachable_index (Q : Index -> Prop) parse :
  Q empty ->
  (forall uri ast i, Q i -> Q (scanFile parse uri ast i)) ->
  (forall uri i, Q i -> Q (removeFile uri i)) ->
  (forall i, Q i -> Q (clearMaps i)) ->
  (forall b i, Q i -> Q (setIndexing b i)) ->
  (forall i, Q i -> Q (clearFiles i)) ->
  forall s, reachable parse s -> Q (idx s).
Proof.
  intros Hempty Hscan Hremove Hclear Hguard Hfiles.
  assert (Hstart : forall cfg i, Q i -> Q (start cfg i).2).
  { intros cfg i Hi. unfold start. repeat case_match; simpl; auto. }
  assert (Hall : forall l i, Q i -> Q (scanAll l i).2).
  { intros [|u l] i Hi; simpl; auto. }
  induction 1 as [|s s' _ IH Hstep]; [done|].
  destruct Hstep as [cfg s|cfg s|s before t after a o i Hts Hr|uri ast s|uri s];
    rewrite ?IndexFacts.idx_spawn; simpl; auto.
  destruct t, a; simpl in Hr; try done; repeat case_match; simplify_eq; auto;
    match goal with H : scanAll ?l ?j = (_, _) |- _ =>
      pose proof (Hall l j IH) as Hs; by rewrite H in Hs end.
Qed.

Lemma reachable_entriesNamed parse s : reachable parse s -> entriesNamed (idx s).
Proof.
  apply reachable_index; try done.
  - split; [|split]; intros k x; unfold getDefinitions, getMethodDefinitions; simpl;
      rewrite lookup_empty; simpl; by intros ?%elem_of_nil || done.
  - intros. by apply entriesNamed_scanFile.
  - intros. by apply entriesNamed_removeFile.
  - intros i _. split; [|split]; intros k x;
      unfold getDefinitions, getMethodDefinitions; simpl;
      rewrite lookup_empty; simpl; by intros ?%elem_of_nil || done.
Qed.

Lemma reachable_inheritanceLive parse s : reachable parse s -> inheritanceLive (idx s).
Proof.
  apply reachable_index; try done.
  - intros k [info Hk]. simpl in Hk. by rewrite lookup_empty in Hk.
  - intros. by apply inheritanceLive_scanFile.
  - intros. by apply inheritanceLive_removeFile.
  - intros i _ k [info Hk]. simpl in Hk. by rewrite lookup_empty in Hk.
Qed.

Lemma flat_map_nil {A B} (f : A -> list B) l :
  (forall x, x ∈ l -> f x = []) -> flat_map f l = [].
Proof.
  induction l as [|x l IH]; intros Hf; simpl; [done|].
  rewrite (Hf x) by left. apply IH. intros y Hy. apply Hf. by right.
Qed.

(** X5.  In every index that calls of the public methods produce, what
    [getDefinitions] answers for a name are definitions of that name
    whose kind is class, interface or trait, without parent and with a
    qualified name that ends with the name; so [getSymbolsByKind] asked
    for methods answers nothing. *)
Theorem definitions_are_named parse s k :
  reachable parse s ->
  Forall (definitionNamed k) (getDefinitions (idx s) k)
  /\ getSymbolsByKind ["method"] (idx s) = [].
Proof.
  intros (Hd & _)%reachable_entriesNamed. split.
  - apply Forall_forall. intros d Hin. by apply Hd.
  - apply flat_map_nil. intros [k' l] Hkv%elem_of_map_to_list. simpl.
    assert (Hl : Forall (definitionNamed k') l).
    { apply Forall_forall. intros d Hin. apply Hd. unfold getDefinitions.
      by rewrite Hkv. }
    clear Hkv. induction Hl as [|d l (_ & Hkind & _) _ IH]; simpl; [done|].
    replace (String.eqb (kind d) "method") with false; [done|].
    symmetry. apply String.eqb_neq. intros E. rewrite E in Hkind.
    unfold typeKinds in Hkind. set_solver.
Qed.

Lemma definitions_are_named_witness :
  getSymbolsByKind ["method"]
    (idx {| idx := scanFile Fixtures.parseUri
                     (Fixtures.parseUri "/ws/test-rename/InterfaceTest.php")
                     (Ok Ast.loggerTest) (idx initial);
            tasks := tasks initial |})
  = [].
Proof.
  exact (proj2 (definitions_are_named Fixtures.parseUri _ "LoggerInterface"
                  (reach_step _ _ _ (reach_initial _)
                     (step_scanFile _
                        (Fixtures.parseUri "/ws/test-rename/InterfaceTest.php")
                        (Ok Ast.loggerTest) initial)))).
Defined.

(** X6.  In every such index, what [getMethodDefinitions] answers for a
    key are methods, each with a parent class, and the key is the
    parent, two colons and the name of the method. *)
Theorem methods_are_keyed parse s k :
  reachable parse s ->
  Forall (methodKeyed k) (getMethodDefinitions (idx s) k).
Proof.
  intros (_ & Hm & _)%reachable_entriesNamed.
  apply Forall_forall. intros d Hin. by apply Hm.
Qed.

Lemma methods_are_keyed_witness :
  Forall (methodKeyed "FileLogger::log")
    (getMethodDefinitions
       (idx {| idx := scanFile Fixtures.parseUri
                        (Fixtures.parseUri "/ws/test-rename/InterfaceTest.php")
                        (Ok Ast.loggerTest) (idx initial);
               tasks := tasks initial |})
       "FileLogger::log").
Proof.
  exact (methods_are_keyed Fixtures.parseUri _ "FileLogger::log"
           (reach_step _ _ _ (reach_initial _)
              (step_scanFile _
                 (Fixtures.parseUri "/ws/test-rename/InterfaceTest.php")
                 (Ok Ast.loggerTest) initial))).
Defined.

Lemma sublist_map_filter {A B} (g : A -> B) (f : A -> bool) l :
  map g (List.filter f l) `sublist_of` map g l.
Proof.
  induction l as [|x l IH]; simpl; [constructor|].
  destruct (f x); simpl; by constructor.
Qed.

Lemma elem_of_getImplementations ix iface c :
  c ∈ getImplementations ix iface
  <-> exists info, getInheritanceInfo ix c = Some info
                   /\ includes (implements info) iface = true.
Proof.
  unfold getImplementations, getInheritanceInfo.
  rewrite list_elem_of_In, in_map_iff. split.
  - intros ([c' info] & <- & [Hin Hf]%filter_In). exists info.
    by rewrite <- list_elem_of_In, elem_of_map_to_list in Hin.
  - intros (info & Hc & Hf). exists (c, info). split; [done|].
    apply filter_In. split; [|done].
    by rewrite <- list_elem_of_In, elem_of_map_to_list.
Qed.

(** X7.  [getImplementations] answers the classes whose entry of the
    inheritance map lists the interface among what they implement,
    each once. *)
Theorem getImplementations_spec ix iface :
  (forall c, c ∈ getImplementations ix iface
             <-> exists info, getInheritanceInfo ix c = Some info
                              /\ includes (implements info) iface = true)
  /\ NoDup (getImplementations ix iface).
Proof.
  split; [intros c; apply elem_of_getImplementations|].
  unfold getImplementations.
  eapply sublist_NoDup; [|apply sublist_map_filter].
  apply NoDup_fst_map_to_list.
Qed.

(** X9.  In every index that calls of the public methods produce, a
    class that [getImplementations] answers is held by the inheritance
    map under its own name and has a definition. *)
Theorem implementations_are_defined parse s iface c :
  reachable parse s ->
  c ∈ getImplementations (idx s) iface ->
  (exists info, getInheritanceInfo (idx s) c = Some info /\ className info = c)
  /\ getDefinitions (idx s) c <> [].
Proof.
  intros Hs Hc. apply elem_of_getImplementations in Hc as (info & Hinfo & _).
  unfold getInheritanceInfo in *. split.
  - exists info. split; [done|].
    by apply (proj2 (proj2 (reachable_entriesNamed _ _ Hs))).
  - apply (reachable_inheritanceLive _ _ Hs). by exists info.
Qed.

Lemma implementations_are_defined_witness :
  (exists info,
     getInheritanceInfo
       (idx {| idx := scanFile Fixtures.parseUri
                        (Fixtures.parseUri "/ws/test-rename/InterfaceTest.php")
                        (Ok Ast.loggerTest) (idx initial);
               tasks := tasks initial |}) "FileLogger" = Some info
     /\ className info = "FileLogger")
  /\ getDefinitions
       (idx {| idx := scanFile Fixtures.parseUri
                        (Fixtures.parseUri "/ws/test-rename/InterfaceTest.php")
                        (Ok Ast.loggerTest) (idx initial);
               tasks := tasks initial |}) "FileLogger" <> [].
Proof.
  refine (implementations_are_defined Fixtures.parseUri _ "LoggerInterface" "FileLogger"
            (reach_step _ _ _ (reach_initial _)
               (step_scanFile _
                  (Fixtures.parseUri "/ws/test-rename/InterfaceTest.php")
                  (Ok Ast.loggerTest) initial)) _).
  vm_compute. repeat constructor.
Defined.

End IndexInvariants.

(** ** The loop of the workspace scan *)

Module ScanLoopFacts.
Import Js Indexer IndexerApi.

(** X8.  Once the files are known, the invocation that is given what
    the read of each file yields, in the order of the list, makes one
    scan per file in that order, whether a read succeeds or fails, and
    then returns with the guard cleared. *)
Theorem scan_runs_through parse work i :
  proceed parse (map (fun w => FileRead w.2) work)
          (scanAll (map fst work) i).1 (scanAll (map fst work) i).2
  = Some (Returned, setIndexing false (scanEach parse work i)).
Proof.
  destruct work as [|w rest]; [done|]. simpl. revert w i.
  induction rest as [|w' rest IH]; intros w i; [done|].
  simpl. apply IH.
Qed.

End ScanLoopFacts.

(** ** The autoload table *)

Module AutoloadFacts.
Import Psr4 Autoloads.

Lemma entry_app k a b :
  entry k (a ++ b)%list = match entry k a with Some v => Some v | None => entry k b end.
Proof.
  induction a as [|[k' v] a IH]; simpl; [done|]. by destruct (String.eqb k k').
Qed.

Lemma entry_objSet k k0 v0 o :
  entry k (objSet k0 v0 o) = if String.eqb k k0 then Some v0 else entry k o.
Proof.
  induction o as [|[k' v'] o IH]; simpl.
  - by destruct (String.eqb k k0).
  - destruct (String.eqb_spec k0 k') as [->|Hne]; simpl.
    + by destruct (String.eqb k k').
    + rewrite IH. destruct (String.eqb_spec k k') as [->|]; [|done].
      destruct (String.eqb_spec k' k0) as [->|]; done.
Qed.

Lemma entry_fold k l : forall o,
  entry k (fold_left (fun o kv => objSet kv.1 kv.2 o) l o)
  = match lastEntry k l with Some v => Some v | None => entry k o end.
Proof.
  unfold lastEntry. induction l as [|[k0 v0] l IH]; intros o; simpl; [done|].
  rewrite IH, entry_app, entry_objSet. simpl.
  destruct (entry k (rev l)); [done|]. by destruct (String.eqb k k0).
Qed.

Lemma elem_of_keys_objSet x k v o :
  x ∈ map fst (objSet k v o) -> x = k \/ x ∈ map fst o.
Proof.
  induction o as [|[k' v'] o IH]; simpl.
  - intros ->%list_elem_of_singleton. by left.
  - destruct (String.eqb_spec k k') as [->|Hne]; simpl; [by right|].
    intros [->|Hx]%elem_of_cons; [right; left|].
    destruct (IH Hx); [by left|right; by right].
Qed.

Lemma NoDup_objSet k v o : NoDup (map fst o) -> NoDup (map fst (objSet k v o)).
Proof.
  induction o as [|[k' v'] o IH]; simpl.
  - intros _. apply NoDup_singleton.
  - intros [Hk' Ho]%NoDup_cons.
    destruct (String.eqb_spec k k') as [->|Hne]; simpl; [by apply NoDup_cons|].
    apply NoDup_cons. split; [|auto].
    intros [->|Hin]%elem_of_keys_objSet; done.
Qed.

(** X10.  In the merged table every namespace prefix is there once, and
    its directories are those that [autoload-dev] gives it when it names
    the prefix, those of [autoload] otherwise: an entry of [autoload-dev]
    replaces the entry of [autoload] for the same prefix. *)
Theorem spread_lookup a b :
  NoDup (map fst (spread a b))
  /\ forall k, entry k (spread a b)
               = match lastEntry k b with Some v => Some v | None => lastEntry k a end.
Proof.
  unfold spread. split.
  - generalize (NoDup_nil_2 (A := string)).
    change (@nil string) with (map fst (@nil (string * Paths))).
    generalize (@nil (string * Paths)).
    induction (a ++ b)%list as [|kv l IH]; intros o Ho; simpl; [done|].
    apply IH. by apply NoDup_objSet.
  - intros k. rewrite entry_fold. unfold lastEntry. rewrite rev_app_distr, entry_app.
    simpl. by destruct (entry k (rev b)), (entry k (rev a)).
Qed.

Lemma toUnix_replaceAll sep p : toUnix sep p = replaceAll sep "/" p.
Proof.
  unfold toUnix. induction p as [|a r IH]; simpl; [done|].
  destruct (Ascii.eqb a sep); simpl.
  - destruct (Str.split sep r) as [|x xs] eqn:Hs.
    + by destruct r; simpl in Hs; repeat case_match.
    + by rewrite <- IH.
  - destruct (Str.split sep r) as [|x xs] eqn:Hs.
    + by destruct r; simpl in Hs; repeat case_match.
    + rewrite <- IH. simpl. by destruct xs.
Qed.

Lemma replaceAll_app c d s t :
  replaceAll c d (s ++ t) = replaceAll c d s ++ replaceAll c d t.
Proof.
  induction s as [|a r IH]; [done|].
  change (String (if Ascii.eqb a c then d else a) (replaceAll c d (r ++ t))
          = String (if Ascii.eqb a c then d else a) (replaceAll c d r ++ replaceAll c d t)).
  by rewrite IH.
Qed.

Lemma stripTrailing_app c s :
  Str.stripTrailing c (s ++ String c EmptyString) = s.
Proof.
  induction s as [|a r IH].
  - simpl. by rewrite Ascii.eqb_refl.
  - change (Str.stripTrailing c (String a (r ++ String c EmptyString)) = String a r).
    simpl. destruct (r ++ String c EmptyString) eqn:Hr.
    + by destruct r.
    + by rewrite IH.
Qed.

Lemma stripTrailing_none c s :
  Str.endsWith (String c EmptyString) s = false -> Str.stripTrailing c s = s.
Proof.
  induction s as [|a r IH]; [done|]. destruct r as [|b r].
  - unfold Str.endsWith. simpl. by destruct (Ascii.eqb a c).
  - intros Hend. change (String a (Str.stripTrailing c (String b r)) = String a (String b r)).
    f_equal. apply IH. unfold Str.endsWith in *. simpl in *.
    by rewrite Nat.sub_0_r in *.
Qed.

(** X11.  A directory of the table may be written with or without a
    slash at its end: the inner loop does the same with both. *)
Theorem trailing_slash_is_ignored sep relativeDir namespace best p :
  Str.endsWith "/" (toUnix sep p) = false ->
  visitPath sep relativeDir namespace best (p ++ "/")
  = visitPath sep relativeDir namespace best p.
Proof.
  intros Hend. unfold visitPath.
  assert (Hn : normalizePrefix sep (p ++ "/") = normalizePrefix sep p).
  { unfold normalizePrefix. rewrite (stripTrailing_none Str.slash _ Hend).
    rewrite !toUnix_replaceAll, replaceAll_app.
    replace (replaceAll sep "/" "/") with (String Str.slash EmptyString)
      by (cbn [replaceAll]; by destruct (Ascii.eqb "/" sep)).
    apply stripTrailing_app. }
  by rewrite Hn.
Qed.

Lemma trailing_slash_is_ignored_witness :
  visitPath Str.slash "src/Controller" "App\" noMatch ("src" ++ "/")
  = visitPath Str.slash "src/Controller" "App\" noMatch "src".
Proof.
  apply (trailing_slash_is_ignored Str.slash "src/Controller" "App\" noMatch "src").
  reflexivity.
Defined.

End AutoloadFacts.
(** ** The name that the quick fix imports *)

Module ImportActionFacts.
Import Js Indexer IndexerApi ImportCodeActions.

Lemma qualify_suffix ns c : exists prefix, qualify ns c = prefix ++ c.
Proof.
  unfold qualify. destruct (String.eqb ns EmptyString).
  - by exists EmptyString.
  - exists (ns ++ "\"). by rewrite IndexInvariants.append_assoc.
Qed.

Lemma getFQN_fallback def c :
  RefactorPreview.nonEmpty (fqn def) = None ->
  exists prefix, getFQNFromDefinition def c = prefix ++ c.
Proof.
  intros Hnone. unfold getFQNFromDefinition. rewrite Hnone.
  repeat case_match; try apply qualify_suffix. by exists EmptyString.
Qed.

(** X12.  For a class name that is not empty, every definition that
    [getDefinitions] answers in an index produced by calls of the
    public methods gets its stored qualified name as the name to
    import, and that name ends with the class name asked for.  A
    definition without a stored qualified name gets a name guessed
    from its path, which ends with the class name too. *)
Theorem import_names_the_class parse s c :
  (forall def, RefactorPreview.nonEmpty (fqn def) = None ->
               exists prefix, getFQNFromDefinition def c = prefix ++ c)
  /\ (reachable parse s -> c <> EmptyString ->
      Forall (fun def => fqn def = Some (getFQNFromDefinition def c)
                         /\ exists prefix, getFQNFromDefinition def c = prefix ++ c)
             (getDefinitions (idx s) c)).
Proof.
  split; [intros def; apply getFQN_fallback|].
  intros (Hd & _)%IndexInvariants.reachable_entriesNamed Hc.
  apply Forall_forall. intros def (_ & _ & _ & prefix & Hfqn)%Hd.
  unfold getFQNFromDefinition. rewrite Hfqn. simpl.
  destruct (String.eqb_spec (prefix ++ c) EmptyString) as [E|_]; [|eauto].
  destruct prefix, c; done.
Qed.

Lemma import_names_the_class_witness :
  Forall (fun def => fqn def = Some (getFQNFromDefinition def "FileLogger")
                     /\ exists prefix,
                          getFQNFromDefinition def "FileLogger" = prefix ++ "FileLogger")
         (getDefinitions
            (idx {| idx := scanFile Fixtures.parseUri
                             (Fixtures.parseUri "/ws/test-rename/InterfaceTest.php")
                             (Ok Ast.loggerTest) (idx initial);
                    tasks := tasks initial |})
            "FileLogger").
Proof.
  refine (proj2 (import_names_the_class Fixtures.parseUri _ "FileLogger")
            (reach_step _ _ _ (reach_initial _)
               (step_scanFile _
                  (Fixtures.parseUri "/ws/test-rename/InterfaceTest.php")
                  (Ok Ast.loggerTest) initial)) _).
  discriminate.
Defined.

End ImportActionFacts.

(** ** More imports, fewer diagnostics *)

Module DiagnosticLaws.
Import Js Node ImportDiagnostics.

Lemma checkUsed_more_imports ix c c' u ds :
  imports c ⊆ imports c' ->
  currentNamespace c' = currentNamespace c ->
  checkUsed ix c u = Ok ds ->
  exists ds', checkUsed ix c' u = Ok ds' /\ ds' `sublist_of` ds.
Proof.
  intros Hsub Hns. unfold checkUsed. rewrite Hns.
  destruct (decide (usedName u ∈ imports c')) as [Hin'|Hout'].
  - intros _. rewrite bool_decide_true by done. exists []. split; [done|].
    apply sublist_nil_l.
  - rewrite (bool_decide_false (usedName u ∈ imports c')) by done.
    rewrite (bool_decide_false (usedName u ∈ imports c)) by (intros H; apply Hout', Hsub, H).
    intros ->. by exists ds.
Qed.

(** X13.  With more names imported the document gets no new diagnostic:
    what is reported for the same used names is a subsequence of what
    was reported before. *)
Theorem more_imports_fewer_diagnostics ix c c' used ds :
  imports c ⊆ imports c' ->
  currentNamespace c' = currentNamespace c ->
  checkAll ix c used = Ok ds ->
  exists ds', checkAll ix c' used = Ok ds' /\ ds' `sublist_of` ds.
Proof.
  intros Hsub Hns. revert ds. induction used as [|u rest IH]; simpl; intros ds Hds.
  - simplify_eq. by exists [].
  - destruct (checkUsed ix c u) as [here|] eqn:Hhere; simpl in Hds; [|done].
    destruct (checkAll ix c rest) as [more|] eqn:Hmore; simpl in Hds; [|done].
    simplify_eq.
    destruct (checkUsed_more_imports ix c c' u here Hsub Hns Hhere) as (here' & -> & H1).
    destruct (IH more eq_refl) as (more' & -> & H2). simpl.
    exists (here' ++ more')%list. split; [done|]. by apply sublist_app.
Qed.

Lemma more_imports_fewer_diagnostics_witness :
  exists ds',
    checkAll Indexer.empty
      {| imports := {["Object"]}; importedFQNs := ∅;
         currentNamespace := currentNamespace UserFixture.userCollected;
         usedClasses := usedClasses UserFixture.userCollected |}
      (usedClasses UserFixture.userCollected) = Ok ds'
    /\ ds' `sublist_of` [missingImport "Object" (Fixtures.span 4 19 25);
                         missingImport "Profile" (Fixtures.span 6 41 48)].
Proof.
  apply (more_imports_fewer_diagnostics Indexer.empty UserFixture.userCollected).
  - apply empty_subseteq.
  - reflexivity.
  - vm_compute. reflexivity.
Defined.

End DiagnosticLaws.

(** ** What a method rename writes *)

Module RenameEditFacts.
Import Js Node Vscode RefactorPreview Keeps KeepsFacts.

Lemma keeps_descend {S} (Inv : S -> Prop) (visit : js -> SM S unit) val :
  (forall x, (size x <= size val)%nat -> keeps Inv (visit x)) ->
  keeps Inv (descend visit val).
Proof.
  intros Hv. unfold descend. destruct val as [| |b|z|s|l|fs];
    try (repeat case_match; first [apply keeps_ret | by apply Hv]).
  destruct l as [|first l]; [apply keeps_ret|].
  destruct (isObject first); [|apply keeps_ret].
  apply keeps_bind; [apply keeps_lift|]. intros k.
  destruct (truthy k); [|apply keeps_ret].
  apply keeps_nodes. intros l' [= <-] x Hx. apply Hv.
  pose proof (IndexFacts.size_element _ _ Hx). lia.
Qed.

Section Target.
Variable t : Target.

Lemma new_setVar x ty :
  keeps (fun u => Forall (fun e => newText e = newMethod t) (edits u)) (setVar x ty).
Proof. by apply keeps_modify. Qed.

Lemma new_pushEdit r :
  keeps (fun u => Forall (fun e => newText e = newMethod t) (edits u))
        (pushEdit (replace r (newMethod t))).
Proof.
  apply keeps_modify. intros u Hu. simpl. apply Forall_app. split; [done|].
  by repeat constructor.
Qed.

Lemma new_bindArgument arg :
  keeps (fun u => Forall (fun e => newText e = newMethod t) (edits u)) (bindArgument t arg).
Proof.
  unfold bindArgument. apply keeps_bind; [apply keeps_lift|]. intros ty.
  repeat case_match; try apply keeps_ret. apply keeps_when, new_setVar.
Qed.

Lemma new_trackAssign node :
  keeps (fun u => Forall (fun e => newText e = newMethod t) (edits u)) (trackAssign t node).
Proof.
  unfold trackAssign.
  repeat first [ apply keeps_ret | apply new_setVar | apply keeps_when
               | apply keeps_bind; [apply keeps_get|intros ?] | case_match ].
Qed.

Lemma new_checkCall node :
  keeps (fun u => Forall (fun e => newText e = newMethod t) (edits u)) (checkCall t node).
Proof.
  unfold checkCall.
  repeat first [ apply keeps_ret | apply new_pushEdit
               | apply keeps_bind; [first [apply keeps_lift|apply keeps_get]|intros ?]
               | case_match ].
Qed.

Lemma new_traverseNode node :
  keeps (fun u => Forall (fun e => newText e = newMethod t) (edits u)) (traverseNode t node).
Proof.
  remember (size node) as n eqn:Hn. revert node Hn.
  induction n as [n IH] using lt_wf_ind. intros node ->.
  assert (Hsmall : forall x, (size x < size node)%nat ->
            keeps (fun u => Forall (fun e => newText e = newMethod t) (edits u))
                  (traverseNode t x)).
  { intros x Hx. by eapply IH. }
  clear IH.
  assert (Hnodes : forall fs kv, node = JObj fs -> kv ∈ fs ->
            keeps (fun u => Forall (fun e => newText e = newMethod t) (edits u))
                  (Loop.nodes (traverseNode t) kv.2)).
  { intros fs kv -> Hkv. apply keeps_nodes. intros l Hl x Hx. apply Hsmall.
    pose proof (IndexFacts.size_field _ _ Hkv) as H1. rewrite Hl in H1.
    pose proof (IndexFacts.size_element _ _ Hx). lia. }
  destruct node as [| | | | | l | fs]; simpl;
    try apply keeps_ret; try apply keeps_lift.
  - apply keeps_forEach. intros x Hx. apply keeps_descend. intros y Hy.
    apply Hsmall. pose proof (IndexFacts.size_element _ _ Hx). simpl in *. lia.
  - case_match.
    + apply keeps_bind; [apply keeps_get|]. intros outer.
      apply keeps_bind; [apply keeps_when, keeps_forOf, new_bindArgument|]. intros _.
      apply keeps_bind; [|intros _; by apply keeps_modify].
      apply keeps_onField; [apply keeps_ret|]. intros kv Hkv.
      destruct (isArray kv.2); [by eapply Hnodes|].
      destruct kv.2 as [| | | | | |bfs] eqn:Hbody; try apply keeps_ret.
      apply keeps_onField; [apply keeps_ret|]. intros kv' Hkv'.
      apply keeps_nodes. intros l Hl x Hx. apply Hsmall.
      pose proof (IndexFacts.size_field _ _ Hkv) as H1. rewrite Hbody in H1.
      pose proof (IndexFacts.size_field _ _ Hkv') as H2. rewrite Hl in H2.
      pose proof (IndexFacts.size_element _ _ Hx). lia.
    + apply keeps_bind; [apply new_trackAssign|]. intros _.
      apply keeps_bind; [apply new_checkCall|]. intros _.
      apply keeps_bind.
      { apply keeps_when, keeps_onField; [apply keeps_ret|].
        intros kv Hkv. by eapply Hnodes. }
      intros _. apply keeps_bind.
      { apply keeps_when, keeps_onField; [apply keeps_ret|].
        intros kv Hkv. by eapply Hnodes. }
      intros _. apply keeps_forIn. intros kv Hkv.
      destruct (skippedKey kv.1); [apply keeps_ret|].
      apply keeps_descend. intros y Hy. apply Hsmall.
      pose proof (IndexFacts.size_field _ _ Hkv). lia.
Qed.

End Target.

Lemma findMethodUsages_new_name ast cls old new es :
  findMethodUsages ast cls old new = Ok es ->
  Forall (fun e => newText e = new) es.
Proof.
  unfold findMethodUsages. case_match; [by intros [= <-]|].
  destruct (collectImports _ _) as [[[]|] imports]; [|done].
  destruct (collectClassProperties _ _ _) as [[[]|] props]; [|done].
  match goal with |- context [traverse ?t ?c ?s] =>
    pose proof (keeps_nodes _ (traverseNode t) c
                  (fun l _ x _ => new_traverseNode t x) s) as Hk;
    destruct (traverse t c s) as [[[]|] u] eqn:Hrun
  end; [|done].
  unfold traverse in Hrun. rewrite Hrun in Hk. simpl in Hk.
  intros [= <-]. apply Hk. constructor.
Qed.

Lemma updateDefNode_replaces uri old new node :
  keeps (fun e : WorkspaceEdit => Forall (fun c => exists r, c = CallReplace uri r new) e)
        (updateDefNode uri old new node).
Proof.
  remember (size node) as n eqn:Hn. revert node Hn.
  induction n as [n IH] using lt_wf_ind. intros node ->.
  assert (Hnodes : forall fs kv, node = JObj fs -> kv ∈ fs ->
            keeps (fun e : WorkspaceEdit =>
                     Forall (fun c => exists r, c = CallReplace uri r new) e)
                  (Loop.forNodes (updateDefNode uri old new) kv.2)).
  { intros fs kv -> Hkv. apply keeps_forNodes. intros l Hl x Hx.
    eapply IH; [|reflexivity].
    pose proof (IndexFacts.size_field _ _ Hkv) as H1. rewrite Hl in H1.
    pose proof (IndexFacts.size_element _ _ Hx). lia. }
  destruct node as [| | | | | l | fs]; simpl;
    try apply keeps_ret; try apply keeps_lift.
  apply keeps_bind.
  { repeat first [ apply keeps_ret
                 | apply keeps_bind; [apply keeps_lift|intros ?]
                 | case_match ].
    apply keeps_modify. intros e He. apply Forall_app. split; [done|].
    repeat constructor. eauto. }
  intros _. apply keeps_bind.
  - apply keeps_onField; [apply keeps_ret|]. intros kv Hkv.
    destruct (truthy kv.2); [by eapply Hnodes|apply keeps_ret].
  - intros _. apply keeps_onField; [apply keeps_ret|]. intros kv Hkv.
    destruct (isArray kv.2); [by eapply Hnodes|apply keeps_ret].
Qed.

Lemma callsOf_form cls old new f c :
  c ∈ callsOf cls old new f ->
  exists es, c = CallSet (fsPath f) es /\ es <> []
             /\ Forall (fun e => newText e = new) es.
Proof.
  unfold callsOf, scanFile.
  destruct (_ ← content f; fileAst ← parsed f; findMethodUsages fileAst cls old new)
    as [[|e es]|] eqn:Hrun; simpl; try by intros ?%elem_of_nil.
  intros ->%list_elem_of_singleton. exists (e :: es). split; [done|]. split; [done|].
  destruct (content f) as [txt|]; simpl in Hrun; [|done].
  destruct (parsed f) as [ast|]; simpl in Hrun; [|done].
  by apply findMethodUsages_new_name in Hrun.
Qed.

(** X15.  Whatever the files hold, a method rename writes the new name
    and nothing else: a call it makes on the workspace edit replaces a
    range of the file of the cursor by the new name, or sets for a file
    of the workspace, whose text mentions the old name after an arrow or
    two colons, a list of edits that is not empty and whose texts are
    all the new name. *)
Theorem rename_writes_the_new_name file old new phpFiles edit :
  createMethodRenameEdit file old new phpFiles = Ok (Some edit) ->
  Forall (fun c =>
            (exists r, c = CallReplace (fsPath file) r new)
            \/ exists f es, c = CallSet (fsPath f) es
                            /\ f ∈ phpFiles /\ mentions old f = true
                            /\ es <> [] /\ Forall (fun e => newText e = new) es)
         edit.
Proof.
  unfold createMethodRenameEdit.
  destruct (renameTarget file old new) as [[[cls defs]|]|] eqn:Htarget; simpl; try done.
  intros [= <-]. rewrite PrefilterFacts.scanFiles_flat_map. apply Forall_app. split.
  - unfold renameTarget in Htarget.
    destruct (content file) as [txt|]; simpl in Htarget; [|done].
    destruct (parsed file) as [ast|]; simpl in Htarget; [|done].
    destruct (getClassNameFromFile ast) as [className|]; simpl in Htarget; [|done].
    destruct (getNamespaceFromAst ast) as [ns|]; simpl in Htarget; [|done].
    destruct (negb (truthy className)); [done|].
    destruct (str className) as [c|]; simpl in Htarget; [|done].
    destruct (prop "children" ast) as [children|]; simpl in Htarget; [|done].
    destruct (truthy children).
    + pose proof (keeps_forNodes _ (updateDefNode (fsPath file) old new) children
                    (fun l _ x _ => updateDefNode_replaces (fsPath file) old new x) [])
        as Hk.
      unfold updateDefTraverse in Htarget.
      destruct (Loop.forNodes (updateDefNode (fsPath file) old new) children [])
        as [[[]|] e]; [|done].
      simplify_eq. simpl in Hk. eapply Forall_impl; [apply Hk; constructor|].
      simpl. eauto.
    + simplify_eq. constructor.
  - apply Forall_forall. intros c (f & Hf & Hc)%list_elem_of_In%in_flat_map.
    apply list_elem_of_In in Hc. apply callsOf_form in Hc as (es & -> & Hes & Hnew).
    unfold filesToScan in Hf. apply filter_In in Hf as [Hf Hm].
    right. exists f, es. by rewrite list_elem_of_In.
Qed.

Lemma rename_writes_the_new_name_witness :
  Forall (fun c =>
            (exists r, c = CallReplace (fsPath Fixtures.classAwareFile) r "run")
            \/ exists f es, c = CallSet (fsPath f) es
                            /\ f ∈ [Fixtures.classAwareFile; Fixtures.classAwareUsageFile]
                            /\ mentions "handle" f = true
                            /\ es <> [] /\ Forall (fun e => newText e = "run") es)
    [CallReplace (fsPath Fixtures.classAwareFile) (Fixtures.span 5 20 26) "run";
     CallReplace (fsPath Fixtures.classAwareFile) (Fixtures.span 16 20 26) "run";
     CallSet (fsPath Fixtures.classAwareFile)
       [replace (Fixtures.span 11 22 28) "run"; replace (Fixtures.span 22 22 28) "run"];
     CallSet (fsPath Fixtures.classAwareUsageFile)
       [replace (Fixtures.span 8 15 21) "run"]].
Proof.
  apply (rename_writes_the_new_name Fixtures.classAwareFile "handle" "run"
           [Fixtures.classAwareFile; Fixtures.classAwareUsageFile]).
  vm_compute. reflexivity.
Defined.

(** X16.  The update of the imports after a move leaves the moved file
    alone: every call it adds sets, for a file of the workspace other
    than the moved one, the edits that [findAndUpdateImports] gives for
    that file, and these are not empty. *)
Theorem import_update_spares_moved_file mv moved phpFiles :
  Forall (fun c => exists f e es,
            c = CallSet (fsPath f) (e :: es)
            /\ f ∈ phpFiles /\ fsPath f <> moved
            /\ (text ← content f; ast ← parsed f; findAndUpdateImports ast text mv)
               = Ok (Some (e :: es)))
         (updateImportsInOtherFiles mv moved [] phpFiles).
Proof.
  unfold updateImportsInOtherFiles.
  assert (Hgen : forall files edit,
            (forall f, f ∈ files -> f ∈ phpFiles) ->
            Forall (fun c => exists f e es,
                      c = CallSet (fsPath f) (e :: es)
                      /\ f ∈ phpFiles /\ fsPath f <> moved
                      /\ (text ← content f; ast ← parsed f;
                          findAndUpdateImports ast text mv) = Ok (Some (e :: es))) edit ->
            Forall (fun c => exists f e es,
                      c = CallSet (fsPath f) (e :: es)
                      /\ f ∈ phpFiles /\ fsPath f <> moved
                      /\ (text ← content f; ast ← parsed f;
                          findAndUpdateImports ast text mv) = Ok (Some (e :: es)))
                   (fold_left (updateImportsInFile mv moved) files edit)).
  { induction files as [|f files IH]; intros edit Hin Hedit; simpl; [done|].
    apply IH; [intros g Hg; apply Hin; by right|].
    unfold updateImportsInFile.
    destruct (String.eqb_spec (fsPath f) moved) as [|Hne]; [done|].
    destruct (_ ← content f; ast ← parsed f; findAndUpdateImports ast _ mv)
      as [[[|e es]|]|] eqn:Hrun; try done.
    apply Forall_app. split; [done|]. repeat constructor.
    exists f, e, es. split; [done|]. split; [apply Hin; left|done]. }
  apply Hgen; [done|constructor].
Qed.

End RenameEditFacts.

(** ** A scan and the removal of its file *)

Module ScanRoundTrip.
Import Js Node Indexer IndexerApi Keeps KeepsFacts ScanSymbols.

Lemma pushed_None (o : option (list SymbolDef)) l :
  pushed o l = None <-> o = None /\ l = [].
Proof.
  destruct l; simpl; [|split; [done|by intros [_ ?]]].
  split; [done|by intros [? _]].
Qed.

Lemma remove_scan_inheritance parse uri ast i k :
  parse (toString uri) = uri ->
  inheritanceDefined i ->
  (forall d, d ∈ getDefinitions i k -> path d = fsPath uri)
  \/ (forall d, d ∈ getDefinitions (scanFile parse uri ast i) k -> path d <> fsPath uri) ->
  inheritance (removeFile uri (scanFile parse uri ast i)) !! k
  = inheritance (removeFile uri i) !! k.
Proof.
  intros Hparse Hlive Hk. destruct ast as [ast|]; [|done].
  pose proof (proj1 (IndexerLaws.scanFile_others parse uri (Ok ast) i k Hparse)) as Hsame.
  assert (Hother : (exists d, d ∈ getDefinitions (scanFile parse uri (Ok ast) i) k
                              /\ path d <> fsPath uri)
                   <-> exists d, d ∈ getDefinitions i k /\ path d <> fsPath uri).
  { assert (Hin : forall j, (exists d, d ∈ getDefinitions j k /\ path d <> fsPath uri)
                    <-> exists d, d ∈ List.filter
                                     (fun d => negb (String.eqb (path d) (fsPath uri)))
                                     (getDefinitions j k)).
    { intros j. split.
      - intros (d & Hd & Hne). exists d. apply list_elem_of_In, filter_In.
        split; [by apply list_elem_of_In|].
        by destruct (String.eqb_spec (path d) (fsPath uri)).
      - intros (d & Hd). apply list_elem_of_In, filter_In in Hd as [Hd Hne].
        exists d. split; [by apply list_elem_of_In|].
        intros Hp. by rewrite Hp, String.eqb_refl in Hne. }
    by rewrite !Hin, Hsame. }
  destruct (IndexerLaws.scan_writes_form parse uri ast i k Hparse)
    as (l & infos & Hl & Hinfos & Hdefs & Hinh).
  apply option_eq. intros info.
  rewrite !IndexerLaws.lookup_inheritance_removeFile, Hother.
  rewrite Hdefs, pushed_None, Hinh. rewrite fmap_None.
  destruct l as [|d l].
  - destruct infos as [|x infos _] using rev_ind;
      [|destruct Hinfos; [by destruct infos|done]].
    change (last []) with (@None InheritanceInfo).
    rewrite IndexerLaws.lookup_inheritance_removeFile. tauto.
  - assert (Hd : d ∈ getDefinitions (scanFile parse uri (Ok ast) i) k).
    { unfold getDefinitions. rewrite Hdefs. simpl. apply elem_of_app. right. left. }
    assert (Hp : path d = fsPath uri) by (by apply Forall_cons in Hl as [? _]).
    destruct Hk as [Hk|Hk]; [|by destruct (Hk d Hd)].
    split.
    + intros [_ [[_ ?]|(d' & Hd' & Hne)]]; [done|]. destruct Hne. by apply Hk.
    + intros [Hi [Hnone|(d' & Hd' & Hne)]]; [|destruct Hne; by apply Hk].
      destruct (Hlive k) as [? Hsome]; [by eexists|]. congruence.
Qed.

(** X17.  Removing a file after its scan gives, for the three queries
    and for the set of files, what removing it without the scan gives:
    the definitions, the methods and the candidates of every key are the
    same.  In an index where every class of the inheritance map has an
    entry among the definitions, the inheritance of a class is the same
    too when no other file defines the class, and when the scanned text
    does not define it.  Nothing is said here of the inheritance of a
    class that both the scanned text and another file define. *)
Theorem remove_undoes_scan parse uri ast i k :
  parse (toString uri) = uri ->
  getDefinitions (removeFile uri (scanFile parse uri ast i)) k
  = getDefinitions (removeFile uri i) k
  /\ getMethodDefinitions (removeFile uri (scanFile parse uri ast i)) k
     = getMethodDefinitions (removeFile uri i) k
  /\ (forall u, u ∈ getCandidates (removeFile uri (scanFile parse uri ast i)) k
                <-> u ∈ getCandidates (removeFile uri i) k)
  /\ files (removeFile uri (scanFile parse uri ast i)) = files (removeFile uri i)
  /\ (inheritanceDefined i ->
      (forall d, d ∈ getDefinitions i k -> path d = fsPath uri)
      \/ (forall d, d ∈ getDefinitions (scanFile parse uri ast i) k ->
                    path d <> fsPath uri) ->
      inheritance (removeFile uri (scanFile parse uri ast i)) !! k
      = inheritance (removeFile uri i) !! k).
Proof.
  intros Hparse.
  destruct (IndexerLaws.scanFile_others parse uri ast i k Hparse) as (Hd & Hm & Hc).
  rewrite !IndexerLaws.getDefinitions_removeFile,
          !IndexerLaws.getMethodDefinitions_removeFile.
  split; [done|]. split; [done|]. split; [|split].
  - intros u. rewrite !IndexerLaws.getCandidates_removeFile.
    split; intros [Hu Hin]; (split; [done|]); by apply (Hc u Hu).
  - destruct ast as [ast|].
    + destruct (IndexerLaws.scanFile_form parse uri ast Hparse)
        as (ws & r & syms & _ & _ & ->). simpl.
      destruct (IndexFacts.finish_frame r (toString uri) syms
                  (applyWrites ws (removeFile uri (addFile (toString uri) i))))
        as (_ & _ & _ & -> & _).
      destruct (IndexFacts.applyWrites_frame ws
                  (removeFile uri (addFile (toString uri) i))) as (_ & -> & _).
      simpl. set_solver.
    + simpl. set_solver.
  - by apply remove_scan_inheritance.
Qed.

Lemma remove_undoes_scan_witness :
  getDefinitions
    (removeFile (Fixtures.parseUri "/ws/test-rename/InterfaceTest.php")
       (scanFile Fixtures.parseUri (Fixtures.parseUri "/ws/test-rename/InterfaceTest.php")
          (Ok Ast.loggerTest) empty)) "FileLogger"
  = getDefinitions
      (removeFile (Fixtures.parseUri "/ws/test-rename/InterfaceTest.php") empty)
      "FileLogger"
  /\ inheritance
       (removeFile (Fixtures.parseUri "/ws/test-rename/InterfaceTest.php")
          (scanFile Fixtures.parseUri
             (Fixtures.parseUri "/ws/test-rename/InterfaceTest.php")
             (Ok Ast.loggerTest) empty)) !! "FileLogger"
     = inheritance
         (removeFile (Fixtures.parseUri "/ws/test-rename/InterfaceTest.php") empty)
       !! "FileLogger".
Proof.
  split.
  - exact (proj1 (remove_undoes_scan Fixtures.parseUri
                    (Fixtures.parseUri "/ws/test-rename/InterfaceTest.php")
                    (Ok Ast.loggerTest) empty "FileLogger" eq_refl)).
  - apply (proj2 (proj2 (proj2 (proj2
             (remove_undoes_scan Fixtures.parseUri
                (Fixtures.parseUri "/ws/test-rename/InterfaceTest.php")
                (Ok Ast.loggerTest) empty "FileLogger" eq_refl))))).
    + intros c [info Hinfo]. vm_compute in Hinfo. discriminate.
    + left. intros d Hd. vm_compute in Hd. by apply elem_of_nil in Hd.
Defined.

(** *** The names defined are among the symbols found *)

Lemma keeps_bind_through {S A B} (P Q : S -> Prop) (m : SM S A) (k : A -> SM S B) :
  (forall s, P s -> Q (m s).2) -> (forall a, keeps Q (k a)) ->
  (forall s, Q s -> P s) -> keeps P (m ≫= k).
Proof.
  intros Hm Hk Hweak s Hs. unfold mbind, SM_bind. specialize (Hm s Hs).
  destruct (m s) as [[a|] s']; simpl in *; [by apply Hweak, Hk|by apply Hweak].
Qed.

Section File.
Variable p : string.

Lemma found_addSymbol X sym : keeps (definedAreFound p X) (addSymbol sym).
Proof.
  apply keeps_modify. intros s [Hd HX]. split; simpl.
  - intros k d Hin Hp. apply elem_of_union_r. eauto.
  - set_solver.
Qed.

Lemma found_setNamespace X n : keeps (definedAreFound p X) (setNamespace n).
Proof. by apply keeps_modify. Qed.

Lemma found_getNamespace X : keeps (definedAreFound p X) getNamespace.
Proof. by intros s. Qed.

Lemma found_addMethod X key def : keeps (definedAreFound p X) (onIndex (addMethod key def)).
Proof. by apply keeps_modify. Qed.

Lemma found_setInheritance X key info :
  keeps (definedAreFound p X) (onIndex (setInheritance key info)).
Proof. by apply keeps_modify. Qed.

Lemma found_addDefinition X key def :
  key ∈ X -> keeps (definedAreFound p X) (onIndex (addDefinition key def)).
Proof.
  intros Hkey. apply keeps_modify. intros s [Hd HX]. split; [|done]. simpl.
  intros k d [?|[-> ->]]%IndexInvariants.elem_of_pushDef Hp; [eauto|]. by apply HX.
Qed.

Lemma found_indexMethod X c bodyNode : keeps (definedAreFound p X) (indexMethod p c bodyNode).
Proof.
  unfold indexMethod. apply keeps_bind; [apply keeps_lift|]. intros isMethod.
  apply keeps_when. apply keeps_bind; [apply keeps_lift|]. intros methodName.
  apply keeps_bind; [apply keeps_lift|]. intros methodRange. apply found_addMethod.
Qed.

Lemma found_traverseBody X c bodyNodes :
  keeps (definedAreFound p X) (traverseBody p c bodyNodes).
Proof.
  unfold traverseBody. destruct (truthy bodyNodes); [|apply keeps_ret].
  apply keeps_forOf. intros x. apply found_indexMethod.
Qed.

Lemma found_indexType X node : keeps (definedAreFound p X) (indexType p node).
Proof.
  unfold indexType. apply keeps_bind; [apply keeps_lift|]. intros c.
  apply (keeps_bind_through _ (definedAreFound p (X ∪ {[c]}))).
  - intros s [Hd HX]. split; simpl.
    + intros k d Hin Hp. apply elem_of_union_r. eauto.
    + set_solver.
  - intros _. apply keeps_bind; [apply keeps_lift|]. intros rg.
    apply keeps_bind; [apply found_getNamespace|]. intros ns.
    apply keeps_bind; [apply found_addDefinition; set_solver|]. intros _.
    apply keeps_bind; [apply keeps_lift|]. intros ext.
    apply keeps_bind; [apply keeps_lift|]. intros impls.
    apply keeps_bind; [apply found_setInheritance|]. intros _.
    repeat case_match; first [apply found_traverseBody | apply keeps_ret].
  - intros s [Hd HX]. split; [done|]. set_solver.
Qed.

Lemma found_indexUse X item : keeps (definedAreFound p X) (indexUse item).
Proof.
  unfold indexUse. apply keeps_bind; [apply keeps_lift|]. intros n.
  apply found_addSymbol.
Qed.

Lemma found_traverseNode X node : keeps (definedAreFound p X) (traverseNode p node).
Proof.
  remember (size node) as n eqn:Hn. revert node Hn.
  induction n as [n IH] using lt_wf_ind. intros node ->.
  assert (Hsub : forall fs kv l x,
             node = JObj fs -> kv ∈ fs -> kv.2 = JArr l -> x ∈ l ->
             keeps (definedAreFound p X) (traverseNode p x)).
  { intros fs kv l x -> Hkv Hl Hx. eapply IH; [|reflexivity].
    pose proof (IndexFacts.size_field _ _ Hkv) as H1. rewrite Hl in H1.
    pose proof (IndexFacts.size_element _ _ Hx). lia. }
  assert (Hsub2 : forall fs kv bfs kv' l x,
             node = JObj fs -> kv ∈ fs -> kv.2 = JObj bfs -> kv' ∈ bfs ->
             kv'.2 = JArr l -> x ∈ l ->
             keeps (definedAreFound p X) (traverseNode p x)).
  { intros fs kv bfs kv' l x -> Hkv Hb Hkv' Hl Hx. eapply IH; [|reflexivity].
    pose proof (IndexFacts.size_field _ _ Hkv) as H1. rewrite Hb in H1.
    pose proof (IndexFacts.size_field _ _ Hkv') as H2. rewrite Hl in H2.
    pose proof (IndexFacts.size_element _ _ Hx). lia. }
  destruct node as [| | | | | l | fs]; simpl;
    try apply keeps_ret; try apply keeps_lift.
  apply keeps_bind; [apply keeps_when, found_setNamespace|]. intros _.
  apply keeps_bind.
  { repeat case_match.
    - apply found_indexType.
    - apply keeps_forOf. intros x. apply found_indexUse.
    - apply keeps_bind; [apply keeps_lift|]. intros s. apply found_addSymbol.
    - apply keeps_ret. }
  intros _. apply keeps_bind.
  { apply keeps_onField; [apply keeps_ret|]. intros kv Hkv.
    apply keeps_nodes. intros l Hl x Hx. eauto. }
  intros _. apply keeps_onField; [apply keeps_ret|]. intros kv Hkv.
  destruct (isArray kv.2).
  - apply keeps_nodes. intros l Hl x Hx. eauto.
  - destruct kv.2 as [| | | | | |bfs] eqn:Hbody; try apply keeps_ret.
    apply keeps_onField; [apply keeps_ret|]. intros kv' Hkv'.
    apply keeps_nodes. intros l Hl x Hx. eauto.
Qed.

End File.

(** X18.  When the update of a file ends without an exception, every
    name under which the index then holds a definition of the file has
    the file among its candidates: what the scan defines can be found
    through the usage index. *)
Theorem defined_classes_are_candidates parse uri ast i k :
  parse (toString uri) = uri ->
  (updateIndexForFile parse (toString uri) (fsPath uri) ast
     (addFile (toString uri) i)).1 = Ok tt ->
  (exists d, d ∈ getDefinitions (scanFile parse uri (Ok ast) i) k
             /\ path d = fsPath uri) ->
  toString uri ∈ getCandidates (scanFile parse uri (Ok ast) i) k.
Proof.
  intros Hparse. unfold scanFile, updateIndexForFile. rewrite Hparse.
  set (m := children ← St.lift (prop "children" ast);
            St.when (truthy children) (traverse (fsPath uri) children)).
  assert (Hm : keeps (definedAreFound (fsPath uri) ∅) m).
  { apply keeps_bind; [apply keeps_lift|]. intros c. apply keeps_when.
    apply keeps_nodes. intros l _ x _. apply found_traverseNode. }
  set (start := {| ix := removeFile uri (addFile (toString uri) i);
                   currentNamespace := JStr EmptyString; symbolsFound := ∅ |}).
  assert (Hstart : definedAreFound (fsPath uri) ∅ start).
  { split; [|done]. simpl. intros k' d.
    rewrite IndexerLaws.getDefinitions_removeFile, list_elem_of_In, filter_In.
    intros [_ Hne] Hp. rewrite Hp, String.eqb_refl in Hne. done. }
  specialize (Hm start Hstart). destruct (m start) as [[[]|] s]; simpl in *; [|done].
  intros _ (d & Hin & Hp). destruct Hm as [Hfound _].
  specialize (Hfound k d Hin Hp).
  apply IndexerLaws.elem_of_getCandidates. simpl.
  rewrite IndexFacts.lookup_commit, decide_True by done.
  eexists. split; [done|]. set_solver.
Qed.

Lemma defined_classes_are_candidates_witness :
  toString (Fixtures.parseUri "/ws/test-rename/InterfaceTest.php")
  ∈ getCandidates
      (scanFile Fixtures.parseUri (Fixtures.parseUri "/ws/test-rename/InterfaceTest.php")
         (Ok Ast.loggerTest) empty) "FileLogger".
Proof.
  apply (defined_classes_are_candidates Fixtures.parseUri
           (Fixtures.parseUri "/ws/test-rename/InterfaceTest.php") Ast.loggerTest empty
           "FileLogger").
  - reflexivity.
  - vm_compute. reflexivity.
  - vm_compute. eexists. split; [left|reflexivity].
Defined.

End ScanRoundTrip.

(** ** What the update of the imports writes *)

Module ImportEditFacts.
Import Js Node Vscode RefactorPreview Keeps KeepsFacts.

Lemma keeps_forEachUntil {S} (Inv : S -> Prop) (f : js -> SM S bool) l :
  (forall x, x ∈ l -> keeps Inv (f x)) -> keeps Inv (Loop.forEachUntil f l).
Proof.
  induction l as [|x l IH]; intros Hf; simpl; [apply keeps_ret|].
  apply keeps_bind; [apply Hf; left|]. intros [|]; [apply keeps_ret|].
  apply IH. intros y Hy. apply Hf. by right.
Qed.

Lemma keeps_forNodesUntil {S} (Inv : S -> Prop) (f : js -> SM S bool) v :
  (forall l, v = JArr l -> forall x, x ∈ l -> keeps Inv (f x)) ->
  keeps Inv (Loop.forNodesUntil f v).
Proof.
  intros Hf. destruct v; simpl; try apply keeps_lift; try apply keeps_ret.
  apply keeps_forEachUntil. eauto.
Qed.

Lemma keeps_checkNodes (Inv : Imports -> Prop) (f : js -> SM Imports bool) v :
  (forall l, v = JArr l -> forall x, x ∈ l -> keeps Inv (f x)) ->
  keeps Inv (checkNodes f v).
Proof.
  intros Hf. unfold checkNodes. apply keeps_bind; [apply keeps_get|]. intros s.
  case_match; [apply keeps_ret|]. by apply keeps_forNodesUntil.
Qed.

Lemma keeps_descendInto {S} (Inv : S -> Prop) (visit : js -> SM S unit) val :
  (forall x, (size x <= size val)%nat -> keeps Inv (visit x)) ->
  keeps Inv (descendInto visit val).
Proof.
  intros Hv. unfold descendInto. destruct val as [| |b|z|s|l|fs];
    try apply keeps_ret.
  - destruct l as [|[| | | | | |first] l]; try apply keeps_ret.
    case_match; [|apply keeps_ret].
    apply keeps_nodes. intros l' [= <-] x Hx. apply Hv.
    pose proof (IndexFacts.size_element _ _ Hx). lia.
  - case_match; [|apply keeps_ret]. by apply Hv.
Qed.

Section Move.
Variable mv : Move.

Lemma text_setter (f : Imports -> Imports) (P : list TextEdit -> Prop) :
  (forall s, importEdits (f s) = importEdits s) ->
  keeps (fun s => P (importEdits s)) (St.modify f).
Proof. intros Hf. apply keeps_modify. intros s. by rewrite Hf. Qed.

Lemma text_push (texts : list string) e :
  newText e ∈ texts ->
  keeps (fun s => Forall (fun e => newText e ∈ texts) (importEdits s)) (pushImportEdit e).
Proof.
  intros He. apply keeps_modify. intros s Hs. simpl. apply Forall_app.
  split; [done|]. by repeat constructor.
Qed.

Lemma text_usesName (P : list TextEdit -> Prop) c node :
  keeps (fun s => P (importEdits s)) (usesName c node).
Proof.
  unfold usesName, setUsageFound.
  repeat first [ apply keeps_ret | apply keeps_lift
               | apply text_setter; reflexivity
               | apply keeps_when
               | apply keeps_forOf; intros ?
               | apply keeps_bind; [|intros ?] ].
Qed.

Lemma text_checkUsageNode (P : list TextEdit -> Prop) c node :
  keeps (fun s => P (importEdits s)) (checkUsageNode c node).
Proof.
  remember (size node) as n eqn:Hn. revert node Hn.
  induction n as [n IH] using lt_wf_ind. intros node ->.
  assert (Hnodes : forall fs kv, node = JObj fs -> kv ∈ fs ->
            keeps (fun s => P (importEdits s)) (checkNodes (checkUsageNode c) kv.2)).
  { intros fs kv -> Hkv. apply keeps_checkNodes. intros l Hl x Hx.
    eapply IH; [|reflexivity].
    pose proof (IndexFacts.size_field _ _ Hkv) as H1. rewrite Hl in H1.
    pose proof (IndexFacts.size_element _ _ Hx). lia. }
  destruct node as [| | | | | l | fs]; simpl;
    try apply keeps_ret; try apply keeps_lift.
  apply keeps_bind; [apply text_usesName|]. intros _.
  apply keeps_bind; [apply keeps_get|]. intros s.
  case_match; [apply keeps_ret|].
  apply keeps_bind.
  { apply keeps_onField; [apply keeps_ret|]. intros kv Hkv.
    case_match; [by eapply Hnodes|apply keeps_ret]. }
  intros _. apply keeps_bind.
  { apply keeps_onField; [apply keeps_ret|]. intros kv Hkv.
    destruct (isArray kv.2); [by eapply Hnodes|].
    destruct kv.2 as [| | | | | |bfs] eqn:Hbody; try apply keeps_ret.
    apply keeps_onField; [apply keeps_ret|]. intros kv' Hkv'.
    apply keeps_checkNodes. intros l Hl x Hx. eapply IH; [|reflexivity].
    pose proof (IndexFacts.size_field _ _ Hkv) as H1. rewrite Hbody in H1.
    pose proof (IndexFacts.size_field _ _ Hkv') as H2. rewrite Hl in H2.
    pose proof (IndexFacts.size_element _ _ Hx). lia. }
  intros _. apply keeps_bind; [|intros _; apply keeps_ret].
  apply keeps_onField; [apply keeps_ret|]. intros kv Hkv.
  case_match; [by eapply Hnodes|apply keeps_ret].
Qed.

Lemma text_analyzeNode (P : list TextEdit -> Prop) content node :
  keeps (fun s => P (importEdits s)) (analyzeNode content mv node).
Proof.
  unfold analyzeNode, analyzeNamespace, analyzeUseGroup, analyzeUseItem,
    setFileNamespace, setNamespaceEnd, setLastUseStatementEnd, setHasExistingImport.
  repeat first [ apply keeps_ret | apply keeps_lift
               | apply text_setter; reflexivity
               | apply keeps_when
               | apply keeps_forOf; intros ?
               | apply keeps_bind; [|intros ?]
               | case_match ].
Qed.

Lemma text_updateUseItem (texts : list string) node item :
  EmptyString ∈ texts -> newFqn mv ∈ texts ->
  keeps (fun s => Forall (fun e => newText e ∈ texts) (importEdits s))
        (updateUseItem mv node item).
Proof.
  intros Hdel Hfqn. unfold updateUseItem, setShouldRenameUsages.
  repeat first [ apply keeps_ret | apply keeps_lift | apply keeps_get
               | apply text_setter; reflexivity
               | apply text_push; assumption
               | apply keeps_bind; [|intros ?]
               | case_match ].
Qed.

Lemma text_updateUsesNode (texts : list string) node :
  EmptyString ∈ texts -> newFqn mv ∈ texts ->
  keeps (fun s => Forall (fun e => newText e ∈ texts) (importEdits s))
        (updateUsesNode mv node).
Proof.
  intros Hdel Hfqn.
  remember (size node) as n eqn:Hn. revert node Hn.
  induction n as [n IH] using lt_wf_ind. intros node ->.
  assert (Hnodes : forall fs kv, node = JObj fs -> kv ∈ fs ->
            keeps (fun s => Forall (fun e => newText e ∈ texts) (importEdits s))
                  (Loop.nodes (updateUsesNode mv) kv.2)).
  { intros fs kv -> Hkv. apply keeps_nodes. intros l Hl x Hx.
    eapply IH; [|reflexivity].
    pose proof (IndexFacts.size_field _ _ Hkv) as H1. rewrite Hl in H1.
    pose proof (IndexFacts.size_element _ _ Hx). lia. }
  destruct node as [| | | | | l | fs]; simpl;
    try apply keeps_ret; try apply keeps_lift.
  apply keeps_bind.
  { apply keeps_when, keeps_forOf. intros x. by apply text_updateUseItem. }
  intros _. apply keeps_bind.
  { apply keeps_onField; [apply keeps_ret|]. intros kv Hkv. by eapply Hnodes. }
  intros _. apply keeps_onField; [apply keeps_ret|]. intros kv Hkv.
  destruct (isArray kv.2); [by eapply Hnodes|].
  destruct kv.2 as [| | | | | |bfs] eqn:Hbody; try apply keeps_ret.
  apply keeps_onField; [apply keeps_ret|]. intros kv' Hkv'.
  apply keeps_nodes. intros l Hl x Hx. eapply IH; [|reflexivity].
  pose proof (IndexFacts.size_field _ _ Hkv) as H1. rewrite Hbody in H1.
  pose proof (IndexFacts.size_field _ _ Hkv') as H2. rewrite Hl in H2.
  pose proof (IndexFacts.size_element _ _ Hx). lia.
Qed.

Lemma text_replaceNode (texts : list string) n text :
  text ∈ texts ->
  keeps (fun s => Forall (fun e => newText e ∈ texts) (importEdits s))
        (replaceNode n text).
Proof.
  intros Htext. unfold replaceNode. case_match; [|apply keeps_ret].
  apply keeps_bind; [apply keeps_lift|]. intros r. by apply text_push.
Qed.

Lemma text_renameHere (texts : list string) old new node :
  new ∈ texts ->
  keeps (fun s => Forall (fun e => newText e ∈ texts) (importEdits s))
        (renameHere old new node).
Proof.
  intros Hnew. unfold renameHere.
  repeat first [ apply keeps_ret | apply keeps_lift
               | apply text_replaceNode; assumption
               | apply keeps_when
               | apply keeps_forOf; intros ?
               | apply keeps_bind; [|intros ?] ].
Qed.

Lemma text_renameUsagesNode (texts : list string) old new node :
  new ∈ texts ->
  keeps (fun s => Forall (fun e => newText e ∈ texts) (importEdits s))
        (renameUsagesNode old new node).
Proof.
  intros Hnew.
  remember (size node) as n eqn:Hn. revert node Hn.
  induction n as [n IH] using lt_wf_ind. intros node ->.
  destruct node as [| | | | | l | fs]; simpl;
    try apply keeps_ret; try apply keeps_lift.
  - apply keeps_forEach. intros x Hx. apply keeps_descendInto. intros y Hy.
    eapply IH; [|reflexivity].
    pose proof (IndexFacts.size_element _ _ Hx). simpl in *. lia.
  - apply keeps_bind; [by apply text_renameHere|]. intros _.
    apply keeps_forIn. intros kv Hkv. case_match; [apply keeps_ret|].
    apply keeps_descendInto. intros y Hy. eapply IH; [|reflexivity].
    pose proof (IndexFacts.size_field _ _ Hkv). lia.
Qed.

Lemma text_insertImport (texts : list string) :
  "use " ++ newFqn mv ++ ";" ++ String "010"%char EmptyString ∈ texts ->
  keeps (fun s => Forall (fun e => newText e ∈ texts) (importEdits s)) (insertImport mv).
Proof.
  intros Huse. unfold insertImport, setShouldRenameUsages.
  apply keeps_bind; [apply text_setter; reflexivity|]. intros _.
  apply keeps_bind; [apply keeps_get|]. intros s.
  apply keeps_bind; [repeat case_match; first [apply keeps_ret|apply keeps_lift]|].
  intros q. by apply text_push.
Qed.

Lemma text_updateImports ast content :
  keeps (fun s => Forall (fun e => newText e ∈
                    ["use " ++ newFqn mv ++ ";" ++ String "010"%char EmptyString;
                     EmptyString; newFqn mv; simpleName (newFqn mv)])
                  (importEdits s))
        (updateImports ast content mv).
Proof.
  unfold updateImports.
  apply keeps_bind.
  { apply keeps_when, keeps_forOf. intros x. apply text_analyzeNode. }
  intros _. apply keeps_bind; [apply keeps_get|]. intros s.
  apply keeps_bind.
  { apply keeps_when. apply keeps_bind.
    - apply keeps_when. unfold checkUsage. apply keeps_checkNodes.
      intros l _ x _. apply text_checkUsageNode.
    - intros _. apply keeps_bind; [apply keeps_get|]. intros s'.
      apply keeps_when, text_insertImport. set_solver. }
  intros _. apply keeps_bind.
  { apply keeps_when, keeps_nodes. intros l _ x _.
    apply text_updateUsesNode; set_solver. }
  intros _. apply keeps_bind; [apply keeps_get|]. intros s'.
  apply keeps_when, keeps_when. unfold renameUsagesTraverse.
  apply keeps_nodes. intros l _ x _. apply text_renameUsagesNode. set_solver.
Qed.

End Move.

(** X19.  The edits that [findAndUpdateImports] gives for a file are
    never an empty list, and each of them writes one of four texts: the
    import statement of the new name on a line of its own, nothing (a
    deletion), the new qualified name, or the new short name. *)
Theorem import_update_texts ast content mv edits :
  findAndUpdateImports ast content mv = Ok (Some edits) ->
  edits <> []
  /\ Forall (fun e => newText e ∈
               ["use " ++ newFqn mv ++ ";" ++ String "010"%char EmptyString;
                EmptyString; newFqn mv; simpleName (newFqn mv)])
            edits.
Proof.
  unfold findAndUpdateImports.
  pose proof (text_updateImports mv ast content noImports) as Hk.
  destruct (updateImports ast content mv noImports) as [[[]|] s]; [|done].
  simpl in Hk. destruct (importEdits s) as [|e es]; [done|].
  intros [= <-]. split; [done|]. apply Hk. constructor.
Qed.

Lemma import_update_texts_witness :
  [insert {| line := 3; character := 0 |} ("use A\Utils\X;" ++ Ast.newline)] <> []
  /\ Forall (fun e => newText e ∈
               ["use " ++ newFqn Fixtures.moveX ++ ";" ++ String "010"%char EmptyString;
                EmptyString; newFqn Fixtures.moveX; simpleName (newFqn Fixtures.moveX)])
            [insert {| line := 3; character := 0 |} ("use A\Utils\X;" ++ Ast.newline)].
Proof.
  apply (import_update_texts Ast.mailer Ast.mailerText Fixtures.moveX).
  vm_compute. reflexivity.
Defined.

End ImportEditFacts.

(** ** What the rename provider reads and writes *)

Module RenameProviderFacts.
Import Js Node Vscode RenameProvider RenameCandidates Keeps KeepsFacts.

(** The new name is a replacement text: [$&] in it stands for the old
    name. *)
Example replaceSuffix_pattern :
  replaceSuffix "Lib\Foo" "Foo" "$&Baz" = "Lib\FooBaz"
  /\ replaceSuffix "Lib\Foo" "Foo" "Bar" = "Lib\Bar".
Proof. split; reflexivity. Qed.

Section Uris.
Variable U : string -> Prop.
Variable rn : Rename.

Lemma on_setClass c :
  keeps (fun w => Forall (fun c => exists u r t, c = CallReplace u r t /\ U u)
                         (workspaceEdit w)) (setClass c).
Proof. by apply keeps_modify. Qed.

Lemma on_replaceAt uri r t :
  U uri ->
  keeps (fun w => Forall (fun c => exists u r t, c = CallReplace u r t /\ U u)
                         (workspaceEdit w)) (replaceAt uri r t).
Proof.
  intros Hu. apply keeps_modify. intros w Hw. simpl. apply Forall_app.
  split; [done|]. repeat constructor. eauto.
Qed.

Lemma on_addEdit uri node :
  U uri ->
  keeps (fun w => Forall (fun c => exists u r t, c = CallReplace u r t /\ U u)
                         (workspaceEdit w)) (addEdit uri rn node).
Proof.
  intros Hu. unfold addEdit. apply keeps_bind; [apply keeps_lift|]. intros loc.
  case_match; [|apply keeps_ret].
  apply keeps_bind; [apply keeps_lift|]. intros r. by apply on_replaceAt.
Qed.

Lemma on_addNameEdit uri n :
  U uri ->
  keeps (fun w => Forall (fun c => exists u r t, c = CallReplace u r t /\ U u)
                         (workspaceEdit w)) (addNameEdit uri rn n).
Proof.
  intros Hu. unfold addNameEdit.
  repeat case_match; first [by apply on_addEdit | apply keeps_ret].
Qed.

Lemma on_checkMethods uri bodyNodes :
  U uri ->
  keeps (fun w => Forall (fun c => exists u r t, c = CallReplace u r t /\ U u)
                         (workspaceEdit w)) (checkMethods uri rn bodyNodes).
Proof.
  intros Hu. unfold checkMethods. case_match; [apply keeps_ret|].
  apply keeps_forOf. intros x. apply keeps_bind; [apply keeps_lift|]. intros b.
  apply keeps_when. apply keeps_bind; [apply keeps_lift|]. intros m.
  apply keeps_when. by apply on_addNameEdit.
Qed.

Lemma on_renameUse uri item :
  U uri ->
  keeps (fun w => Forall (fun c => exists u r t, c = CallReplace u r t /\ U u)
                         (workspaceEdit w)) (renameUse uri rn item).
Proof.
  intros Hu. unfold renameUse. apply keeps_bind; [apply keeps_lift|]. intros n.
  case_match; [|apply keeps_ret].
  apply keeps_bind; [apply keeps_lift|]. intros r. by apply on_replaceAt.
Qed.

Lemma on_renameName uri node :
  U uri ->
  keeps (fun w => Forall (fun c => exists u r t, c = CallReplace u r t /\ U u)
                         (workspaceEdit w)) (renameName uri rn node).
Proof.
  intros Hu. unfold renameName. apply keeps_bind; [apply keeps_lift|]. intros n.
  case_match; [|apply keeps_ret].
  apply keeps_bind; [by apply on_addEdit|]. intros _.
  apply keeps_bind; [apply keeps_lift|]. intros r. by apply on_replaceAt.
Qed.

Lemma on_renameCall uri node :
  U uri ->
  keeps (fun w => Forall (fun c => exists u r t, c = CallReplace u r t /\ U u)
                         (workspaceEdit w)) (renameCall uri rn node).
Proof.
  intros Hu. unfold renameCall. case_match; [|apply keeps_ret].
  apply keeps_bind; [apply keeps_get|]. intros w.
  case_match; [by apply on_addEdit|apply keeps_ret].
Qed.

Lemma on_renameStaticCall uri node :
  U uri ->
  keeps (fun w => Forall (fun c => exists u r t, c = CallReplace u r t /\ U u)
                         (workspaceEdit w)) (renameStaticCall uri rn node).
Proof.
  intros Hu. unfold renameStaticCall. case_match; [|apply keeps_ret].
  apply keeps_bind; [apply keeps_get|]. intros w.
  case_match; [by apply on_addEdit|apply keeps_ret].
Qed.

Lemma on_traverseNode uri node :
  U uri ->
  keeps (fun w => Forall (fun c => exists u r t, c = CallReplace u r t /\ U u)
                         (workspaceEdit w)) (traverseNode uri rn node).
Proof.
  intros Hu.
  remember (size node) as n eqn:Hn. revert node Hn.
  induction n as [n IH] using lt_wf_ind. intros node ->.
  assert (Hnodes : forall fs kv, node = JObj fs -> kv ∈ fs ->
            keeps (fun w => Forall (fun c => exists u r t, c = CallReplace u r t /\ U u)
                                   (workspaceEdit w))
                  (Loop.forNodes (traverseNode uri rn) kv.2)).
  { intros fs kv -> Hkv. apply keeps_forNodes. intros l Hl x Hx.
    eapply IH; [|reflexivity].
    pose proof (IndexFacts.size_field _ _ Hkv) as H1. rewrite Hl in H1.
    pose proof (IndexFacts.size_element _ _ Hx). lia. }
  destruct node as [| | | | | l | fs]; try apply keeps_ret; try apply keeps_lift.
  assert (Hdescend :
    keeps (fun w => Forall (fun c => exists u r t, c = CallReplace u r t /\ U u)
                           (workspaceEdit w))
      (_ ← Loop.onField "children"
             (fun v => if truthy v then Loop.forNodes (traverseNode uri rn) v
                       else mret tt)
             (mret tt) fs;
       Loop.onField "body"
         (fun body =>
            if isArray body then Loop.forNodes (traverseNode uri rn) body
            else match body with
                 | JObj bfs =>
                     Loop.onField "children"
                       (fun c => if truthy c
                                 then Loop.forNodes (traverseNode uri rn) c
                                 else mret tt)
                       (mret tt) bfs
                 | _ => mret tt
                 end)
         (mret tt) fs)).
  { apply keeps_bind.
    - apply keeps_onField; [apply keeps_ret|]. intros kv Hkv.
      case_match; [by eapply Hnodes|apply keeps_ret].
    - intros _. apply keeps_onField; [apply keeps_ret|]. intros kv Hkv.
      destruct (isArray kv.2); [by eapply Hnodes|].
      destruct kv.2 as [| | | | | |bfs] eqn:Hbody; try apply keeps_ret.
      apply keeps_onField; [apply keeps_ret|]. intros kv' Hkv'.
      case_match; [|apply keeps_ret].
      apply keeps_forNodes. intros l Hl x Hx. eapply IH; [|reflexivity].
      pose proof (IndexFacts.size_field _ _ Hkv) as H1. rewrite Hbody in H1.
      pose proof (IndexFacts.size_field _ _ Hkv') as H2. rewrite Hl in H2.
      pose proof (IndexFacts.size_element _ _ Hx). lia. }
  simpl. case_match.
  - apply keeps_bind; [apply keeps_get|]. intros w.
    apply keeps_bind; [apply keeps_lift|]. intros className.
    apply keeps_bind; [apply on_setClass|]. intros _.
    apply keeps_bind; [by apply keeps_when, on_addNameEdit|]. intros _.
    apply keeps_bind.
    { apply keeps_when. case_match; [by apply on_checkMethods|apply keeps_ret]. }
    intros _. apply keeps_bind; [exact Hdescend|]. intros _. apply on_setClass.
  - apply keeps_bind; [apply keeps_when, keeps_forOf; intros x; by apply on_renameUse|].
    intros _. apply keeps_bind; [by apply keeps_when, on_renameName|].
    intros _. apply keeps_bind; [by apply keeps_when, on_renameCall|].
    intros _. apply keeps_bind; [by apply keeps_when, on_renameStaticCall|].
    intros _. exact Hdescend.
Qed.

Lemma on_renameInFile edit file :
  U (fsPath file) ->
  Forall (fun c => exists u r t, c = CallReplace u r t /\ U u) edit ->
  Forall (fun c => exists u r t, c = CallReplace u r t /\ U u) (renameInFile rn edit file).
Proof.
  intros Hu Hedit. unfold renameInFile. destruct (parsed file) as [ast|]; [|done].
  case_match; [|done].
  apply (keeps_forNodes _ (traverseNode (fsPath file) rn) (get "children" ast)
           (fun l _ x _ => on_traverseNode (fsPath file) x Hu)
           {| workspaceEdit := edit; currentClassName := JNull |}).
  exact Hedit.
Qed.

End Uris.

(** X20.  The rename provider reads every candidate file before it
    parses it, outside the [try] that guards the parse: the rename
    fails as a whole exactly when one candidate, a file of the workspace
    or the document of the cursor, cannot be read; a file that does not
    parse is passed over.  When it succeeds, every call it has made
    replaces a range in one of the candidates. *)
Theorem rename_reads_every_candidate ix document position oldName newName allPhpFiles :
  (provideRenameEdits ix document position (Some oldName) newName allPhpFiles = Throw
   <-> exists f, f ∈ candidateFiles document allPhpFiles /\ content f = Throw)
  /\ forall edit,
       provideRenameEdits ix document position (Some oldName) newName allPhpFiles = Ok edit ->
       Forall (fun c => exists u r t,
                 c = CallReplace u r t
                 /\ exists f, f ∈ candidateFiles document allPhpFiles /\ u = fsPath f)
              edit.
Proof.
  unfold provideRenameEdits.
  fold (candidateFiles document allPhpFiles).
  set (rn := target ix document position oldName newName).
  set (U := fun u => exists f, f ∈ candidateFiles document allPhpFiles /\ u = fsPath f).
  set (each := fix each (files : list SourceFile) (edit : WorkspaceEdit)
                 : res WorkspaceEdit :=
                 match files with
                 | [] => Ok edit
                 | file :: rest => _ ← content file; each rest (renameInFile rn edit file)
                 end).
  assert (Hgen : forall files edit,
            (forall f, f ∈ files -> f ∈ candidateFiles document allPhpFiles) ->
            Forall (fun c => exists u r t, c = CallReplace u r t /\ U u) edit ->
            match each files edit with
            | Throw => exists f, f ∈ files /\ content f = Throw
            | Ok e => Forall (fun c => exists u r t, c = CallReplace u r t /\ U u) e
                      /\ forall f, f ∈ files -> content f <> Throw
            end).
  { induction files as [|f files IH]; intros edit Hin Hedit; simpl.
    - split; [done|]. by intros f ?%elem_of_nil.
    - destruct (content f) as [txt|] eqn:Hf; simpl; [|exists f; split; [left|done]].
      specialize (IH (renameInFile rn edit f)).
      destruct (each files (renameInFile rn edit f)) as [e|].
      + destruct IH as [He Hall].
        * intros g Hg. apply Hin. by right.
        * apply on_renameInFile; [|done]. exists f. split; [apply Hin; left|done].
        * split; [done|]. intros g [->|Hg]%elem_of_cons; [by rewrite Hf|auto].
      + destruct IH as (g & Hg & Hthrow).
        * intros g Hg. apply Hin. by right.
        * apply on_renameInFile; [|done]. exists f. split; [apply Hin; left|done].
        * exists g. split; [by right|done]. }
  specialize (Hgen (candidateFiles document allPhpFiles) [] (fun f H => H) (Forall_nil_2 _)).
  destruct (each (candidateFiles document allPhpFiles) []) as [e|].
  - destruct Hgen as [He Hall]. split.
    + split; [done|]. intros (f & Hf & Hthrow). by destruct (Hall f Hf).
    + by intros edit [= <-].
  - split; [|done]. split; [by intros _|done].
Qed.

End RenameProviderFacts.

(** ** The diagnostics of a document of declarations *)

Module DeclarationFacts.
Import Js Node Vscode ImportDiagnostics Declarations Kept.









Lemma Forall_named_app a b : Forall named (a ++ b) <-> Forall named a /\ Forall named b.
Proof. apply Forall_app. Qed.

































Section Reachable.
Import Indexer IndexerApi.


End Reachable.



(** The tree of the document of [models/User.php] is the tree of the
    fixture. *)
Example userDocument_tree : tree userDocument = Ast.user.
Proof. reflexivity. Qed.

(** [models/User.php] with [Profile] indexed in its namespace: the class
    extended is flagged, the two type hints are not. *)
Example user_diagnostics :
  updateDiagnostics
    (Indexer.scanFile Fixtures.parseUri (Fixtures.parseUri "/ws/models/Profile.php")
       (Ok Ast.profile) Indexer.empty)
    (fileOf "/ws/models/User.php" userDocument)
  = Ok [missingImport "Object" (Fixtures.span 4 19 25)].
Proof. vm_compute. reflexivity. Qed.

End DeclarationFacts.
